(** * FraudShield: decision rules, audit log and explainer

    A shallow embedding of the decision and explanation core of the
    repository:

    - [api/decision_engine.py]  ([make_decision], [_apply_decision_rules])
    - [api/audit_logger.py]     ([log_decision])
    - [api/main.py]             (the endpoints and their helpers)
    - [api/transactions_store.py], [api/analyst_actions.py]
    - [rag/build_index.py]      ([chunk_text], [load_markdown_files],
                                 [main])
    - [rag/explainer.py]        ([_code_to_query], [_scrub_pii],
                                 [_extract_relevant_sentences],
                                 [explain_decision])

    Python [float] is IEEE binary64 and is modelled by Rocq's primitive
    floats; Python [int] by [Z].  A Python [str] is a [string] in the
    decision engine and the audit logger, and the list of its characters
    ([text]) in the modules that slice and scan it.  Characters are code
    points below 256, and on them [str.isspace], [str.strip], [str.lower]
    and the classes [\s], [\w], [\d] and [\b] of [re] are Python's.

    The scoring models, the embedding model, the FAISS index, the clock
    and [float.__repr__] are values of libraries outside the repository:
    they enter as parameters, and a call into the models, the embedding
    model or FAISS, like the read or write of a file, raises or returns.
    [hashlib.sha256], [json.dumps] and the patterns of [re] that the code
    uses are modelled in full.

    The file has two parts: the embedding, module by module, and then the
    properties proved about it. *)

From Stdlib Require Import Bool List Arith NArith ZArith Lia.
From Stdlib Require Import Ascii String DecimalString.
From Stdlib Require Import PrimFloat.
From Stdlib Require FloatAxioms SpecFloat.
Import ListNotations.

Set Warnings "-inexact-float".

Local Open Scope string_scope.
Local Open Scope list_scope.
Local Open Scope nat_scope.

(* ================================================================== *)
(** * Python values shared by the modules *)
(* ================================================================== *)

(** A raised exception: its class and its message. *)
Record exn : Type := Exn { exn_class : string; exn_msg : string }.

Definition ValueError (msg : string) : exn := Exn "ValueError" msg.
Definition KeyError (key : string) : exn := Exn "KeyError" key.
Definition IndexError (msg : string) : exn := Exn "IndexError" msg.
Definition FileNotFoundError (msg : string) : exn := Exn "FileNotFoundError" msg.

(** A call either raises or returns. *)
Definition result (A : Type) : Type := (exn + A)%type.
Definition raise {A : Type} (e : exn) : result A := inl e.
Definition ret {A : Type} (a : A) : result A := inr a.
Definition bind {A B : Type} (c : result A) (k : A -> result B) : result B :=
  match c with
  | inl e => inl e
  | inr a => k a
  end.

Notation "x <- c ;; k" := (bind c (fun x => k))
  (at level 61, c at next level, right associativity).

(** A pandas DataFrame: column labels (assumed distinct) and the rows of
    cell values under them. *)
Record DataFrame (V : Type) : Type :=
  { columns : list string; rows : list (list V) }.
Arguments columns {V} _.
Arguments rows {V} _.

(** What a caller may pass where a DataFrame is expected. *)
Inductive pyobj (V : Type) : Type :=
| PyDataFrame (df : DataFrame V)
| PyOther (type_name : string).
Arguments PyDataFrame {V} _.
Arguments PyOther {V} _.

Fixpoint index_of (c : string) (cols : list string) : option nat :=
  match cols with
  | [] => None
  | c' :: rest =>
      if String.eqb c c' then Some 0
      else option_map S (index_of c rest)
  end.

(** [df[c]]: the column as a Series, or KeyError. *)
Definition getitem {V : Type} (df : DataFrame V) (c : string)
  : result (list (option V)) :=
  match index_of c (columns df) with
  | None => raise (KeyError c)
  | Some i => ret (map (fun r => nth_error r i) (rows df))
  end.

(** [series.iloc[0]] *)
Definition iloc0 {V : Type} (series : list (option V)) : result V :=
  match series with
  | Some v :: _ => ret v
  | _ => raise (IndexError "single positional indexer is out-of-bounds")
  end.

(** [df.values.flatten()]: the cells, row after row. *)
Definition values_flatten {V : Type} (df : DataFrame V) : list V :=
  List.concat (rows df).

(* ================================================================== *)
(** * Python strings *)
(* ================================================================== *)

(** [sep.join(parts)] *)
Fixpoint join (sep : string) (parts : list string) : string :=
  match parts with
  | [] => ""
  | [p] => p
  | p :: rest => p ++ sep ++ join sep rest
  end.

(** [needle in hay] for strings: substring test. *)
Fixpoint contains (needle hay : string) : bool :=
  prefix needle hay ||
  match hay with
  | EmptyString => false
  | String _ hay' => contains needle hay'
  end.

(* ================================================================== *)
(** * api/decision_engine.py *)
(* ================================================================== *)

Module DecisionEngine.

Record Decision : Type :=
  { decision : string;
    risk_score : float;
    anomaly_score : float;
    reason_code : string }.

(** Thresholds (MVP - intentionally simple) *)
Definition HIGH_FRAUD_THRESHOLD : float := 0.7%float.
Definition SOFT_FRAUD_THRESHOLD : float := 0.5%float.
Definition HIGH_ANOMALY_THRESHOLD : float := (-0.15)%float.
Definition SOFT_ANOMALY_THRESHOLD : float := (-0.10)%float.

(** Python's [x >= y] and [x <= y] on floats (both false on NaN). *)
Definition float_ge (x y : float) : bool := PrimFloat.leb y x.
Definition float_le (x y : float) : bool := PrimFloat.leb x y.

Definition _apply_decision_rules
    (fraud_probability anomaly_score : float)
    (is_qr beneficiary_is_new : Z) : string * string :=
  let high_fraud := float_ge fraud_probability HIGH_FRAUD_THRESHOLD in
  let high_anomaly := float_le anomaly_score HIGH_ANOMALY_THRESHOLD in
  let soft_fraud := float_ge fraud_probability SOFT_FRAUD_THRESHOLD in
  let soft_anomaly := float_le anomaly_score SOFT_ANOMALY_THRESHOLD in
  let qr_payment := Z.eqb is_qr 1 in
  let new_beneficiary := Z.eqb beneficiary_is_new 1 in
  if high_fraud && high_anomaly && qr_payment && new_beneficiary then
    ("HARD_BLOCK", "QR_NEW_BENEFICIARY_HIGH_FRAUD_HIGH_ANOMALY")
  else if soft_fraud || soft_anomaly then
    let reasons := (if soft_fraud then ["FRAUD_SIGNAL"] else [])
                   ++ (if soft_anomaly then ["ANOMALY_SIGNAL"] else []) in
    ("SOFT_BLOCK", join "_" reasons)
  else
    ("ALLOW", "NO_SIGNIFICANT_RISK").

(** The four-way conjunction of the HARD BLOCK rule. *)
Definition hard_block_combo (fp an : float) (q b : Z) : Prop :=
  float_ge fp 0.7 = true /\ float_le an (-0.15) = true /\ q = 1%Z /\ b = 1%Z.

(** The two pickled scoring models are opaque: a call on the frame raises
    or returns a score.  [hasattr(_fraud_model, "predict_proba")] tells
    which entry point the classifier offers. *)
Inductive fraud_model (V : Type) : Type :=
| HasPredictProba (predict_proba : DataFrame V -> result float)
| PredictOnly (predict : DataFrame V -> result float).
Arguments HasPredictProba {V} _.
Arguments PredictOnly {V} _.

Section MakeDecision.

Context {V : Type}.
(** [int(cell)] on a cell of the frame *)
Variable py_int : V -> result Z.
Variable _fraud_model : fraud_model V.
(** [float(_anomaly_model.decision_function(X)[0])] *)
Variable decision_function : DataFrame V -> result float.

(** [float(_fraud_model.predict_proba(X)[0, 1])] when the classifier has
    [predict_proba], [float(_fraud_model.predict(X)[0])] otherwise. *)
Definition fraud_probability_of (X : DataFrame V) : result float :=
  match _fraud_model with
  | HasPredictProba predict_proba => predict_proba X
  | PredictOnly predict => predict X
  end.

Definition make_decision (feature_row : pyobj V) : result Decision :=
  match feature_row with
  | PyOther _ => raise (ValueError "feature_row must be a pandas DataFrame")
  | PyDataFrame df =>
      if negb (Nat.eqb (List.length (rows df)) 1) then
        raise (ValueError "feature_row must contain exactly one row")
      else
        let X := df in
        fraud_probability <- fraud_probability_of X ;;
        anomaly_score <- decision_function X ;;
        is_qr <- (col <- getitem df "is_qr" ;; cell <- iloc0 col ;; py_int cell) ;;
        beneficiary_is_new <-
          (col <- getitem df "beneficiary_is_new" ;;
           cell <- iloc0 col ;; py_int cell) ;;
        let '(decision, reason_code) :=
          _apply_decision_rules fraud_probability anomaly_score
                                is_qr beneficiary_is_new in
        ret {| decision := decision;
               risk_score := fraud_probability;
               anomaly_score := anomaly_score;
               reason_code := reason_code |}
  end.

End MakeDecision.

(** The frame that the /decision endpoint of api/main.py builds from a
    payload: it has no column [beneficiary_is_new]. *)
Definition endpoint_frame : DataFrame Z :=
  {| columns := ["amount"; "txn_hour"; "is_qr"; "beneficiary_age_min";
                 "device_changed"; "location_velocity"; "failed_auth_24h"];
     rows := [[22000; 2; 1; 3; 1; 1; 4]%Z] |}.

(** Stand-ins for the two models: scores 0.9 and -0.2 on every frame. *)
Definition make_decision_stub (feature_row : pyobj Z) : result Decision :=
  make_decision (fun z => ret z)
    (HasPredictProba (fun _ => ret 0.9%float))
    (fun _ => ret (-0.2)%float)
    feature_row.

End DecisionEngine.

(* ================================================================== *)
(** * hashlib.sha256 *)
(* ================================================================== *)

(** SHA-256 (FIPS 180-4) over a list of bytes; words are 32-bit values
    held in [N], with the wrap-around written out. *)
Module Sha256.
Local Open Scope N_scope.

Definition mask32 : N := 0xFFFFFFFF.
Definition w32 (x : N) : N := N.land x mask32.
Definition add32 (x y : N) : N := w32 (x + y).
Definition not32 (x : N) : N := N.lxor x mask32.
Definition rotr (n x : N) : N :=
  N.lor (N.shiftr x n) (w32 (N.shiftl x (32 - n))).

Definition Ch (x y z : N) : N := N.lxor (N.land x y) (N.land (not32 x) z).
Definition Maj (x y z : N) : N :=
  N.lxor (N.lxor (N.land x y) (N.land x z)) (N.land y z).
Definition Sigma0 (x : N) : N := N.lxor (N.lxor (rotr 2 x) (rotr 13 x)) (rotr 22 x).
Definition Sigma1 (x : N) : N := N.lxor (N.lxor (rotr 6 x) (rotr 11 x)) (rotr 25 x).
Definition sigma0 (x : N) : N := N.lxor (N.lxor (rotr 7 x) (rotr 18 x)) (N.shiftr x 3).
Definition sigma1 (x : N) : N := N.lxor (N.lxor (rotr 17 x) (rotr 19 x)) (N.shiftr x 10).

(** The first 64 primes. *)
Definition is_prime (n : nat) : bool :=
  forallb (fun d => negb (Nat.eqb (Nat.modulo n d) 0)) (seq 2 (n - 2)).

Definition primes64 : list N :=
  Eval vm_compute in map N.of_nat (filter is_prime (seq 2 310)).

(** The integer cube root below [2 ^ bits], found bit by bit. *)
Fixpoint cbrt_bits (bits : nat) (acc x : N) : N :=
  match bits with
  | O => acc
  | S b =>
      let t := acc + N.shiftl 1 (N.of_nat b) in
      cbrt_bits b (if t * t * t <=? x then t else acc) x
  end.

(** The round constants: the first 32 bits of the fractional parts of the
    cube roots of the first 64 primes. *)
Definition K : list N :=
  Eval vm_compute in
    map (fun p => w32 (cbrt_bits 36 0 (N.shiftl p 96))) primes64.

(** The initial hash value: the same of the square roots of the first 8
    primes. *)
Definition H0 : list N :=
  Eval vm_compute in
    map (fun p => w32 (N.sqrt (N.shiftl p 64))) (firstn 8 primes64).

(** Big-endian bytes of [x], [n] of them. *)
Fixpoint be_bytes (n : nat) (x : N) : list N :=
  match n with
  | O => []
  | S n' => be_bytes n' (N.shiftr x 8) ++ [N.land x 0xFF]
  end.

(** The message, 0x80, zeros up to 56 mod 64, and the bit length on 8 bytes. *)
Definition pad (msg : list N) : list N :=
  let len := N.of_nat (List.length msg) in
  let zeros := N.to_nat ((64 + 55 - (len mod 64)) mod 64) in
  msg ++ [0x80] ++ repeat 0 zeros ++ be_bytes 8 (8 * len).

Fixpoint words (fuel : nat) (bytes : list N) : list N :=
  match fuel, bytes with
  | S fuel', b0 :: b1 :: b2 :: b3 :: rest =>
      (N.shiftl b0 24 + N.shiftl b1 16 + N.shiftl b2 8 + b3) :: words fuel' rest
  | _, _ => []
  end.

(** [w] holds the schedule so far, newest word first. *)
Fixpoint extend (n : nat) (w : list N) : list N :=
  match n with
  | O => w
  | S n' =>
      let x := add32 (add32 (sigma1 (nth 1 w 0)) (nth 6 w 0))
                     (add32 (sigma0 (nth 14 w 0)) (nth 15 w 0)) in
      extend n' (x :: w)
  end.

Definition schedule (block : list N) : list N := rev (extend 48 (rev block)).

Definition round (st : list N) (kw : N * N) : list N :=
  match st with
  | [a; b; c; d; e; f; g; h] =>
      let t1 := add32 (add32 (add32 h (Sigma1 e)) (add32 (Ch e f g) (fst kw))) (snd kw) in
      let t2 := add32 (Sigma0 a) (Maj a b c) in
      [add32 t1 t2; a; b; c; add32 d t1; e; f; g]
  | _ => st
  end.

Definition compress (h : list N) (block : list N) : list N :=
  let st := fold_left round (combine K (schedule block)) h in
  map (fun p => add32 (fst p) (snd p)) (combine h st).

Fixpoint blocks (fuel : nat) (ws : list N) : list (list N) :=
  match fuel with
  | O => []
  | S fuel' =>
      match ws with
      | [] => []
      | _ => firstn 16 ws :: blocks fuel' (skipn 16 ws)
      end
  end.

Definition digest (msg : list N) : list N :=
  let bytes := pad msg in
  let ws := words (List.length bytes) bytes in
  fold_left compress (blocks (List.length ws) ws) H0.

Definition hex_digit (x : N) : ascii :=
  ascii_of_N (if x <? 10 then 48 + x else 87 + x).

Definition hex_byte (b : N) : string :=
  String (hex_digit (N.shiftr b 4)) (String (hex_digit (N.land b 15)) "").

Definition hex_word (w : N) : string :=
  String.concat "" (map hex_byte (be_bytes 4 w)).

(** [hashlib.sha256(bytes).hexdigest()] *)
Definition hexdigest (msg : list N) : string :=
  String.concat "" (map hex_word (digest msg)).

End Sha256.

(* ================================================================== *)
(** * api/audit_logger.py *)
(* ================================================================== *)

Module AuditLogger.

(** ** json.dumps on the audit record *)

Definition quote : string := String "034" "".
Definition backslash : string := String "092" "".

Definition hex4 (n : nat) : string :=
  let x := N.of_nat n in
  (Sha256.hex_byte (N.shiftr x 8) ++ Sha256.hex_byte (N.land x 255))%string.

(** One character inside a JSON string ([ensure_ascii=True]). *)
Definition escape_char (c : ascii) : string :=
  let n := nat_of_ascii c in
  if n =? 34 then (backslash ++ quote)%string
  else if n =? 92 then (backslash ++ backslash)%string
  else if n =? 10 then (backslash ++ "n")%string
  else if n =? 13 then (backslash ++ "r")%string
  else if n =? 9 then (backslash ++ "t")%string
  else if n =? 8 then (backslash ++ "b")%string
  else if n =? 12 then (backslash ++ "f")%string
  else if (n <? 32) || (126 <? n) then (backslash ++ "u" ++ hex4 n)%string
  else String c "".

Fixpoint escape (s : string) : string :=
  match s with
  | EmptyString => EmptyString
  | String c s' => (escape_char c ++ escape s')%string
  end.

Definition json_string (s : string) : string :=
  (quote ++ escape s ++ quote)%string.

(** A dict whose values are already serialized, keys in insertion
    order. *)
Definition json_object (items : list (string * string)) : string :=
  ("{"
   ++ join ", " (map (fun kv => json_string (fst kv) ++ ": " ++ snd kv) items)
   ++ "}")%string.

(** [s.encode()]: UTF-8, for code points below 256. *)
Definition utf8_char (c : ascii) : list N :=
  let n := N_of_ascii c in
  if (n <? 128)%N then [n]
  else [N.lor 192 (N.shiftr n 6); N.lor 128 (N.land n 63)].

Definition encode (s : string) : list N :=
  flat_map utf8_char (list_ascii_of_string s).

Record audit_record : Type :=
  { timestamp : string;
    decision : string;
    risk_score : float;
    anomaly_score : float;
    reason_code : string;
    feature_hash : string;
    model_versions : list (string * string) }.

(** The directory [logs] beside the package: absent, or present with the
    content of [audit_log.jsonl] when that file exists. *)
Inductive logs_dir : Type :=
| Absent
| Present (audit_log : option string).

(** [logs_dir.mkdir(exist_ok=True)] *)
Definition mkdir_exist_ok (d : logs_dir) : logs_dir :=
  match d with
  | Absent => Present None
  | Present f => Present f
  end.

(** [open(path, "a")] and one [write]: the text goes behind what the file
    holds; the file is created when it does not exist. *)
Definition append_text (d : logs_dir) (s : string) : logs_dir :=
  match d with
  | Absent => Absent
  | Present None => Present (Some s)
  | Present (Some content) => Present (Some (content ++ s)%string)
  end.

(** What a reader of the log finds. *)
Definition log_text (d : logs_dir) : string :=
  match d with
  | Present (Some content) => content
  | _ => EmptyString
  end.

Definition lf : ascii := "010"%char.
Definition LF : string := String lf "".

Section LogDecision.

Context {V : Type}.
(** [str(v)] on a cell of [feature_row.values] *)
Variable py_str : V -> string.
(** [float.__repr__] on a finite float *)
Variable float_repr : float -> string.

Definition json_float (f : float) : string :=
  if is_nan f then "NaN"
  else if PrimFloat.eqb f infinity then "Infinity"
  else if PrimFloat.eqb f neg_infinity then "-Infinity"
  else float_repr f.

Definition json_dumps (r : audit_record) : string :=
  json_object
    [("timestamp", json_string (timestamp r));
     ("decision", json_string (decision r));
     ("risk_score", json_float (risk_score r));
     ("anomaly_score", json_float (anomaly_score r));
     ("reason_code", json_string (reason_code r));
     ("feature_hash", json_string (feature_hash r));
     ("model_versions",
      json_object
        (map (fun kv => (fst kv, json_string (snd kv))) (model_versions r)))].

(** The string that is hashed. *)
Definition feature_str (feature_row : DataFrame V) : string :=
  join "," (map py_str (values_flatten feature_row)).

Definition feature_hash_of (feature_row : DataFrame V) : string :=
  Sha256.hexdigest (encode (feature_str feature_row)).

(** [now] is [datetime.now(timezone.utc).isoformat()] at the call. *)
Definition log_decision (now : string)
    (decision : string) (risk_score anomaly_score : float)
    (reason_code : string) (feature_row : DataFrame V)
    (model_versions : list (string * string))
    (logs : logs_dir) : logs_dir :=
  (* Ensure logs directory exists *)
  let logs := mkdir_exist_ok logs in
  (* Create feature hash (SHA256 of serialized feature values) *)
  let feature_hash := feature_hash_of feature_row in
  (* Create audit record *)
  let audit_record :=
    {| timestamp := now;
       decision := decision;
       risk_score := risk_score;
       anomaly_score := anomaly_score;
       reason_code := reason_code;
       feature_hash := feature_hash;
       model_versions := model_versions |} in
  (* Append to JSONL file (one JSON record per line) *)
  append_text logs (json_dumps audit_record ++ LF)%string.

(** The value of a labelled feature of a single-row frame. *)
Definition feature_of (feature_row : DataFrame V) (label : string)
  : option V :=
  match index_of label (columns feature_row), rows feature_row with
  | Some i, [row] => nth_error row i
  | _, _ => None
  end.

(** The arguments of one call of [log_decision]. *)
Record call : Type :=
  { c_now : string;
    c_decision : string;
    c_risk_score : float;
    c_anomaly_score : float;
    c_reason_code : string;
    c_feature_row : DataFrame V;
    c_model_versions : list (string * string) }.

Definition run_call (logs : logs_dir) (c : call) : logs_dir :=
  log_decision (c_now c) (c_decision c) (c_risk_score c) (c_anomaly_score c)
    (c_reason_code c) (c_feature_row c) (c_model_versions c) logs.

(** The line that a call writes. *)
Definition line_of (c : call) : string :=
  (json_dumps
     {| timestamp := c_now c;
        decision := c_decision c;
        risk_score := c_risk_score c;
        anomaly_score := c_anomaly_score c;
        reason_code := c_reason_code c;
        feature_hash := feature_hash_of (c_feature_row c);
        model_versions := c_model_versions c |} ++ LF)%string.

End LogDecision.

(** [str(v)] on an integer cell *)
Definition str_int (z : Z) : string := NilEmpty.string_of_int (Z.to_int z).

(** Two frames with the same labelled values, columns in different order. *)
Definition frame_amount_first : DataFrame Z :=
  {| columns := ["amount"; "is_qr"]; rows := [[22000%Z; 1%Z]] |}.

Definition frame_is_qr_first : DataFrame Z :=
  {| columns := ["is_qr"; "amount"]; rows := [[1%Z; 22000%Z]] |}.

(** A stand-in for [float.__repr__] that is right on the scores of the
    sample call below. *)
Definition sample_float_repr (f : float) : string :=
  if PrimFloat.eqb f 0.9 then "0.9"
  else if PrimFloat.eqb f (-0.2) then "-0.2"
  else "0.0".

Definition sample_call : call :=
  {| c_now := "2026-01-01T00:00:00+00:00";
     c_decision := "SOFT_BLOCK";
     c_risk_score := 0.9%float;
     c_anomaly_score := (-0.2)%float;
     c_reason_code := "FRAUD_SIGNAL_ANOMALY_SIGNAL";
     c_feature_row := frame_amount_first;
     c_model_versions := [("fraud_model", "v1"); ("anomaly_model", "v1")] |}.

(** The number of occurrences of a character. *)
Fixpoint count_char (c : ascii) (s : string) : nat :=
  match s with
  | EmptyString => 0
  | String x s' => (if Ascii.eqb x c then 1 else 0) + count_char c s'
  end.

End AuditLogger.

(* ================================================================== *)
(** * Text as a sequence of characters *)
(* ================================================================== *)

(** The text-processing modules index, slice and scan their strings, so
    there a Python [str] is held as the list of its characters. *)
Definition text : Type := list ascii.

Definition str (s : string) : text := list_ascii_of_string s.

(** [str.isspace] on one character, which is also [\s] and what
    [str.strip] removes: the ASCII white space, NEXT LINE (133) and
    NO-BREAK SPACE (160). *)
Definition py_isspace (c : ascii) : bool :=
  let n := nat_of_ascii c in
  ((9 <=? n) && (n <=? 13)) || ((28 <=? n) && (n <=? 32))
  || (n =? 133) || (n =? 160).

Definition is_digit (c : ascii) : bool :=
  let n := nat_of_ascii c in (48 <=? n) && (n <=? 57).

Definition is_upper (c : ascii) : bool :=
  let n := nat_of_ascii c in (65 <=? n) && (n <=? 90).

Definition is_lower (c : ascii) : bool :=
  let n := nat_of_ascii c in (97 <=? n) && (n <=? 122).

Definition is_alpha (c : ascii) : bool := is_upper c || is_lower c.

(** [t[start:stop]] for non-negative bounds *)
Definition slice (t : text) (start stop : nat) : text :=
  firstn (stop - start) (skipn start t).

Fixpoint lstrip (t : text) : text :=
  match t with
  | c :: t' => if py_isspace c then lstrip t' else t
  | [] => []
  end.

Definition rstrip (t : text) : text := rev (lstrip (rev t)).

(** [t.strip()] *)
Definition strip (t : text) : text := rstrip (lstrip t).

Fixpoint last_index (c : ascii) (l : text) (i : nat) (found : option nat)
  : option nat :=
  match l with
  | [] => found
  | x :: l' =>
      last_index c l' (S i) (if Ascii.eqb x c then Some i else found)
  end.

(** [t.rfind(c, start, stop)]: the highest index in [start, stop) holding
    [c], or -1. *)
Definition rfind (c : ascii) (t : text) (start stop : nat) : Z :=
  match last_index c (slice t start stop) start None with
  | Some i => Z.of_nat i
  | None => (-1)%Z
  end.

(* ================================================================== *)
(** * rag/build_index.py *)
(* ================================================================== *)

Module BuildIndex.

Definition MAX_CHARS : nat := 500.

(** One turn of the [while] loop of [chunk_text]: where the chunk that
    starts at [start] ends. *)
Definition chunk_end (t : text) (max_chars start : nat) : nat :=
  let length := List.length t in
  let end_ := Nat.min (start + max_chars) length in
  if end_ <? length then
    let last_space := rfind " "%char t start end_ in
    if (last_space >? Z.of_nat start)%Z then Z.to_nat last_space else end_
  else end_.

(** The loop of [chunk_text]; [fuel] bounds the number of turns, and the
    loop that is still running when it is used up has no result. *)
Fixpoint chunk_loop (fuel : nat) (t : text) (max_chars start : nat)
  : option (list text) :=
  if start <? List.length t then
    match fuel with
    | 0 => None
    | S fuel' =>
        let end_ := chunk_end t max_chars start in
        let chunk := strip (slice t start end_) in
        option_map
          (fun chunks =>
             match chunk with [] => chunks | _ => chunk :: chunks end)
          (chunk_loop fuel' t max_chars end_)
    end
  else Some [].

Definition chunk_text (t : text) (max_chars : nat) : option (list text) :=
  chunk_loop (List.length t) t max_chars 0.



End BuildIndex.

(* ================================================================== *)
(** * Python's re: a backtracking matcher *)
(* ================================================================== *)

Module Re.

(** The letters and digits of Latin-1 above ASCII that [\w] takes:
    the ordinal indicators, the superscript digits, the micro sign, the
    fractions and the letters from 192 on, without the multiplication and
    the division sign. *)
Definition latin1_alnum (c : ascii) : bool :=
  let n := nat_of_ascii c in
  (n =? 170) || ((178 <=? n) && (n <=? 179)) || (n =? 181)
  || ((185 <=? n) && (n <=? 186)) || ((188 <=? n) && (n <=? 190))
  || ((192 <=? n) && negb (n =? 215) && negb (n =? 247)).

(** [\w] on one character; [\d] is [is_digit] and [\s] is
    [py_isspace]. *)
Definition is_word (c : ascii) : bool :=
  is_alpha c || is_digit c || Ascii.eqb c "_"%char || latin1_alnum c.

Definition is_char (c : ascii) : ascii -> bool := Ascii.eqb c.

(** The fragment of the pattern language that the repository's patterns
    use.  Repetition is greedy and only ever stands over one character
    class. *)
Inductive re : Type :=
| Class (p : ascii -> bool)
| Repeat (p : ascii -> bool) (lo : nat) (hi : option nat)
| WordBoundary
| Behind (p : ascii -> bool)
| Cat (r1 r2 : re)
| Alt (r1 r2 : re).

Definition word_before (prev : option ascii) : bool :=
  match prev with Some c => is_word c | None => false end.

Definition word_here (s : text) : bool :=
  match s with c :: _ => is_word c | [] => false end.

(** [\b] between the character before the position and the text at it. *)
Definition at_boundary (prev : option ascii) (s : text) : bool :=
  xorb (word_before prev) (word_here s).

(** A continuation receives the character before the position reached and
    the text that is left, and answers with the text left after the whole
    match, or fails so that the matcher backtracks. *)
Definition cont : Type := option ascii -> text -> option text.

Definition may_take_more (hi : option nat) : bool :=
  match hi with Some 0 => false | _ => true end.

(** [p]{lo,hi}, greedy: take the longest run first, give characters back
    one at a time while the continuation fails. *)
Fixpoint repeat_greedy (p : ascii -> bool) (lo : nat) (hi : option nat)
    (prev : option ascii) (s : text) (k : cont) : option text :=
  let stop := match lo with 0 => k prev s | S _ => None end in
  match s with
  | c :: s' =>
      if p c && may_take_more hi then
        match repeat_greedy p (pred lo) (option_map pred hi) (Some c) s' k with
        | Some rest => Some rest
        | None => stop
        end
      else stop
  | [] => stop
  end.

Fixpoint match_re (r : re) (prev : option ascii) (s : text) (k : cont)
  : option text :=
  match r with
  | Class p =>
      match s with
      | c :: s' => if p c then k (Some c) s' else None
      | [] => None
      end
  | Repeat p lo hi => repeat_greedy p lo hi prev s k
  | WordBoundary => if at_boundary prev s then k prev s else None
  | Behind p =>
      match prev with
      | Some c => if p c then k prev s else None
      | None => None
      end
  | Cat r1 r2 => match_re r1 prev s (fun prev' s' => match_re r2 prev' s' k)
  | Alt r1 r2 =>
      match match_re r1 prev s k with
      | Some rest => Some rest
      | None => match_re r2 prev s k
      end
  end.

(** The match that starts exactly here, as the number of characters it
    takes. *)
Definition match_length (r : re) (prev : option ascii) (s : text)
  : option nat :=
  match match_re r prev s (fun _ rest => Some rest) with
  | Some rest => Some (List.length s - List.length rest)
  | None => None
  end.

(** What a left-to-right scan finds: characters outside every match, and
    the matches. *)
Inductive piece : Type :=
| Lit (c : ascii)
| Hit (m : text).

(** The scan behind [re.sub], [re.split] and [re.findall]: try a match at
    each position from the left; after a match, go on behind it.  Every
    pattern of the repository takes at least one character, so a match of
    no character is treated as no match.  [skip] counts the characters of
    the last match that are still to be passed. *)
Fixpoint scan (r : re) (prev : option ascii) (s : text) (skip : nat)
  : list piece :=
  match s with
  | [] => []
  | c :: s' =>
      match skip with
      | S n => scan r (Some c) s' n
      | 0 =>
          match match_length r prev s with
          | Some (S n) => Hit (firstn (S n) s) :: scan r (Some c) s' n
          | _ => Lit c :: scan r (Some c) s' 0
          end
      end
  end.

(** [re.sub(r, repl, s)], with the replacement as a function of the
    matched text. *)
Definition re_sub (r : re) (repl : text -> text) (s : text) : text :=
  flat_map (fun x => match x with Lit c => [c] | Hit m => repl m end)
           (scan r None s 0).

(** [re.findall(r, s)] for a pattern without groups *)
Definition re_findall (r : re) (s : text) : list text :=
  flat_map (fun x => match x with Lit _ => [] | Hit m => [m] end)
           (scan r None s 0).

Fixpoint split_pieces (ps : list piece) (cur : text) : list text :=
  match ps with
  | [] => [rev cur]
  | Lit c :: ps' => split_pieces ps' (c :: cur)
  | Hit _ :: ps' => rev cur :: split_pieces ps' []
  end.

(** [re.split(r, s)] for a pattern without groups *)
Definition re_split (r : re) (s : text) : list text :=
  split_pieces (scan r None s 0) [].

(** [re.search(r, s) is not None] *)
Fixpoint re_search_from (r : re) (prev : option ascii) (s : text) : bool :=
  match match_length r prev s with
  | Some (S _) => true
  | _ =>
      match s with
      | [] => false
      | c :: s' => re_search_from r (Some c) s'
      end
  end.

Definition re_search (r : re) (s : text) : bool := re_search_from r None s.

End Re.

(* ================================================================== *)
(** * rag/explainer.py *)
(* ================================================================== *)

Module Explainer.
Import Re.

Definition MODEL_NAME : string := "all-MiniLM-L6-v2".
Definition TOP_K : nat := 3.

Definition REDACTED : text := str "[REDACTED]".

Definition one_of (cs : string) (c : ascii) : bool :=
  existsb (Ascii.eqb c) (str cs).

(** [[\w.%-]] and [[\w.-]] *)
Definition email_local (c : ascii) : bool := is_word c || one_of ".%-" c.
Definition handle_char (c : ascii) : bool := is_word c || one_of ".-" c.

(** [\b[\w.%-]+@[\w.-]+\.[A-Za-z]{2,6}\b] *)
Definition EMAIL : re :=
  Cat WordBoundary
 (Cat (Repeat email_local 1 None)
 (Cat (Class (is_char "@"))
 (Cat (Repeat handle_char 1 None)
 (Cat (Class (is_char "."))
 (Cat (Repeat is_alpha 2 (Some 6))
      WordBoundary))))).

(** [\d{5,}] *)
Definition DIGITS : re := Repeat is_digit 5 None.

(** [\b[\w.-]+@[\w.-]+\b] *)
Definition HANDLE : re :=
  Cat WordBoundary
 (Cat (Repeat handle_char 1 None)
 (Cat (Class (is_char "@"))
 (Cat (Repeat handle_char 1 None)
      WordBoundary))).

(** [([a-z])([A-Z])] *)
Definition CAMEL : re := Cat (Class is_lower) (Class is_upper).

(** [\s+] *)
Definition SPACES : re := Repeat py_isspace 1 None.

(** [(?<=[.!?])\s+|\n+] *)
Definition SENTENCE_END : re :=
  Alt (Cat (Behind (one_of ".!?")) (Repeat py_isspace 1 None))
      (Repeat (is_char "010") 1 None).

(** [\w+] *)
Definition WORD : re := Repeat is_word 1 None.

(** [str.isupper] on one character: A to Z, and the capital letters of
    Latin-1 (192 to 222 without the multiplication sign). *)
Definition py_isupper (c : ascii) : bool :=
  let n := nat_of_ascii c in
  is_upper c || ((192 <=? n) && (n <=? 222) && negb (n =? 215)).

Definition lower_char (c : ascii) : ascii :=
  if py_isupper c then ascii_of_nat (nat_of_ascii c + 32) else c.

(** [s.lower()] *)
Definition lower (s : text) : text := map lower_char s.

(** [s.replace(a, b)] for single characters *)
Definition replace_char (a b : ascii) (s : text) : text :=
  map (fun c => if Ascii.eqb c a then b else c) s.

Definition _code_to_query (reason_code : text) : text :=
  let s := reason_code in
  let s := replace_char "-" " " (replace_char "_" " " s) in
  (* the template \1 \2: the two characters of the match, a space between *)
  let s := re_sub CAMEL
             (fun m => match m with
                       | [a; b] => [a; " "%char; b]
                       | _ => m
                       end) s in
  let s := strip (re_sub SPACES (fun _ => str " ") s) in
  let s := lower s in
  str "guidance about " ++ s.

Definition _scrub_pii (t : text) : text :=
  (* remove email-like tokens *)
  let t := re_sub EMAIL (fun _ => REDACTED) t in
  (* redact long digit sequences (accounts, phone numbers, UPIs, etc.) *)
  let t := re_sub DIGITS (fun _ => REDACTED) t in
  (* redact tokens that look like handles with @bank (UPI handles) *)
  let t := re_sub HANDLE (fun _ => REDACTED) t in
  t.

Fixpoint starts_with (p s : text) : bool :=
  match p, s with
  | [], _ => true
  | a :: p', b :: s' => Ascii.eqb a b && starts_with p' s'
  | _ :: _, [] => false
  end.

(** [needle in hay] *)
Fixpoint text_in (needle hay : text) : bool :=
  starts_with needle hay ||
  match hay with
  | [] => false
  | _ :: hay' => text_in needle hay'
  end.

Definition text_eqb (a b : text) : bool :=
  if list_eq_dec ascii_dec a b then true else false.

Definition nonempty (t : text) : bool :=
  match t with [] => false | _ :: _ => true end.

(** The first loop of [_extract_relevant_sentences]: the parts that hold
    a query token, up to [max_sentences]. *)
Fixpoint select_matching (parts : list text) (lowered_tokens : list text)
    (max_sentences : nat) (selected : list text) : list text :=
  match parts with
  | [] => selected
  | part :: parts' =>
      if negb (nonempty part) || (max_sentences <=? List.length selected)
      then select_matching parts' lowered_tokens max_sentences selected
      else
        let low := lower part in
        if existsb (fun token => text_in token low) lowered_tokens
        then select_matching parts' lowered_tokens max_sentences
               (selected ++ [strip part])
        else select_matching parts' lowered_tokens max_sentences selected
  end.

(** The second loop: the first parts that are not blank. *)
Fixpoint select_first (parts : list text) (max_sentences : nat)
    (selected : list text) : list text :=
  match parts with
  | [] => selected
  | part :: parts' =>
      let selected :=
        if nonempty (strip part) then selected ++ [strip part]
        else selected in
      if max_sentences <=? List.length selected then selected
      else select_first parts' max_sentences selected
  end.

Definition _extract_relevant_sentences (chunk : text)
    (query_tokens : list text) (max_sentences : nat) : list text :=
  let parts := re_split SENTENCE_END chunk in
  let lowered_tokens := map lower (filter nonempty query_tokens) in
  let selected := select_matching parts lowered_tokens max_sentences [] in
  match selected with
  | [] => select_first parts max_sentences []
  | _ => selected
  end.

(** [" ".join(parts)] *)
Fixpoint join_text (sep : text) (parts : list text) : text :=
  match parts with
  | [] => []
  | [p] => p
  | p :: rest => p ++ sep ++ join_text sep rest
  end.

Definition newline : text := ["010"%char].

Definition NO_GUIDANCE : text :=
  str "No relevant guidance found in the knowledge index.".

Definition BEHAVIOR_PATTERNS : text :=
  str "Behavior patterns referenced: The retrieved guidance focuses on observable transaction and authentication patterns (for example, anomalous transaction amounts, unusual beneficiary additions, or repeated authentication failures) rather than on any individual or account.".

(** The inner loop of [explain_decision] over the sentences of one chunk *)
Definition add_cleaned (summary_sentences : list text) (s : text)
  : list text :=
  let cleaned := _scrub_pii s in
  if nonempty cleaned && negb (existsb (text_eqb cleaned) summary_sentences)
  then summary_sentences ++ [cleaned]
  else summary_sentences.

Section ExplainDecision.

(** The sentence-embedding model, the FAISS index, the query vector and
    the contents of the two files are opaque values of the libraries. *)
Variables Model Index Vec IndexFile ChunksFile : Type.

(** The calls into the libraries raise or return.
    [SentenceTransformer(name)] loads the model by its name. *)
Variable SentenceTransformer : string -> result Model.
(** [faiss.read_index(path)] and [pickle.load(fh)] on what the file
    holds; the pickled object is taken to be a list of strings. *)
Variable read_index : IndexFile -> result Index.
Variable pickle_load : ChunksFile -> result (list text).
(** [model.encode([query], convert_to_numpy=True)] *)
Variable encode : Model -> list text -> result Vec.
(** [qvec.dtype != np.float32], [qvec.astype(np.float32)] and
    [faiss.normalize_L2(qvec)] *)
Variable is_float32 : Vec -> bool.
Variable astype_float32 : Vec -> Vec.
Variable normalize_L2 : Vec -> result Vec.
(** [index.search(qvec, k)]: row 0 of the indices it returns *)
Variable search : Index -> Vec -> nat -> result (list Z).

(** [os.path.dirname(__file__)], fixed at deployment *)
Variable BASE_DIR : string.

Definition VECTOR_INDEX_PATH : string := (BASE_DIR ++ "/vector.index")%string.
Definition CHUNKS_PATH : string := (BASE_DIR ++ "/chunks.pkl")%string.

(** The module's globals [_model], [_index], [_chunks]. *)
Record globals : Type :=
  { _model : option Model;
    _index : option Index;
    _chunks : option (list text) }.

(** What [VECTOR_INDEX_PATH] and [CHUNKS_PATH] hold on disk when a call
    looks: nothing, or a file. *)
Record disk : Type :=
  { vector_index : option IndexFile;
    chunks_pkl : option ChunksFile }.

Definition _load_model (g : globals) : result Model * globals :=
  match _model g with
  | None =>
      match SentenceTransformer MODEL_NAME with
      | inl e => (inl e, g)
      | inr m =>
          (ret m,
           {| _model := Some m; _index := _index g; _chunks := _chunks g |})
      end
  | Some m => (ret m, g)
  end.

Definition _load_index_and_chunks (d : disk) (g : globals)
  : result (Index * list text) * globals :=
  let '(index, g) :=
    match _index g with
    | None =>
        match vector_index d with
        | None =>
            (raise (FileNotFoundError
                      ("Vector index not found at " ++ VECTOR_INDEX_PATH)%string),
             g)
        | Some file =>
            match read_index file with
            | inl e => (inl e, g)
            | inr i =>
                (ret i,
                 {| _model := _model g; _index := Some i;
                    _chunks := _chunks g |})
            end
        end
    | Some i => (ret i, g)
    end in
  match index with
  | inl e => (inl e, g)
  | inr i =>
      match _chunks g with
      | None =>
          match chunks_pkl d with
          | None =>
              (raise (FileNotFoundError
                        ("Chunks file not found at " ++ CHUNKS_PATH)%string),
               g)
          | Some file =>
              match pickle_load file with
              | inl e => (inl e, g)
              | inr c =>
                  (ret (i, c),
                   {| _model := _model g; _index := _index g;
                      _chunks := Some c |})
              end
          end
      | Some c => (ret (i, c), g)
      end
  end.

(** The body of [explain_decision] once model, index and chunks are at
    hand. *)
Definition summary_of (chunks : list text) (idx_list : list Z)
    (query_tokens : list text) : list text :=
  let retrieved_texts :=
    flat_map (fun idx =>
                if (0 <=? idx)%Z && (idx <? Z.of_nat (List.length chunks))%Z
                then match nth_error chunks (Z.to_nat idx) with
                     | Some chunk => [chunk]
                     | None => []
                     end
                else [])
             idx_list in
  fold_left
    (fun summary_sentences chunk =>
       fold_left add_cleaned
         (_extract_relevant_sentences chunk query_tokens 2)
         summary_sentences)
    retrieved_texts [].

Definition body_of (summary_sentences : list text) : text :=
  match summary_sentences with
  | [] => NO_GUIDANCE
  | _ => join_text (str " ") summary_sentences
  end.

Definition explanation_of (reason_code body : text) : text :=
  str "Explanation for reason code '" ++ reason_code ++ str "':" ++ newline
  ++ str "Summary: " ++ body ++ newline
  ++ BEHAVIOR_PATTERNS.

(** The part of [explain_decision] behind the loaders. *)
Definition retrieve_and_explain (model : Model) (index : Index)
    (chunks : list text) (reason_code : text) : result text :=
  let query := _code_to_query reason_code in
  let query_tokens := re_findall WORD query in
  qvec <- encode model [query] ;;
  let qvec := if is_float32 qvec then qvec else astype_float32 qvec in
  qvec <- normalize_L2 qvec ;;
  indices <- search index qvec TOP_K ;;
  let idx_list := filter (fun i => negb (Z.eqb i (-1))) indices in
  let summary_sentences := summary_of chunks idx_list query_tokens in
  let body := body_of summary_sentences in
  ret (explanation_of reason_code body).

Definition explain_decision (d : disk) (g : globals) (reason_code : text)
  : result text * globals :=
  match reason_code with
  | [] => (raise (ValueError "reason_code must be a non-empty string"), g)
  | _ :: _ =>
      match _load_model g with
      | (inl e, g) => (inl e, g)
      | (inr model, g) =>
          match _load_index_and_chunks d g with
          | (inl e, g) => (inl e, g)
          | (inr (index, chunks), g) =>
              (retrieve_and_explain model index chunks reason_code, g)
          end
      end
  end.

End ExplainDecision.

Arguments _model {Model Index} _.
Arguments _index {Model Index} _.
Arguments _chunks {Model Index} _.
Arguments vector_index {IndexFile ChunksFile} _.
Arguments chunks_pkl {IndexFile ChunksFile} _.

(** A knowledge base of one chunk, and stand-ins for the libraries: the
    index file holds nothing to read, the chunk file holds the chunk list
    itself, no call raises, and the search always answers with chunk 0. *)
Definition pii_chunk : text := str "Contact a%@b.com12345 about fraud.".

Definition one_chunk_disk : disk unit (list text) :=
  {| vector_index := Some tt; chunks_pkl := Some [pii_chunk] |}.

Definition no_globals : globals unit unit :=
  {| _model := None; _index := None; _chunks := None |}.

Definition explain_stub (d : disk unit (list text)) (g : globals unit unit)
    (reason_code : text) : result text * globals unit unit :=
  explain_decision unit unit unit unit (list text)
    (fun _ => ret tt) (fun _ => ret tt) (fun c => ret c)
    (fun _ _ => ret tt) (fun _ => true) (fun v => v)
    (fun v => ret v) (fun _ _ _ => ret [0%Z]) "rag"
    d g reason_code.

Definition explain_one_chunk (reason_code : text) : result text :=
  fst (explain_stub one_chunk_disk no_globals reason_code).

(** What [explain_one_chunk] answers for FRAUD_SIGNAL. *)
Definition leaking_explanation : text :=
  explanation_of (str "FRAUD_SIGNAL")
    (str "Contact a%@b.com[REDACTED] about fraud.").

(** The globals after a call that loaded everything from
    [one_chunk_disk]. *)
Definition one_chunk_globals : globals unit unit :=
  {| _model := Some tt; _index := Some tt; _chunks := Some [pii_chunk] |}.

(** The disk with both files gone. *)
Definition empty_disk : disk unit (list text) :=
  {| vector_index := None; chunks_pkl := None |}.

(** A chunk with an email address and an account number, and no [%]. *)
Definition mail_chunk : text :=
  str "Mail john.doe@example.com about account 9876543210.".

Definition mail_disk : disk unit (list text) :=
  {| vector_index := Some tt; chunks_pkl := Some [mail_chunk] |}.

Definition mail_explanation : text :=
  explanation_of (str "FRAUD_SIGNAL")
    (str "Mail [REDACTED] about account [REDACTED].").

Definition mail_globals : globals unit unit :=
  {| _model := Some tt; _index := Some tt; _chunks := Some [mail_chunk] |}.

(** A text that the passes of [_scrub_pii] leave free of matches. *)
Definition plain_pii_text : text :=
  str "mail john.doe@example.com or 9876543210, upi x@okbank".

End Explainer.

(* ================================================================== *)
(** * Properties of texts used in the statements *)
(* ================================================================== *)

Module TextProps.
Import Re Explainer.

(** The number of leading characters of [s] that satisfy [p]. *)
Fixpoint leading (p : ascii -> bool) (s : text) : nat :=
  match s with
  | c :: s' => if p c then S (leading p s') else 0
  | [] => 0
  end.

(** [t] holds five or more digits in a row. *)
Definition has_digit_run (t : text) : Prop :=
  exists pre run post,
    t = pre ++ run ++ post
    /\ 5 <= List.length run
    /\ Forall (fun c => is_digit c = true) run.

(** A checker for the absence of such a run: [cur] digits stand
    immediately before [t]. *)
Fixpoint runs_ok (cur : nat) (t : text) : bool :=
  match t with
  | [] => true
  | c :: t' =>
      if is_digit c then (S cur <? 5) && runs_ok (S cur) t'
      else runs_ok 0 t'
  end.

(** [re.sub(r, "[REDACTED]", t)] *)
Definition redact (r : re) (t : text) : text :=
  re_sub r (fun _ => REDACTED) t.

(** The text that the pieces of a scan become under [redact]. *)
Definition emit (ps : list piece) : text :=
  flat_map (fun x => match x with Lit c => [c] | Hit _ => REDACTED end) ps.

(** Within the run of handle characters that starts [s]: the length up to
    and including its last word character, 0 when it has none. *)
Fixpoint handle_end (s : text) : nat :=
  match s with
  | c :: s' =>
      if handle_char c then
        let n := handle_end s' in
        if (0 <? n) || is_word c then S n else 0
      else 0
  | [] => 0
  end.

(** After one or more handle characters: more of them, then [@], then a
    run of handle characters that holds a word character. *)
Fixpoint handle_tail (s : text) : option nat :=
  match s with
  | c :: s' =>
      if handle_char c then option_map S (handle_tail s')
      else if is_char "@" c then
        match handle_end s' with
        | 0 => None
        | S n => Some (S (S n))
        end
      else None
  | [] => None
  end.

(** The match of [HANDLE] at a position, computed directly. *)
Definition handle_match (prev : option ascii) (s : text) : option nat :=
  if at_boundary prev s then
    match s with
    | c :: s' => if handle_char c then option_map S (handle_tail s') else None
    | [] => None
    end
  else None.

(** What follows the first run of the handle pattern: [@], a run, [\b]. *)
Definition after_local : cont :=
  fun prev' s' =>
    match_re (Cat (Class (is_char "@"))
                  (Cat (Repeat handle_char 1 None) WordBoundary))
             prev' s' (fun _ rest => Some rest).

(** [t] holds no [%]. *)
Definition no_percent (t : text) : Prop :=
  Forall (fun c => c <> "%"%char) t.

(** [c] is what [_scrub_pii] returned for some sentence. *)
Definition scrubbed (c : text) : Prop := exists s, c = _scrub_pii s.

End TextProps.


(* ================================================================== *)
(** * Python dicts of the API layer *)
(* ================================================================== *)

Module PyDict.

(** The values that the API layer stores in its dicts. *)
Inductive pyval : Type :=
| VStr (s : string)
| VInt (z : Z)
| VFloat (f : float)
| VNone.

(** A dict: its items in insertion order, the keys distinct. *)
Definition Dict : Type := list (string * pyval).

(** [d[k]], or KeyError *)
Fixpoint dict_get (d : Dict) (k : string) : result pyval :=
  match d with
  | [] => raise (KeyError k)
  | (k', v) :: d' => if String.eqb k k' then ret v else dict_get d' k
  end.

(** [d[k] = v]: a key that is there keeps its place, a new one goes last. *)
Fixpoint dict_set (d : Dict) (k : string) (v : pyval) : Dict :=
  match d with
  | [] => [(k, v)]
  | (k', v') :: d' =>
      if String.eqb k k' then (k', v) :: d'
      else (k', v') :: dict_set d' k v
  end.

Definition keys (d : Dict) : list string := map fst d.

(** [v == s] for a str [s] *)
Definition eq_str (v : pyval) (s : string) : bool :=
  match v with
  | VStr s' => String.eqb s' s
  | _ => false
  end.

(** [[t for t in ts if t["decision"] == filter_decision]]: the lookup
    raises at the first record without the key. *)
Fixpoint select_decision (ts : list Dict) (filter_decision : string)
  : result (list Dict) :=
  match ts with
  | [] => ret []
  | t :: ts' =>
      v <- dict_get t "decision" ;;
      rest <- select_decision ts' filter_decision ;;
      ret (if eq_str v filter_decision then t :: rest else rest)
  end.

End PyDict.

(* ================================================================== *)
(** * api/transactions_store.py and api/analyst_actions.py *)
(* ================================================================== *)

(** The module-level lists [TRANSACTIONS] and [ANALYST_ACTIONS] are
    passed in and handed back. *)
Module TransactionsStore.
Import PyDict.

Definition add_transaction (txn : Dict) (TRANSACTIONS : list Dict)
  : list Dict :=
  txn :: TRANSACTIONS.

(** [not filter_decision] holds for [None] and for the empty string. *)
Definition list_transactions (filter_decision : option string)
    (TRANSACTIONS : list Dict) : result (list Dict) :=
  match filter_decision with
  | None => ret TRANSACTIONS
  | Some f =>
      if String.eqb f EmptyString || String.eqb f "ALL" then ret TRANSACTIONS
      else select_decision TRANSACTIONS f
  end.

End TransactionsStore.

Module AnalystActions.
Import PyDict.

(** [now] is [datetime.utcnow().isoformat()] at the call. *)
Definition log_action (now : string) (action : Dict)
    (ANALYST_ACTIONS : list Dict) : list Dict :=
  ANALYST_ACTIONS ++ [dict_set action "timestamp" (VStr now)].

End AnalystActions.
(* ================================================================== *)
(** * api/main.py *)
(* ================================================================== *)

Module Api.
Import DecisionEngine PyDict Explainer.

(** What the request schemas let through is the caller's matter: the
    endpoints are modelled on every payload of the right shape. *)
Record TransactionPayload : Type :=
  { amount : float;
    txn_hour : Z;
    is_qr : Z;
    beneficiary_age_min : Z;
    device_changed : Z;
    location_velocity : Z;
    failed_auth_24h : Z }.

Record AnalystActionPayload : Type :=
  { txn_id : string;
    action : string;
    notes : option string }.

(** A cell of the frame built from a payload: a float or an int. *)
Inductive cell : Type :=
| CFloat (f : float)
| CInt (z : Z).

Definition SAFE_ALLOW_RESPONSE : Decision :=
  {| decision := "ALLOW";
     risk_score := 0.0%float;
     anomaly_score := 0.0%float;
     reason_code := "INPUT_VALIDATION_FAILED" |}.

Definition add_transaction (record : Dict) (TRANSACTIONS : list Dict)
  : list Dict :=
  record :: TRANSACTIONS.

Definition list_transactions (filter_decision : string)
    (TRANSACTIONS : list Dict) : result (list Dict) :=
  if String.eqb filter_decision "ALL" then ret TRANSACTIONS
  else select_decision TRANSACTIONS filter_decision.

Definition log_analyst_action (now : string) (action : Dict)
    (ANALYST_ACTIONS : list Dict) : list Dict :=
  ANALYST_ACTIONS ++ [dict_set action "timestamp" (VStr now)].

(** [pd.DataFrame([{...}])] of the /decision endpoint *)
Definition feature_row_of (payload : TransactionPayload) : DataFrame cell :=
  {| columns := ["amount"; "txn_hour"; "is_qr"; "beneficiary_age_min";
                 "device_changed"; "location_velocity"; "failed_auth_24h"];
     rows := [[CFloat (amount payload);
               CInt (txn_hour payload);
               CInt (is_qr payload);
               CInt (beneficiary_age_min payload);
               CInt (device_changed payload);
               CInt (location_velocity payload);
               CInt (failed_auth_24h payload)]] |}.

Section DecisionEndpoint.

(** The pickled models and [int] on a cell, as in [make_decision]. *)
Variable py_int : cell -> result Z.
Variable _fraud_model : fraud_model cell.
Variable decision_function : DataFrame cell -> result float.

(** POST /decision.  [uuid_hex] is [uuid.uuid4().hex] and [now] is
    [datetime.utcnow().isoformat()], both read after the decision is
    made.  The answer and the list [TRANSACTIONS] after the call. *)
Definition get_fraud_decision (uuid_hex now : string)
    (payload : TransactionPayload) (TRANSACTIONS : list Dict)
  : Decision * list Dict :=
  let feature_row := feature_row_of payload in
  match make_decision py_int _fraud_model decision_function
          (PyDataFrame feature_row) with
  | inr decision_ =>
      let txn_record :=
        [("txn_id", VStr ("txn_" ++ substring 0 8 uuid_hex)%string);
         ("amount", VFloat (amount payload));
         ("decision", VStr (decision decision_));
         ("risk_score", VFloat (risk_score decision_));
         ("anomaly_score", VFloat (anomaly_score decision_));
         ("reason_code", VStr (reason_code decision_));
         ("timestamp", VStr now)] in
      (decision_, add_transaction txn_record TRANSACTIONS)
  | inl _ => (SAFE_ALLOW_RESPONSE, TRANSACTIONS)
  end.

End DecisionEndpoint.

(** GET /transactions *)
Definition get_transactions (filter : string) (TRANSACTIONS : list Dict)
  : result (list Dict) :=
  list_transactions filter TRANSACTIONS.

(** [payload.dict()] *)
Definition payload_dict (payload : AnalystActionPayload) : Dict :=
  [("txn_id", VStr (txn_id payload));
   ("action", VStr (action payload));
   ("notes", match notes payload with Some n => VStr n | None => VNone end)].

(** POST /analyst/action: the answer and [ANALYST_ACTIONS] after it. *)
Definition analyst_action (now : string) (payload : AnalystActionPayload)
    (ANALYST_ACTIONS : list Dict) : Dict * list Dict :=
  ([("status", VStr "logged")],
   log_analyst_action now (payload_dict payload) ANALYST_ACTIONS).

Definition UNAVAILABLE : text := str "Explanation temporarily unavailable.".

(** The answer of POST /explain: the reason code and the explanation. *)
Record ExplainResponse : Type :=
  { response_reason_code : text;
    explanation : text }.

Section ExplainEndpoint.

Variables Model Index Vec IndexFile ChunksFile : Type.
Variable SentenceTransformer : string -> result Model.
Variable read_index : IndexFile -> result Index.
Variable pickle_load : ChunksFile -> result (list text).
Variable encode : Model -> list text -> result Vec.
Variable is_float32 : Vec -> bool.
Variable astype_float32 : Vec -> Vec.
Variable normalize_L2 : Vec -> result Vec.
Variable search : Index -> Vec -> nat -> result (list Z).
Variable BASE_DIR : string.

(** POST /explain, with the explainer's globals after the call. *)
Definition explain (d : disk IndexFile ChunksFile) (g : globals Model Index)
    (payload_reason_code : text)
  : ExplainResponse * globals Model Index :=
  match explain_decision Model Index Vec IndexFile ChunksFile
          SentenceTransformer read_index pickle_load encode
          is_float32 astype_float32 normalize_L2 search BASE_DIR
          d g payload_reason_code with
  | (inr explanation_, g') =>
      ({| response_reason_code := payload_reason_code;
          explanation := explanation_ |}, g')
  | (inl _, g') =>
      ({| response_reason_code := payload_reason_code;
          explanation := UNAVAILABLE |}, g')
  end.

End ExplainEndpoint.

End Api.

(* ================================================================== *)
(** * rag/build_index.py: the build script *)
(* ================================================================== *)

Module BuildIndexMain.
Import BuildIndex Explainer.

Definition RuntimeError (msg : string) : exn := Exn "RuntimeError" msg.

Definition ends_with_slash (a : string) : bool :=
  match rev (list_ascii_of_string a) with
  | c :: _ => Ascii.eqb c "/"%char
  | [] => false
  end.

(** [os.path.join(a, b)] on POSIX *)
Definition path_join (a b : string) : string :=
  if prefix "/" b then b
  else if String.eqb a EmptyString || ends_with_slash a then (a ++ b)%string
  else (a ++ "/" ++ b)%string.

(** The knowledge directory as [load_markdown_files] sees it: [None] when
    the path is no directory, otherwise what opening and reading each of
    its [*.md] files gives, in the sorted order of their paths: the text,
    or the exception of the read. *)
Fixpoint read_all (files : list (result text)) : result (list text) :=
  match files with
  | [] => ret []
  | file :: files' =>
      document <- file ;;
      documents <- read_all files' ;;
      ret (document :: documents)
  end.

Definition load_markdown_files (directory : option (list (result text)))
  : result (list text) :=
  match directory with
  | None => ret []
  | Some files => read_all files
  end.

(** The loop [for doc in documents: all_chunks.extend(chunk_text(doc))];
    it has a result when every call of [chunk_text] has one. *)
Fixpoint extend_all (documents : list text) (all_chunks : list text)
  : option (list text) :=
  match documents with
  | [] => Some all_chunks
  | doc :: documents' =>
      match chunk_text doc MAX_CHARS with
      | None => None
      | Some chunks => extend_all documents' (all_chunks ++ chunks)
      end
  end.

Section Main.

Variables Index IndexFile ChunksFile : Type.
(** [build_faiss_index]: the embedding model and FAISS are opaque; the
    call raises or returns the index. *)
Variable build_faiss_index : list text -> result Index.
(** [faiss.write_index(index, path)], and [open(path, "wb")] with
    [pickle.dump]: whether the write raises, and what the path holds
    afterwards, given what it held before. *)
Variable write_index
  : Index -> option IndexFile -> result unit * option IndexFile.
Variable pickle_dump
  : list text -> option ChunksFile -> result unit * option ChunksFile.
(** [os.path.dirname(__file__)]: the directory [rag], which also holds
    the explainer, so that the two modules use the same two paths. *)
Variable BASE_DIR : string.

Definition KNOWLEDGE_DIR : string := path_join BASE_DIR "knowledge".

(** What [main] does with chunks that are not empty. *)
Definition build_and_write (all_chunks : list text)
    (d : disk IndexFile ChunksFile)
  : result unit * disk IndexFile ChunksFile :=
  match build_faiss_index all_chunks with
  | inl e => (inl e, d)
  | inr index =>
      (* Save index and chunks *)
      let '(written, file) := write_index index (vector_index d) in
      let d := {| vector_index := file; chunks_pkl := chunks_pkl d |} in
      match written with
      | inl e => (inl e, d)
      | inr _ =>
          let '(dumped, file) := pickle_dump all_chunks (chunks_pkl d) in
          (dumped, {| vector_index := vector_index d; chunks_pkl := file |})
      end
  end.

(** [main()]: what it raises or returns, and the two files afterwards.
    The directory [BASE_DIR] holds the script, so [os.makedirs] finds it;
    the three lines printed at the end are left out. *)
Definition main (knowledge : option (list (result text)))
    (d : disk IndexFile ChunksFile)
  : option (result unit * disk IndexFile ChunksFile) :=
  match load_markdown_files knowledge with
  | inl e => Some (inl e, d)
  | inr documents =>
      match extend_all documents [] with
      | None => None
      | Some all_chunks =>
          Some
            match all_chunks with
            | [] =>
                (raise (RuntimeError
                          ("No markdown files found in " ++ KNOWLEDGE_DIR
                           ++ ". Add .md files before building the index.")%string),
                 d)
            | _ :: _ => build_and_write all_chunks d
            end
      end
  end.

End Main.

End BuildIndexMain.

(* ================================================================== *)
(** * Notions used in the statements about the API and the index *)
(* ================================================================== *)

Module Props.
Import DecisionEngine PyDict Explainer.

(** How severe a decision is: ALLOW below SOFT_BLOCK below HARD_BLOCK. *)
Definition severity (d : string) : nat :=
  if String.eqb d "HARD_BLOCK" then 2
  else if String.eqb d "SOFT_BLOCK" then 1
  else 0.

(** The cell of the single row under column [c], converted by [int]. *)
Definition int_cell {V : Type} (py_int : V -> result Z) (df : DataFrame V)
    (c : string) (z : Z) : Prop :=
  exists i row v,
    index_of c (columns df) = Some i
    /\ rows df = [row]
    /\ nth_error row i = Some v
    /\ py_int v = ret z.

(** The record [t] has the value [VStr f] under "decision". *)
Definition decided (f : string) (t : Dict) : bool :=
  match dict_get t "decision" with
  | inr v => eq_str v f
  | inl _ => false
  end.

Definition has_key (k : string) (t : Dict) : bool :=
  existsb (String.eqb k) (keys t).

(** The store after a run of /decision requests, each with its
    identifier, its time and its payload. *)
Definition after_requests
    (py_int : Api.cell -> result Z) (fm : fraud_model Api.cell)
    (decision_function : DataFrame Api.cell -> result float)
    (requests : list (string * string * Api.TransactionPayload))
    (TRANSACTIONS : list Dict) : list Dict :=
  fold_left
    (fun st '(uuid_hex, now, payload) =>
       snd (Api.get_fraud_decision py_int fm decision_function
              uuid_hex now payload st))
    requests TRANSACTIONS.

(** What a loader works with: the cached value, or else what reading the
    file gives; without file it raises [missing]. *)
Definition obtain {A F : Type} (cached : option A) (file : option F)
    (read : F -> result A) (missing : exn) : result A :=
  match cached with
  | Some a => ret a
  | None =>
      match file with
      | Some f => read f
      | None => raise missing
      end
  end.

(** [t] holds no [@]. *)
Definition no_at (t : text) : Prop := Forall (fun c => c <> "@"%char) t.

(** The last character of [t] is a digit. *)
Fixpoint ends_with_digit (t : text) : bool :=
  match t with
  | [] => false
  | [c] => is_digit c
  | _ :: t' => ends_with_digit t'
  end.

(** The first character of [t] is a digit. *)
Definition starts_with_digit (t : text) : bool :=
  match t with
  | c :: _ => is_digit c
  | [] => false
  end.

(** [t] holds nothing but white space. *)
Definition blank (t : text) : Prop := Forall (fun c => py_isspace c = true) t.

(** The characters of [t] that are no white space, in order. *)
Definition ink (t : text) : text := filter (fun c => negb (py_isspace c)) t.

(** [t] neither starts nor ends with white space. *)
Definition trimmed (t : text) : Prop :=
  match t with
  | [] => True
  | c :: _ => py_isspace c = false /\ py_isspace (last t c) = false
  end.

Definition is_lf : ascii -> bool := Re.is_char "010"%char.

Definition space_here (t : text) : bool :=
  match t with
  | c :: _ => py_isspace c
  | [] => false
  end.

(** The white space of [t] is single space characters: every white-space
    character is a space, and none follows another. *)
Fixpoint single_spaced (t : text) : bool :=
  match t with
  | [] => true
  | c :: t' =>
      (if py_isspace c
       then Ascii.eqb c " "%char && negb (space_here t')
       else true)
      && single_spaced t'
  end.

(** A sentence that holds one of the query tokens, as the first loop of
    [_extract_relevant_sentences] tests it. *)
Definition holds_token (query_tokens : list text) (part : text) : bool :=
  existsb (fun token => text_in token (lower part))
          (map lower (filter nonempty query_tokens)).

(** [t] holds no line feed (code 10); it may hold other characters that
    break a line, such as a carriage return. *)
Definition no_line_feed (t : text) : Prop :=
  Forall (fun c => is_lf c = false) t.

End Props.

(* ================================================================== *)
(** * The rule layer: which inputs reach which decision *)
(* ================================================================== *)

Module DecisionEngineProofs.
Import DecisionEngine.

Lemma hard_block_combo_bool fp an q b :
  hard_block_combo fp an q b <->
  float_ge fp 0.7 && float_le an (-0.15) && Z.eqb q 1 && Z.eqb b 1 = true.
Proof.
  unfold hard_block_combo.
  rewrite !andb_true_iff, !Z.eqb_eq. tauto.
Qed.

(** Unfold the rule function into its three guarded branches. *)
Ltac rules_cases fp an q b :=
  unfold _apply_decision_rules, HIGH_FRAUD_THRESHOLD, SOFT_FRAUD_THRESHOLD,
    HIGH_ANOMALY_THRESHOLD, SOFT_ANOMALY_THRESHOLD;
  destruct (float_ge fp 0.7 && float_le an (-0.15) && Z.eqb q 1 && Z.eqb b 1)
    eqn:Hhard;
  [ | destruct (float_ge fp 0.5) eqn:Hsf;
      destruct (float_le an (-0.10)) eqn:Hsa ];
  cbn [orb fst snd app join].

(** C1: the decision is HARD_BLOCK exactly on the four-way conjunction
    (fraud_probability >= 0.7, anomaly_score <= -0.15, is_qr = 1,
    beneficiary_is_new = 1), and the reason code is then
    QR_NEW_BENEFICIARY_HIGH_FRAUD_HIGH_ANOMALY. *)
Theorem hard_block_iff_four_way_combo :
  forall (fp an : float) (q b : Z),
    (fst (_apply_decision_rules fp an q b) = "HARD_BLOCK"
       <-> hard_block_combo fp an q b)
    /\ (fst (_apply_decision_rules fp an q b) = "HARD_BLOCK"
       <-> _apply_decision_rules fp an q b
           = ("HARD_BLOCK", "QR_NEW_BENEFICIARY_HIGH_FRAUD_HIGH_ANOMALY")).
Proof.
  intros fp an q b.
  rewrite hard_block_combo_bool.
  rules_cases fp an q b; (split; split; intros H; try reflexivity;
    try discriminate; try (inversion H; fail)).
Qed.

Example high_scores_without_qr_is_soft :
  _apply_decision_rules 0.9 (-0.2) 0 1
  = ("SOFT_BLOCK", "FRAUD_SIGNAL_ANOMALY_SIGNAL").
Proof. reflexivity. Qed.

Example high_scores_qr_new_is_hard :
  _apply_decision_rules 0.9 (-0.2) 1 1
  = ("HARD_BLOCK", "QR_NEW_BENEFICIARY_HIGH_FRAUD_HIGH_ANOMALY").
Proof. reflexivity. Qed.

Example fraud_only_is_soft :
  _apply_decision_rules 0.6 0 1 1 = ("SOFT_BLOCK", "FRAUD_SIGNAL").
Proof. reflexivity. Qed.

Example quiet_is_allow :
  _apply_decision_rules 0.1 0.5 0 0 = ("ALLOW", "NO_SIGNIFICANT_RISK").
Proof. reflexivity. Qed.

Example nan_scores_are_allowed :
  _apply_decision_rules nan nan 1 1 = ("ALLOW", "NO_SIGNIFICANT_RISK").
Proof. reflexivity. Qed.

(** C2: when the four-way conjunction fails, the decision is SOFT_BLOCK
    exactly when fraud_probability >= 0.5 or anomaly_score <= -0.10; the
    reason code then holds FRAUD_SIGNAL exactly when the fraud condition
    fires and ANOMALY_SIGNAL exactly when the anomaly condition fires, in
    that order and joined by one underscore. *)
Theorem soft_block_iff_soft_signal :
  forall (fp an : float) (q b : Z),
    ~ hard_block_combo fp an q b ->
    let r := _apply_decision_rules fp an q b in
    (fst r = "SOFT_BLOCK"
       <-> float_ge fp 0.5 = true \/ float_le an (-0.10) = true)
    /\ (fst r = "SOFT_BLOCK" ->
          (contains "FRAUD_SIGNAL" (snd r) = float_ge fp 0.5)
          /\ (contains "ANOMALY_SIGNAL" (snd r) = float_le an (-0.10))
          /\ (float_ge fp 0.5 = true -> float_le an (-0.10) = true ->
              snd r = ("FRAUD_SIGNAL" ++ "_" ++ "ANOMALY_SIGNAL")%string)
          /\ (float_ge fp 0.5 = true -> float_le an (-0.10) = false ->
              snd r = "FRAUD_SIGNAL")
          /\ (float_ge fp 0.5 = false -> float_le an (-0.10) = true ->
              snd r = "ANOMALY_SIGNAL")
          /\ (float_ge fp 0.5 = true \/ float_le an (-0.10) = true)).
Proof.
  intros fp an q b Hnot r. subst r.
  rewrite hard_block_combo_bool in Hnot.
  rules_cases fp an q b; try (exfalso; apply Hnot; reflexivity).
  all: split;
    [ split; intros H; try reflexivity; try discriminate; auto;
      try (destruct H; discriminate)
    | intros H; try discriminate;
      repeat split; try reflexivity; try discriminate; auto ].
Qed.

Lemma soft_block_iff_soft_signal_witness :
  ~ hard_block_combo 0.9 (-0.2) 0 1
  /\ _apply_decision_rules 0.9 (-0.2) 0 1
     = ("SOFT_BLOCK", "FRAUD_SIGNAL_ANOMALY_SIGNAL")
  /\ (float_ge 0.9 0.5 = true \/ float_le (-0.2) (-0.10) = true).
Proof.
  assert (Hnot : ~ hard_block_combo 0.9 (-0.2) 0 1).
  { intros (_ & _ & Hq & _). discriminate Hq. }
  split; [exact Hnot | split; [reflexivity | ]].
  pose proof (soft_block_iff_soft_signal 0.9 (-0.2) 0 1 Hnot) as [Hiff _].
  apply Hiff. reflexivity.
Defined.

(** C3: the rule layer is total: every input gets one of the three
    categories with a non-empty reason code, and the result is ALLOW with
    NO_SIGNIFICANT_RISK exactly when neither the four-way conjunction nor
    a soft condition holds. *)
Theorem rules_total_and_allow_iff_no_signal :
  forall (fp an : float) (q b : Z),
    (In (fst (_apply_decision_rules fp an q b))
        ["ALLOW"; "SOFT_BLOCK"; "HARD_BLOCK"])
    /\ snd (_apply_decision_rules fp an q b) <> ""
    /\ (fst (_apply_decision_rules fp an q b) = "ALLOW"
        <-> _apply_decision_rules fp an q b = ("ALLOW", "NO_SIGNIFICANT_RISK"))
    /\ (fst (_apply_decision_rules fp an q b) = "ALLOW"
        <-> ~ hard_block_combo fp an q b
            /\ float_ge fp 0.5 = false /\ float_le an (-0.10) = false).
Proof.
  intros fp an q b.
  rewrite hard_block_combo_bool.
  rules_cases fp an q b.
  all: split; [ simpl; tauto | ].
  all: split; [ discriminate | ].
  all: split; split; intros H; try reflexivity; try discriminate;
    try (inversion H; fail).
  all: try (destruct H as (H1 & H2 & H3); try discriminate;
            exfalso; apply H1; reflexivity).
  all: repeat split; auto; discriminate.
Qed.

End DecisionEngineProofs.

(* ================================================================== *)
(** * chunk_text: chunk length and chunk boundaries *)
(* ================================================================== *)

Module BuildIndexProofs.
Import BuildIndex.

Lemma nth_error_slice (t : text) (s e k : nat) :
  k < e - s -> nth_error (slice t s e) k = nth_error t (s + k).
Proof.
  intros Hk. unfold slice.
  rewrite nth_error_firstn.
  destruct (Nat.ltb_spec k (e - s)); [ | lia ].
  apply nth_error_skipn.
Qed.

Lemma length_slice (t : text) (s e : nat) :
  e <= List.length t -> List.length (slice t s e) = e - s.
Proof.
  intros He. unfold slice. rewrite length_firstn, length_skipn. lia.
Qed.

Lemma length_lstrip (t : text) : List.length (lstrip t) <= List.length t.
Proof.
  induction t as [ | c t IH ]; simpl; [ lia | ].
  destruct (py_isspace c); simpl; lia.
Qed.

Lemma length_strip (t : text) : List.length (strip t) <= List.length t.
Proof.
  unfold strip, rstrip. rewrite length_rev.
  etransitivity; [ apply length_lstrip | ].
  rewrite length_rev. apply length_lstrip.
Qed.

(** What [last_index] finds: the last position of [c], counted from [i]. *)
Lemma last_index_spec (c : ascii) (l : text) :
  forall (i : nat) (found : option nat),
    (forall j, found = Some j -> j < i) ->
    match last_index c l i found with
    | Some j =>
        (found = Some j /\ forall k, nth_error l k <> Some c)
        \/ (i <= j < i + List.length l
            /\ nth_error l (j - i) = Some c
            /\ forall k, j - i < k -> nth_error l k <> Some c)
    | None => found = None /\ forall k, nth_error l k <> Some c
    end.
Proof.
  induction l as [ | x l IH ]; intros i found Hfound; simpl.
  - destruct found as [ j | ].
    + left. split; [ reflexivity | ]. intros k. now rewrite nth_error_nil.
    + split; [ reflexivity | ]. intros k. now rewrite nth_error_nil.
  - destruct (Ascii.eqb_spec x c) as [ -> | Hne ].
    + specialize (IH (S i) (Some i)).
      destruct (last_index c l (S i) (Some i)) as [ j | ].
      * destruct IH as [ [Hj Hno] | (Hr & Hn & Hafter) ].
        { intros j0 [= <-]. lia. }
        { injection Hj as <-. right. split; [ lia | ].
          rewrite Nat.sub_diag. split; [ reflexivity | ].
          intros [ | k ] Hk; [ lia | ]. simpl. apply Hno. }
        { right. split; [ simpl; lia | ].
          replace (j - i) with (S (j - S i)) by lia. simpl.
          split; [ exact Hn | ].
          intros [ | k ] Hk; [ lia | ]. simpl. apply Hafter. lia. }
      * destruct IH as [Hcontra _]; [ | discriminate ].
        intros j0 [= <-]. lia.
    + specialize (IH (S i) found).
      assert (Hf' : forall j, found = Some j -> j < S i).
      { intros j Hj. specialize (Hfound j Hj). lia. }
      specialize (IH Hf').
      destruct (last_index c l (S i) found) as [ j | ].
      * destruct IH as [ [Hj Hno] | (Hr & Hn & Hafter) ].
        { left. split; [ exact Hj | ].
          intros [ | k ]; simpl; [ congruence | apply Hno ]. }
        { right. split; [ simpl; lia | ].
          replace (j - i) with (S (j - S i)) by lia. simpl.
          split; [ exact Hn | ].
          intros [ | k ] Hk; [ lia | ]. simpl. apply Hafter. lia. }
      * destruct IH as [Hf Hno]. split; [ exact Hf | ].
        intros [ | k ]; simpl; [ congruence | apply Hno ].
Qed.

(** [rfind] returns -1 when the window holds no [c], and otherwise the
    index of the last [c] in the window. *)
Lemma rfind_spec (c : ascii) (t : text) (s e : nat) :
  e <= List.length t ->
  (rfind c t s e = (-1)%Z
   /\ forall k, s <= k < e -> nth_error t k <> Some c)
  \/ (exists j, rfind c t s e = Z.of_nat j /\ s <= j < e
       /\ nth_error t j = Some c
       /\ forall k, j < k < e -> nth_error t k <> Some c).
Proof.
  intros He. unfold rfind.
  pose proof (last_index_spec c (slice t s e) s None) as H.
  destruct (last_index c (slice t s e) s None) as [ j | ].
  - right. destruct H as [ [Hj _] | (Hr & Hn & Hafter) ];
      [ discriminate | discriminate | ].
    rewrite (length_slice _ _ _ He) in Hr.
    exists j. split; [ reflexivity | ]. split; [ lia | ].
    rewrite nth_error_slice in Hn by lia.
    replace (s + (j - s)) with j in Hn by lia. split; [ exact Hn | ].
    intros k Hk. specialize (Hafter (k - s)).
    rewrite nth_error_slice in Hafter by lia.
    replace (s + (k - s)) with k in Hafter by lia. apply Hafter. lia.
  - left. destruct H as [_ Hno]; [ discriminate | ].
    split; [ reflexivity | ].
    intros k Hk. specialize (Hno (k - s)).
    rewrite nth_error_slice in Hno by lia.
    replace (s + (k - s)) with k in Hno by lia. exact Hno.
Qed.

(** Where a chunk ends: at the last space of its window when the window
    stops short of the end of the text and holds a space after its first
    character, and at the end of the window otherwise. *)
Lemma chunk_end_spec (t : text) (max_chars s : nat) :
  s < List.length t -> 0 < max_chars ->
  let lim := Nat.min (s + max_chars) (List.length t) in
  let e := chunk_end t max_chars s in
  s < e <= lim
  /\ (e < List.length t ->
      (nth_error t e = Some " "%char
       /\ forall k, e < k < lim -> nth_error t k <> Some " "%char)
      \/ (e = s + max_chars
          /\ forall k, s < k < lim -> nth_error t k <> Some " "%char)).
Proof.
  intros Hs Hmax lim e. subst e. unfold chunk_end. fold lim.
  destruct (Nat.ltb_spec lim (List.length t)) as [Hlt | Hge].
  - destruct (rfind_spec " "%char t s lim) as [ [Hr Hno] | (j & Hr & Hj & Hn & Hafter) ];
      [ lia | | ]; rewrite Hr.
    + destruct (Z.gtb_spec (-1) (Z.of_nat s)) as [Hgt | _]; [ lia | ].
      split; [ lia | ]. intros _. right. split; [ lia | ].
      intros k Hk. apply Hno. lia.
    + destruct (Z.gtb_spec (Z.of_nat j) (Z.of_nat s)) as [Hgt | Hle].
      * rewrite Nat2Z.id. split; [ lia | ].
        intros _. left. split; [ exact Hn | exact Hafter ].
      * assert (j = s) by lia. subst j.
        split; [ lia | ]. intros _. right. split; [ lia | exact Hafter ].
  - split; [ lia | ]. intros Hcontra. lia.
Qed.

(** The loop ends within [length t - start] turns when [max_chars > 0]. *)
Lemma chunk_loop_terminates (t : text) (max_chars : nat) :
  0 < max_chars ->
  forall fuel start,
    List.length t - start <= fuel ->
    exists chunks, chunk_loop fuel t max_chars start = Some chunks
      /\ Forall (fun c => List.length c <= max_chars) chunks.
Proof.
  intros Hmax. induction fuel as [ | fuel IH ]; intros start Hfuel; simpl.
  - destruct (Nat.ltb_spec start (List.length t)); [ lia | ].
    exists []. split; [ reflexivity | constructor ].
  - destruct (Nat.ltb_spec start (List.length t)) as [Hlt | Hge].
    + destruct (chunk_end_spec t max_chars start Hlt Hmax) as [Hrange _].
      cbv zeta in Hrange.
      destruct (IH (chunk_end t max_chars start)) as (chunks & Heq & Hall);
        [ lia | ].
      rewrite Heq. simpl.
      destruct (strip (slice t start (chunk_end t max_chars start)))
        as [ | c chunk ] eqn:Hchunk.
      * exists chunks. split; [ reflexivity | exact Hall ].
      * exists ((c :: chunk) :: chunks). split; [ reflexivity | ].
        constructor; [ | exact Hall ].
        rewrite <- Hchunk.
        etransitivity; [ apply length_strip | ].
        rewrite length_slice by lia. lia.
    + exists []. split; [ reflexivity | constructor ].
Qed.





End BuildIndexProofs.

(* ================================================================== *)
(** * The matcher on the patterns of the explainer *)
(* ================================================================== *)

Module ReProofs.
Import Re Explainer TextProps.

Lemma length_skipn_le {A : Type} (n : nat) (l : list A) :
  n <= List.length l -> List.length l - List.length (skipn n l) = n.
Proof. intros H. rewrite length_skipn. lia. Qed.

Lemma leading_le (p : ascii -> bool) (s : text) :
  leading p s <= List.length s.
Proof.
  induction s as [ | c s IH ]; simpl; [ lia | ].
  destruct (p c); simpl; lia.
Qed.

(** A greedy repetition whose continuation accepts everything takes the
    whole run. *)
Lemma repeat_greedy_accept_all (p : ascii -> bool) (s : text) :
  forall lo prev,
    repeat_greedy p lo None prev s (fun _ rest => Some rest)
    = if lo <=? leading p s then Some (skipn (leading p s) s) else None.
Proof.
  induction s as [ | c s IH ]; intros lo prev; simpl.
  - destruct lo; reflexivity.
  - destruct (p c); simpl.
    + rewrite IH.
      destruct lo as [ | lo ]; simpl; [ reflexivity | ].
      destruct (Nat.leb_spec lo (leading p s)); reflexivity.
    + destruct lo; reflexivity.
Qed.

Lemma match_length_DIGITS (prev : option ascii) (s : text) :
  match_length DIGITS prev s
  = if 5 <=? leading is_digit s then Some (leading is_digit s) else None.
Proof.
  unfold match_length, DIGITS. cbn [match_re].
  rewrite repeat_greedy_accept_all.
  destruct (5 <=? leading is_digit s); [ | reflexivity ].
  now rewrite length_skipn_le by apply leading_le.
Qed.

(** ** Digit runs *)

Lemma runs_ok_mono (t : text) :
  forall cur cur', cur' <= cur -> runs_ok cur t = true -> runs_ok cur' t = true.
Proof.
  induction t as [ | c t IH ]; intros cur cur' Hle; simpl; [ reflexivity | ].
  destruct (is_digit c); [ | auto ].
  rewrite !andb_true_iff, !Nat.ltb_lt. intros [Hlt H].
  split; [ lia | ]. apply (IH (S cur)); [ lia | exact H ].
Qed.

Lemma runs_ok_tail (c : ascii) (t : text) (cur : nat) :
  runs_ok cur (c :: t) = true -> runs_ok 0 t = true.
Proof.
  simpl. destruct (is_digit c); [ | auto ].
  rewrite andb_true_iff. intros [_ H].
  apply (runs_ok_mono t (S cur)); [ lia | exact H ].
Qed.

Lemma runs_ok_skipn (n : nat) :
  forall (t : text) (cur : nat),
    runs_ok cur t = true -> runs_ok 0 (skipn n t) = true.
Proof.
  induction n as [ | n IH ]; intros t cur H; simpl.
  - apply (runs_ok_mono t cur); [ lia | exact H ].
  - destruct t as [ | c t ]; [ reflexivity | ].
    apply (IH t 0). apply (runs_ok_tail c t cur H).
Qed.

(** The marker starts and ends with a character that is no digit. *)
Lemma runs_ok_REDACTED (cur : nat) (x : text) :
  runs_ok cur (REDACTED ++ x) = runs_ok 0 x.
Proof. reflexivity. Qed.

(** Replacing the matches of any pattern by the marker creates no digit
    run. *)
Lemma emit_keeps_runs_ok (r : re) (s : text) :
  forall prev skip cur,
    (skip = 0 \/ cur = 0) ->
    runs_ok cur (skipn skip s) = true ->
    runs_ok cur (emit (scan r prev s skip)) = true.
Proof.
  induction s as [ | c s IH ]; intros prev skip cur Hsc H.
  - reflexivity.
  - destruct skip as [ | n ].
    + cbn [scan]. cbn [skipn] in H.
      assert (Hlit : runs_ok cur (emit (Lit c :: scan r (Some c) s 0)) = true).
      { cbn [emit flat_map app]. fold (emit (scan r (Some c) s 0)).
        simpl in H |- *. destruct (is_digit c).
        - apply andb_true_iff in H as [Hlt H]. rewrite Hlt. simpl.
          apply IH; [ now left | exact H ].
        - apply IH; [ now left | exact H ]. }
      destruct (match_length r prev (c :: s)) as [ [ | n ] | ];
        [ exact Hlit | | exact Hlit ].
      cbn [emit flat_map]. fold (emit (scan r (Some c) s n)).
      rewrite runs_ok_REDACTED.
      apply IH; [ now right | ].
      apply (runs_ok_skipn (S n) (c :: s) cur H).
    + destruct Hsc as [Hsc | ->]; [ discriminate | ].
      cbn [scan]. apply IH; [ now right | exact H ].
Qed.

Lemma redact_keeps_runs_ok (r : re) (t : text) :
  runs_ok 0 t = true -> runs_ok 0 (redact r t) = true.
Proof.
  intros H. apply (emit_keeps_runs_ok r t None 0 0); [ now left | exact H ].
Qed.

(** Replacing the runs of five or more digits leaves none. *)
Lemma emit_DIGITS_runs_ok (s : text) :
  forall prev skip cur,
    match skip with
    | 0 => cur = 0 \/ cur + leading is_digit s < 5
    | S _ => cur = 0 /\ skip = leading is_digit s
    end ->
    runs_ok cur (emit (scan DIGITS prev s skip)) = true.
Proof.
  induction s as [ | c s IH ]; intros prev skip cur Hinv.
  - reflexivity.
  - destruct skip as [ | n ].
    + cbn [scan]. rewrite match_length_DIGITS.
      cbn [leading] in Hinv |- *.
      destruct (is_digit c) eqn:Hc.
      * destruct (Nat.leb_spec 5 (S (leading is_digit s))) as [Hge | Hlt].
        { cbn [emit flat_map]. fold (emit (scan DIGITS (Some c) s (leading is_digit s))).
          rewrite runs_ok_REDACTED. apply IH.
          destruct (leading is_digit s) eqn:Hl; [ lia | split; reflexivity ]. }
        { cbn [emit flat_map app]. fold (emit (scan DIGITS (Some c) s 0)).
          simpl. rewrite Hc.
          assert (Hcur : S cur < 5) by lia.
          apply Nat.ltb_lt in Hcur. rewrite Hcur. simpl.
          apply IH. right. lia. }
      * cbn [Nat.leb].
        cbn [emit flat_map app]. fold (emit (scan DIGITS (Some c) s 0)).
        simpl. rewrite Hc. apply IH. now left.
    + destruct Hinv as [-> Hskip]. cbn [scan]. cbn [leading] in Hskip.
      destruct (is_digit c); [ | discriminate ].
      injection Hskip as Hn. apply IH.
      destruct n; [ now left | split; [ reflexivity | exact Hn ] ].
Qed.

Lemma redact_DIGITS_runs_ok (t : text) : runs_ok 0 (redact DIGITS t) = true.
Proof. apply (emit_DIGITS_runs_ok t None 0 0). now left. Qed.

(** The checker is sound for the absence of a run of five digits. *)
Lemma runs_ok_no_digit_run (t : text) :
  runs_ok 0 t = true -> ~ has_digit_run t.
Proof.
  intros H (pre & run & post & -> & Hlen & Hdig).
  apply (runs_ok_skipn (List.length pre)) in H.
  rewrite skipn_app, skipn_all, Nat.sub_diag in H. simpl in H.
  destruct run as [ | d1 [ | d2 [ | d3 [ | d4 [ | d5 run ] ] ] ] ];
    simpl in Hlen; try lia.
  repeat match goal with
         | Hd : Forall _ (_ :: _) |- _ => inversion Hd; subst; clear Hd
         end.
  simpl in H.
  repeat match goal with
         | Hd : is_digit _ = true |- _ => rewrite Hd in H; clear Hd
         end.
  simpl in H. discriminate.
Qed.

Lemma runs_ok_leading (t : text) :
  forall cur,
    runs_ok cur t = true ->
    leading is_digit t = 0 \/ cur + leading is_digit t < 5.
Proof.
  induction t as [ | c t IH ]; intros cur; cbn [runs_ok leading];
    [ now left | ].
  destruct (is_digit c); [ | now left ].
  rewrite andb_true_iff, Nat.ltb_lt. intros [Hlt H].
  right. destruct (IH (S cur) H) as [-> | Hl]; lia.
Qed.

(** ** A scan that finds nothing changes nothing *)

Lemma scan_no_match (r : re) (s : text) :
  forall prev,
    re_search_from r prev s = false ->
    scan r prev s 0 = map Lit s.
Proof.
  induction s as [ | c s IH ]; intros prev H; [ reflexivity | ].
  cbn [scan map]. cbn [re_search_from] in H.
  destruct (match_length r prev (c :: s)) as [ [ | n ] | ];
    [ | discriminate | ]; now rewrite (IH _ H).
Qed.

Lemma emit_map_Lit (s : text) : emit (map Lit s) = s.
Proof. induction s as [ | c s IH ]; simpl; [ | rewrite IH ]; reflexivity. Qed.

Lemma redact_no_match (r : re) (t : text) :
  re_search r t = false -> redact r t = t.
Proof.
  intros H. unfold redact, re_sub.
  rewrite (scan_no_match r t None H). apply emit_map_Lit.
Qed.

Lemma runs_ok_search_DIGITS (s : text) :
  forall prev cur,
    runs_ok cur s = true -> re_search_from DIGITS prev s = false.
Proof.
  induction s as [ | c s IH ]; intros prev cur H.
  - reflexivity.
  - cbn [re_search_from]. rewrite match_length_DIGITS.
    destruct (runs_ok_leading _ _ H) as [Hl | Hl].
    + rewrite Hl. cbn [Nat.leb].
      apply (IH _ 0). apply (runs_ok_tail c s cur H).
    + destruct (Nat.leb_spec 5 (leading is_digit (c :: s))); [ lia | ].
      apply (IH _ 0). apply (runs_ok_tail c s cur H).
Qed.

(** ** The handle pattern *)

Lemma is_word_handle_char (c : ascii) :
  is_word c = true -> handle_char c = true.
Proof. unfold handle_char. intros ->. reflexivity. Qed.

Lemma at_sign_not_handle_char (c : ascii) :
  is_char "@" c = true -> handle_char c = false.
Proof.
  unfold is_char. intros H. apply Ascii.eqb_eq in H. subst c. reflexivity.
Qed.

Lemma handle_end_le (s : text) : handle_end s <= List.length s.
Proof.
  induction s as [ | c s IH ]; simpl; [ lia | ].
  destruct (handle_char c); [ | lia ].
  destruct ((0 <? handle_end s) || is_word c); lia.
Qed.

Lemma handle_end_0_no_word (s : text) :
  handle_end s = 0 -> word_here s = false.
Proof.
  destruct s as [ | c s ]; simpl; [ reflexivity | ].
  destruct (handle_char c) eqn:Hc.
  - destruct (is_word c); [ | reflexivity ].
    rewrite orb_true_r. discriminate.
  - intros _. destruct (is_word c) eqn:Hw; [ | reflexivity ].
    rewrite (is_word_handle_char c Hw) in Hc. discriminate.
Qed.

(** A match of the handle pattern ends in front of a character that is
    no word character. *)
Lemma handle_end_stops_before_non_word (s : text) :
  word_here (skipn (handle_end s) s) = false.
Proof.
  induction s as [ | c s IH ]; [ reflexivity | ].
  cbn [handle_end].
  destruct (handle_char c) eqn:Hc.
  - destruct ((0 <? handle_end s) || is_word c) eqn:Hor.
    + exact IH.
    + apply orb_false_iff in Hor as [_ Hw]. simpl. exact Hw.
  - simpl. destruct (is_word c) eqn:Hw; [ | reflexivity ].
    rewrite (is_word_handle_char c Hw) in Hc. discriminate.
Qed.

(** Greedy repetition in front of a continuation that fails on every text
    starting with a character of the class: only the whole run is tried
    with success. *)
Lemma repeat_greedy_whole_run (p : ascii -> bool) (k : cont) :
  (forall pv c x, p c = true -> k pv (c :: x) = None) ->
  (forall pv pv' x, k pv x = k pv' x) ->
  forall s lo prev,
    repeat_greedy p lo None prev s k
    = if lo <=? leading p s then k prev (skipn (leading p s) s) else None.
Proof.
  intros Hfail Hprev.
  induction s as [ | c s IH ]; intros lo prev; simpl.
  - destruct lo; reflexivity.
  - destruct (p c) eqn:Hc; simpl.
    + rewrite IH.
      destruct lo as [ | lo ]; simpl.
      * rewrite (Hprev (Some c) prev).
        destruct (k prev (skipn (leading p s) s)) eqn:Hk; [ reflexivity | ].
        apply Hfail. exact Hc.
      * rewrite (Hprev (Some c) prev).
        destruct (Nat.leb_spec lo (leading p s)); [ | reflexivity ].
        destruct (k prev (skipn (leading p s) s)); reflexivity.
    + destruct lo; reflexivity.
Qed.

(** Greedy repetition of handle characters in front of [\b]: the match
    ends behind the last word character of the run. *)
Lemma repeat_greedy_to_boundary (s : text) :
  forall lo prev,
    lo <= 1 ->
    repeat_greedy handle_char lo None prev s
      (fun p x => if at_boundary p x then Some x else None)
    = match handle_end s with
      | S n => Some (skipn (S n) s)
      | 0 => if (lo =? 0) && word_before prev then Some s else None
      end.
Proof.
  induction s as [ | c s IH ]; intros lo prev Hlo.
  - simpl. unfold at_boundary. simpl. rewrite xorb_false_r.
    destruct lo; simpl; [ reflexivity | reflexivity ].
  - cbn [repeat_greedy handle_end option_map].
    destruct (handle_char c) eqn:Hc; cbn [andb may_take_more].
    + rewrite (IH (pred lo) (Some c)) by lia.
      destruct (handle_end s) as [ | n ] eqn:He.
      * replace (pred lo =? 0) with true by (destruct lo as [ | [ | ] ]; simpl; lia || reflexivity).
        cbn [andb word_before Nat.ltb Nat.leb orb].
        destruct (is_word c) eqn:Hw; [ reflexivity | ].
        unfold at_boundary. cbn [word_here]. rewrite Hw, xorb_false_r.
        destruct lo as [ | lo ]; reflexivity.
      * cbn [Nat.ltb Nat.leb orb]. reflexivity.
    + assert (Hw : is_word c = false).
      { destruct (is_word c) eqn:Hw; [ | reflexivity ].
        rewrite (is_word_handle_char c Hw) in Hc. discriminate. }
      unfold at_boundary. cbn [word_here]. rewrite Hw, xorb_false_r.
      destruct lo as [ | lo ]; reflexivity.
Qed.

Lemma after_local_at_run_end (s : text) :
  forall pv,
    after_local pv (skipn (leading handle_char s) s)
    = option_map (fun n => skipn n s) (handle_tail s).
Proof.
  induction s as [ | c s IH ]; intros pv; [ reflexivity | ].
  cbn [leading handle_tail].
  destruct (handle_char c) eqn:Hc.
  - cbn [skipn]. rewrite IH.
    destruct (handle_tail s); reflexivity.
  - cbn [skipn]. unfold after_local. cbn [match_re].
    destruct (is_char "@" c); [ | reflexivity ].
    rewrite repeat_greedy_to_boundary by lia.
    destruct (handle_end s); reflexivity.
Qed.

Lemma handle_tail_le (s : text) :
  forall n, handle_tail s = Some n -> n <= List.length s.
Proof.
  induction s as [ | c s IH ]; intros n; cbn [handle_tail List.length];
    [ discriminate | ].
  destruct (handle_char c).
  - destruct (handle_tail s) as [ m | ]; cbn [option_map]; [ | discriminate ].
    intros [= <-]. specialize (IH m eq_refl). lia.
  - destruct (is_char "@" c); [ | discriminate ].
    pose proof (handle_end_le s).
    destruct (handle_end s); [ discriminate | ].
    intros [= <-]. lia.
Qed.

(** The matcher on [HANDLE], computed directly. *)
Lemma match_length_HANDLE (prev : option ascii) (s : text) :
  match_length HANDLE prev s = handle_match prev s.
Proof.
  unfold match_length, HANDLE, handle_match. cbn [match_re].
  destruct (at_boundary prev s); [ | reflexivity ].
  change (fun (prev' : option ascii) (s' : text) =>
            match s' with
            | [] => None
            | c :: s'0 =>
                if is_char "@" c
                then repeat_greedy handle_char 1 None (Some c) s'0
                       (fun (prev'0 : option ascii) (s'1 : text) =>
                          if at_boundary prev'0 s'1 then Some s'1 else None)
                else None
            end) with after_local.
  rewrite repeat_greedy_whole_run.
  - rewrite after_local_at_run_end.
    destruct s as [ | c s ]; [ reflexivity | ].
    cbn [leading handle_tail].
    destruct (handle_char c); [ | reflexivity ].
    cbn [Nat.leb].
    pose proof (handle_tail_le s) as Hle.
    destruct (handle_tail s) as [ n | ]; [ | reflexivity ].
    specialize (Hle n eq_refl). cbn [option_map].
    rewrite length_skipn_le by (simpl; lia). reflexivity.
  - intros pv c x Hc. unfold after_local. cbn [match_re].
    destruct (is_char "@" c) eqn:Hat; [ | reflexivity ].
    rewrite (at_sign_not_handle_char c Hat) in Hc. discriminate.
  - intros pv pv' x. reflexivity.
Qed.

Lemma re_search_from_cons (r : re) (prev : option ascii) (c : ascii) (s : text) :
  re_search_from r prev (c :: s)
  = match match_length r prev (c :: s) with
    | Some (S _) => true
    | _ => re_search_from r (Some c) s
    end.
Proof. reflexivity. Qed.

Lemma handle_match_not_zero (prev : option ascii) (s : text) :
  handle_match prev s <> Some 0.
Proof.
  unfold handle_match.
  destruct (at_boundary prev s); [ | discriminate ].
  destruct s as [ | c s ]; [ discriminate | ].
  destruct (handle_char c); [ | discriminate ].
  destruct (handle_tail s); discriminate.
Qed.

Lemma handle_tail_end (s : text) :
  forall n, handle_tail s = Some n -> word_here (skipn n s) = false.
Proof.
  induction s as [ | c s IH ]; intros n; cbn [handle_tail]; [ discriminate | ].
  destruct (handle_char c).
  - destruct (handle_tail s) as [ m | ]; cbn [option_map]; [ | discriminate ].
    intros [= <-]. cbn [skipn]. apply IH. reflexivity.
  - destruct (is_char "@" c); [ | discriminate ].
    pose proof (handle_end_stops_before_non_word s) as Hend.
    destruct (handle_end s) as [ | m ]; [ discriminate | ].
    intros [= <-]. exact Hend.
Qed.

(** A match of [HANDLE] ends in front of a character that is no word
    character. *)
Lemma handle_match_end (prev : option ascii) (s : text) (n : nat) :
  handle_match prev s = Some n -> word_here (skipn n s) = false.
Proof.
  unfold handle_match.
  destruct (at_boundary prev s); [ | discriminate ].
  destruct s as [ | c s ]; [ discriminate | ].
  destruct (handle_char c); [ | discriminate ].
  destruct (handle_tail s) as [ m | ] eqn:Ht; cbn [option_map];
    [ | discriminate ].
  intros [= <-]. cbn [skipn]. apply (handle_tail_end s m Ht).
Qed.

(** In the output of a scan, a run of handle characters with a word
    character, or the tail of a handle, stands only where the input had
    one: the marker begins with a bracket. *)
Lemma emit_handle_end (r : re) (s : text) :
  forall prev,
    handle_end (emit (scan r prev s 0)) <> 0 -> handle_end s <> 0.
Proof.
  induction s as [ | c s IH ]; intros prev; [ simpl; auto | ].
  cbn [scan].
  assert (Hlit : handle_end (emit (Lit c :: scan r (Some c) s 0)) <> 0 ->
                 handle_end (c :: s) <> 0).
  { cbn [emit flat_map app]. fold (emit (scan r (Some c) s 0)).
    cbn [handle_end].
    destruct (handle_char c); [ | auto ].
    specialize (IH (Some c)).
    destruct (handle_end (emit (scan r (Some c) s 0))) as [ | m ].
    - cbn [Nat.ltb Nat.leb orb].
      destruct (is_word c); [ | auto ].
      rewrite orb_true_r. discriminate.
    - assert (Hs : handle_end s <> 0) by (apply IH; discriminate).
      destruct (handle_end s); [ contradiction | ].
      cbn [Nat.ltb Nat.leb orb]. discriminate. }
  destruct (match_length r prev (c :: s)) as [ [ | n ] | ];
    [ exact Hlit | | exact Hlit ].
  intros H. exfalso. apply H. reflexivity.
Qed.

Lemma emit_handle_tail (r : re) (s : text) :
  forall prev,
    handle_tail (emit (scan r prev s 0)) <> None -> handle_tail s <> None.
Proof.
  induction s as [ | c s IH ]; intros prev; [ simpl; auto | ].
  cbn [scan].
  assert (Hlit : handle_tail (emit (Lit c :: scan r (Some c) s 0)) <> None ->
                 handle_tail (c :: s) <> None).
  { cbn [emit flat_map app]. fold (emit (scan r (Some c) s 0)).
    cbn [handle_tail].
    destruct (handle_char c).
    - specialize (IH (Some c)).
      destruct (handle_tail (emit (scan r (Some c) s 0)));
        cbn [option_map]; [ | auto ].
      intros _.
      destruct (handle_tail s); [ discriminate | ].
      exfalso. apply IH; [ discriminate | reflexivity ].
    - destruct (is_char "@" c); [ | auto ].
      pose proof (emit_handle_end r s (Some c)) as He.
      destruct (handle_end (emit (scan r (Some c) s 0))); [ auto | ].
      intros _.
      destruct (handle_end s); [ | discriminate ].
      exfalso. apply He; [ discriminate | reflexivity ]. }
  destruct (match_length r prev (c :: s)) as [ [ | n ] | ];
    [ exact Hlit | | exact Hlit ].
  intros H. exfalso. apply H. reflexivity.
Qed.

(** No handle starts inside the marker. *)
Lemma search_HANDLE_REDACTED (p : option ascii) (x : text) :
  re_search_from HANDLE p (REDACTED ++ x)
  = re_search_from HANDLE (Some "]"%char) x.
Proof.
  unfold REDACTED, str. cbn [list_ascii_of_string app].
  rewrite re_search_from_cons, match_length_HANDLE.
  replace (handle_match p ("["%char :: _)) with (@None nat)
    by (unfold handle_match; destruct (at_boundary p _); reflexivity).
  repeat (rewrite re_search_from_cons, match_length_HANDLE;
          match goal with
          | |- context [handle_match ?q ?s] =>
              change (handle_match q s) with (@None nat)
          end).
  reflexivity.
Qed.

(** After [re.sub(HANDLE, "[REDACTED]", ...)] the handle pattern matches
    nowhere.  [prev] is the character before [s] in the input, [prev_o]
    the one before the output. *)
Lemma emit_HANDLE_no_match (s : text) :
  forall prev skip prev_o,
    match skip with
    | 0 => prev_o = prev
           \/ (word_before prev_o = false /\ word_here s = false)
    | S _ => word_before prev_o = false
             /\ word_here (skipn skip s) = false
    end ->
    re_search_from HANDLE prev_o (emit (scan HANDLE prev s skip)) = false.
Proof.
  induction s as [ | c s IH ]; intros prev skip prev_o J.
  - destruct skip; cbn [scan emit flat_map re_search_from];
      rewrite match_length_HANDLE; unfold handle_match;
      destruct (at_boundary prev_o []); reflexivity.
  - destruct skip as [ | n ].
    + cbn [scan]. rewrite match_length_HANDLE.
      assert (Hlit : handle_match prev (c :: s) = None ->
                re_search_from HANDLE prev_o
                  (emit (Lit c :: scan HANDLE (Some c) s 0)) = false).
      { intros Hnone.
        cbn [emit flat_map app]. fold (emit (scan HANDLE (Some c) s 0)).
        rewrite re_search_from_cons, match_length_HANDLE.
        assert (Hout : handle_match prev_o
                         (c :: emit (scan HANDLE (Some c) s 0)) = None).
        { unfold handle_match in Hnone |- *.
          unfold at_boundary in Hnone |- *. cbn [word_here] in Hnone |- *.
          destruct (handle_char c);
            [ | destruct (xorb (word_before prev_o) (is_word c)); reflexivity ].
          pose proof (emit_handle_tail HANDLE s (Some c)) as Ht.
          destruct (handle_tail (emit (scan HANDLE (Some c) s 0)));
            [ | destruct (xorb (word_before prev_o) (is_word c)); reflexivity ].
          assert (Hs : handle_tail s <> None) by (apply Ht; discriminate).
          destruct (handle_tail s); [ | contradiction ].
          cbn [option_map] in Hnone |- *.
          destruct J as [-> | [Hwb Hw] ].
          - destruct (xorb (word_before prev) (is_word c));
              [ discriminate | reflexivity ].
          - cbn [word_here] in Hw. rewrite Hwb, Hw. reflexivity. }
        rewrite Hout. apply IH. now left. }
      destruct (handle_match prev (c :: s)) as [ [ | n ] | ] eqn:Hm.
      * exfalso. exact (handle_match_not_zero _ _ Hm).
      * cbn [emit flat_map]. fold (emit (scan HANDLE (Some c) s n)).
        rewrite search_HANDLE_REDACTED.
        pose proof (handle_match_end _ _ _ Hm) as Hend. cbn [skipn] in Hend.
        apply IH. destruct n; [ right | ]; (split; [ reflexivity | exact Hend ]).
      * apply Hlit. reflexivity.
    + cbn [scan]. destruct J as [Hwb Hw]. cbn [skipn] in Hw.
      apply IH. destruct n; [ right | ]; (split; assumption).
Qed.

Lemma redact_HANDLE_no_match (t : text) :
  re_search HANDLE (redact HANDLE t) = false.
Proof. apply (emit_HANDLE_no_match t None 0 None). now left. Qed.

(** ** What a scrubbed text is free of *)

Lemma scrub_runs_ok (t : text) : runs_ok 0 (_scrub_pii t) = true.
Proof.
  unfold _scrub_pii. apply redact_keeps_runs_ok, redact_DIGITS_runs_ok.
Qed.

Lemma scrub_no_handle (t : text) : re_search HANDLE (_scrub_pii t) = false.
Proof. unfold _scrub_pii. apply redact_HANDLE_no_match. Qed.

(** ** The email pattern against the handle pattern *)

(** What a match of a greedy repetition took. *)
Lemma repeat_greedy_sound (p : ascii -> bool) (k : cont) (s : text) :
  forall lo hi prev rest,
    repeat_greedy p lo hi prev s k = Some rest ->
    exists n pv,
      lo <= n <= List.length s
      /\ forallb p (firstn n s) = true
      /\ k pv (skipn n s) = Some rest.
Proof.
  induction s as [ | c s IH ]; intros lo hi prev rest; cbn [repeat_greedy].
  - destruct lo; [ | discriminate ].
    intros H. exists 0, prev. repeat split; [ lia | simpl; lia | exact H ].
  - assert (Hstop : match lo with 0 => k prev (c :: s) | S _ => None end
                    = Some rest ->
                    exists n pv, lo <= n <= List.length (c :: s)
                      /\ forallb p (firstn n (c :: s)) = true
                      /\ k pv (skipn n (c :: s)) = Some rest).
    { destruct lo; [ | discriminate ].
      intros H. exists 0, prev. repeat split; [ lia | simpl; lia | exact H ]. }
    destruct (p c && may_take_more hi) eqn:Hc; [ | exact Hstop ].
    destruct (repeat_greedy p (pred lo) (option_map pred hi) (Some c) s k)
      as [ r | ] eqn:Hrec; [ | exact Hstop ].
    intros [= <-].
    destruct (IH _ _ _ _ Hrec) as (n & pv & Hn & Hall & Hk).
    exists (S n), pv. apply andb_true_iff in Hc as [Hc _].
    repeat split; [ lia | simpl; lia | | exact Hk ].
    cbn [firstn forallb]. now rewrite Hc, Hall.
Qed.

Lemma email_local_no_percent (c : ascii) :
  email_local c = true -> c <> "%"%char -> handle_char c = true.
Proof.
  unfold email_local, handle_char, one_of. cbn [str list_ascii_of_string existsb].
  intros H Hne.
  destruct (is_word c); [ reflexivity | ]. cbn [orb] in H |- *.
  destruct (Ascii.eqb_spec c "."%char); [ reflexivity | ].
  destruct (Ascii.eqb_spec c "%"%char); [ contradiction | ].
  exact H.
Qed.

Lemma is_alpha_is_word (c : ascii) : is_alpha c = true -> is_word c = true.
Proof. unfold is_word. intros ->. reflexivity. Qed.

Lemma handle_end_reaches_word (x : text) (w : ascii) (y : text) :
  forallb handle_char x = true -> is_word w = true ->
  handle_end (x ++ w :: y) <> 0.
Proof.
  intros Hx Hw. induction x as [ | c x IH ]; cbn [app handle_end].
  - rewrite (is_word_handle_char w Hw), Hw, orb_true_r. discriminate.
  - cbn [forallb] in Hx. apply andb_true_iff in Hx as [Hc Hx].
    rewrite Hc. specialize (IH Hx).
    destruct (handle_end (x ++ w :: y)); [ contradiction | ].
    cbn [Nat.ltb Nat.leb orb]. discriminate.
Qed.

Lemma handle_tail_reaches_at (l : text) (a : ascii) (s2 : text) :
  forallb handle_char l = true -> is_char "@" a = true ->
  handle_end s2 <> 0 ->
  handle_tail (l ++ a :: s2) <> None.
Proof.
  intros Hl Ha Hend. induction l as [ | c l IH ]; cbn [app handle_tail].
  - rewrite (at_sign_not_handle_char a Ha), Ha.
    destruct (handle_end s2); [ contradiction | discriminate ].
  - cbn [forallb] in Hl. apply andb_true_iff in Hl as [Hc Hl].
    rewrite Hc. specialize (IH Hl).
    destruct (handle_tail (l ++ a :: s2)); [ discriminate | contradiction ].
Qed.

(** In a text without [%], the handle pattern matches wherever the email
    pattern does. *)
Lemma EMAIL_match_is_HANDLE_match (prev : option ascii) (s : text) (n : nat) :
  Forall (fun c => c <> "%"%char) s ->
  match_length EMAIL prev s = Some (S n) ->
  handle_match prev s <> None.
Proof.
  intros Hpct. unfold match_length, EMAIL. cbn [match_re].
  unfold handle_match.
  destruct (at_boundary prev s); [ | discriminate ].
  destruct (repeat_greedy email_local 1 None prev s _) as [ rest | ] eqn:Hm;
    [ | discriminate ].
  intros _.
  apply repeat_greedy_sound in Hm as (n1 & pv1 & Hn1 & HL & Hk1).
  destruct (skipn n1 s) as [ | a s2 ] eqn:Hs1; [ discriminate | ].
  destruct (is_char "@" a) eqn:Ha; [ | discriminate ].
  apply repeat_greedy_sound in Hk1 as (n2 & pv2 & Hn2 & HD & Hk2).
  destruct (skipn n2 s2) as [ | dot s3 ] eqn:Hs2; [ discriminate | ].
  destruct (is_char "." dot) eqn:Hdot; [ | discriminate ].
  apply repeat_greedy_sound in Hk2 as (n3 & pv3 & Hn3 & HT & _).
  (* the shape of [s] *)
  assert (Hs : s = firstn n1 s ++ a :: s2)
    by (rewrite <- Hs1; symmetry; apply firstn_skipn).
  assert (Hs2' : s2 = (firstn n2 s2 ++ [dot]) ++ s3).
  { rewrite <- app_assoc. cbn [app]. rewrite <- Hs2.
    symmetry. apply firstn_skipn. }
  destruct s3 as [ | t s4 ]; [ simpl in Hn3; lia | ].
  destruct n3 as [ | n3 ]; [ lia | ].
  cbn [firstn forallb] in HT. apply andb_true_iff in HT as [Ht _].
  assert (Hend : handle_end s2 <> 0).
  { rewrite Hs2'. apply handle_end_reaches_word.
    - rewrite forallb_app, HD. cbn [forallb].
      unfold is_char in Hdot. apply Ascii.eqb_eq in Hdot. subst dot.
      reflexivity.
    - apply is_alpha_is_word, Ht. }
  assert (HL' : forallb handle_char (firstn n1 s) = true).
  { apply forallb_forall. intros c Hin.
    apply email_local_no_percent.
    - rewrite forallb_forall in HL. apply HL, Hin.
    - rewrite Forall_forall in Hpct. apply Hpct.
      rewrite Hs. apply in_or_app. now left. }
  rewrite Hs.
  destruct (firstn n1 s) as [ | c l ] eqn:Hf.
  { destruct n1; [ lia | ]. destruct s; cbn [firstn] in Hf; [ | discriminate ].
    cbn [skipn] in Hs1. discriminate. }
  cbn [app]. cbn [forallb] in HL'. apply andb_true_iff in HL' as [Hc Hl].
  rewrite Hc.
  pose proof (handle_tail_reaches_at l a s2 Hl Ha Hend) as Ht'.
  destruct (handle_tail (l ++ a :: s2)); [ discriminate | contradiction ].
Qed.

Lemma search_EMAIL_below_HANDLE (s : text) :
  forall prev,
    Forall (fun c => c <> "%"%char) s ->
    re_search_from HANDLE prev s = false ->
    re_search_from EMAIL prev s = false.
Proof.
  induction s as [ | c s IH ]; intros prev Hpct H.
  - cbn [re_search_from]. unfold match_length.
    destruct (match_re EMAIL prev [] _); reflexivity.
  - rewrite re_search_from_cons in H |- *.
    rewrite match_length_HANDLE in H.
    pose proof (EMAIL_match_is_HANDLE_match prev (c :: s)) as Hem.
    inversion Hpct as [ | ? ? _ Hpct' ]; subst.
    destruct (handle_match prev (c :: s)) as [ [ | m ] | ] eqn:Hh;
      [ exfalso; exact (handle_match_not_zero _ _ Hh) | discriminate | ].
    destruct (match_length EMAIL prev (c :: s)) as [ [ | n ] | ];
      [ | exfalso; exact (Hem n Hpct eq_refl eq_refl) | ];
      now apply IH.
Qed.

(** The scan adds no [%], the marker has none. *)
Lemma emit_keeps_chars (P : ascii -> Prop) (r : re) (s : text) :
  Forall P REDACTED ->
  forall prev skip, Forall P s -> Forall P (emit (scan r prev s skip)).
Proof.
  intros Hmark. induction s as [ | c s IH ]; intros prev skip Hs.
  - constructor.
  - inversion Hs as [ | ? ? Hc Hs' ]; subst. cbn [scan].
    destruct skip as [ | k ]; [ | now apply IH ].
    destruct (match_length r prev (c :: s)) as [ [ | n ] | ];
      cbn [emit flat_map]; fold (emit (scan r (Some c) s 0));
      try fold (emit (scan r (Some c) s n));
      try (constructor; [ exact Hc | now apply IH ]).
    apply Forall_app. split; [ exact Hmark | now apply IH ].
Qed.

Lemma REDACTED_no_percent : Forall (fun c => c <> "%"%char) REDACTED.
Proof.
  unfold REDACTED, str. cbn [list_ascii_of_string].
  repeat constructor; discriminate.
Qed.

Lemma scrub_keeps_no_percent (t : text) :
  Forall (fun c => c <> "%"%char) t ->
  Forall (fun c => c <> "%"%char) (_scrub_pii t).
Proof.
  intros H. unfold _scrub_pii, re_sub.
  repeat apply (emit_keeps_chars _ _ _ REDACTED_no_percent). exact H.
Qed.

(** A text without [%]: once scrubbed, the email pattern matches nowhere
    in it. *)
Lemma scrub_no_email_without_percent (t : text) :
  Forall (fun c => c <> "%"%char) t ->
  re_search EMAIL (_scrub_pii t) = false.
Proof.
  intros H. apply search_EMAIL_below_HANDLE.
  - apply scrub_keeps_no_percent, H.
  - apply scrub_no_handle.
Qed.

End ReProofs.

(* ================================================================== *)
(** * _scrub_pii and explain_decision *)
(* ================================================================== *)

Module ExplainerProofs.
Import Re Explainer TextProps ReProofs.

(** C10 as stated fails: scrubbing twice differs from scrubbing once.
    The digit pass turns [a%@b.com12345] into [a%@b.com[REDACTED]]; the
    handle pass does not take [a%@b.com] (a [%] stands before the [@]),
    and on the second scrub the email pass finds it, now in front of a
    word boundary. *)
Lemma scrub_twice_differs :
  _scrub_pii (str "a%@b.com12345") = str "a%@b.com[REDACTED]"
  /\ _scrub_pii (_scrub_pii (str "a%@b.com12345"))
     = str "[REDACTED][REDACTED]"
  /\ _scrub_pii (_scrub_pii (str "a%@b.com12345"))
     <> _scrub_pii (str "a%@b.com12345").
Proof.
  split; [ vm_compute; reflexivity | ].
  split; [ vm_compute; reflexivity | ].
  vm_compute. discriminate.
Qed.

(** C10, amended: the marker holds no digit and no [@]; on a scrubbed
    text the digit pass and the handle pass change nothing; and scrubbing
    again changes nothing when the email pattern finds no match in the
    scrubbed text, which is so for every text without [%]. *)
Theorem scrub_idempotent_unless_email_matches :
  forall t : text,
    Forall (fun c => is_digit c = false /\ c <> "@"%char) REDACTED
    /\ redact DIGITS (_scrub_pii t) = _scrub_pii t
    /\ redact HANDLE (_scrub_pii t) = _scrub_pii t
    /\ (re_search EMAIL (_scrub_pii t) = false ->
        _scrub_pii (_scrub_pii t) = _scrub_pii t)
    /\ (no_percent t -> _scrub_pii (_scrub_pii t) = _scrub_pii t).
Proof.
  intros t.
  assert (Hd : redact DIGITS (_scrub_pii t) = _scrub_pii t).
  { apply redact_no_match.
    apply (runs_ok_search_DIGITS _ None 0), scrub_runs_ok. }
  assert (Hh : redact HANDLE (_scrub_pii t) = _scrub_pii t).
  { apply redact_no_match, scrub_no_handle. }
  split.
  { unfold REDACTED, str. cbn [list_ascii_of_string].
    repeat constructor; discriminate. }
  split; [ exact Hd | ]. split; [ exact Hh | ].
  assert (Hidem : re_search EMAIL (_scrub_pii t) = false ->
                  _scrub_pii (_scrub_pii t) = _scrub_pii t).
  { intros He.
    unfold _scrub_pii at 1.
    fold (redact EMAIL (_scrub_pii t)).
    fold (redact DIGITS (redact EMAIL (_scrub_pii t))).
    fold (redact HANDLE (redact DIGITS (redact EMAIL (_scrub_pii t)))).
    rewrite (redact_no_match EMAIL _ He), Hd, Hh. reflexivity. }
  split; [ exact Hidem | ].
  intros Hp. apply Hidem, scrub_no_email_without_percent, Hp.
Qed.

Lemma scrub_idempotent_unless_email_matches_witness :
  re_search EMAIL (_scrub_pii plain_pii_text) = false
  /\ _scrub_pii (_scrub_pii plain_pii_text) = _scrub_pii plain_pii_text.
Proof.
  assert (He : re_search EMAIL (_scrub_pii plain_pii_text) = false)
    by (vm_compute; reflexivity).
  split; [ exact He | ].
  exact (proj1 (proj2 (proj2 (proj2
           (scrub_idempotent_unless_email_matches plain_pii_text)))) He).
Defined.

(** ** Joining scrubbed sentences *)

Lemma runs_ok_app_space (a b : text) :
  forall cur,
    runs_ok cur a = true -> runs_ok 0 b = true ->
    runs_ok cur (a ++ " "%char :: b) = true.
Proof.
  induction a as [ | c a IH ]; intros cur Ha Hb.
  - exact Hb.
  - cbn [app runs_ok] in Ha |- *.
    destruct (is_digit c).
    + apply andb_true_iff in Ha as [Hlt Ha]. rewrite Hlt. simpl.
      now apply IH.
    + now apply IH.
Qed.

Lemma join_runs_ok (l : list text) :
  Forall (fun c => runs_ok 0 c = true) l ->
  runs_ok 0 (join_text (str " ") l) = true.
Proof.
  induction l as [ | a l IH ]; intros Hall; [ reflexivity | ].
  inversion Hall as [ | ? ? Ha Hl ]; subst.
  destruct l as [ | b l ]; [ exact Ha | ].
  change (join_text (str " ") (a :: b :: l))
    with (a ++ " "%char :: join_text (str " ") (b :: l)).
  apply runs_ok_app_space; [ exact Ha | apply IH; exact Hl ].
Qed.

Lemma handle_end_app_space (a b : text) :
  handle_end (a ++ " "%char :: b) = handle_end a.
Proof.
  induction a as [ | c a IH ]; [ reflexivity | ].
  cbn [app handle_end]. now rewrite IH.
Qed.

Lemma handle_tail_app_space (a b : text) :
  handle_tail (a ++ " "%char :: b) = handle_tail a.
Proof.
  induction a as [ | c a IH ]; [ reflexivity | ].
  cbn [app handle_tail]. now rewrite IH, handle_end_app_space.
Qed.

(** Only whether the character before is a word character matters. *)
Lemma search_HANDLE_prev (s : text) (p p' : option ascii) :
  word_before p = word_before p' ->
  re_search_from HANDLE p s = re_search_from HANDLE p' s.
Proof.
  intros Hp. destruct s as [ | c s ].
  - cbn [re_search_from]. rewrite !match_length_HANDLE.
    unfold handle_match, at_boundary. now rewrite Hp.
  - rewrite !re_search_from_cons, !match_length_HANDLE.
    unfold handle_match, at_boundary. now rewrite Hp.
Qed.

Lemma search_HANDLE_app_space (a b : text) :
  forall p,
    re_search_from HANDLE p a = false ->
    re_search_from HANDLE None b = false ->
    re_search_from HANDLE p (a ++ " "%char :: b) = false.
Proof.
  induction a as [ | c a IH ]; intros p Ha Hb.
  - cbn [app]. rewrite re_search_from_cons, match_length_HANDLE.
    replace (handle_match p (" "%char :: b)) with (@None nat)
      by (unfold handle_match; destruct (at_boundary p _); reflexivity).
    rewrite (search_HANDLE_prev b (Some " "%char) None); [ exact Hb | reflexivity ].
  - cbn [app]. rewrite re_search_from_cons, match_length_HANDLE in Ha |- *.
    assert (Heq : handle_match p (c :: a ++ " "%char :: b)
                  = handle_match p (c :: a)).
    { unfold handle_match, at_boundary. cbn [word_here].
      now rewrite handle_tail_app_space. }
    rewrite Heq.
    destruct (handle_match p (c :: a)) as [ [ | n ] | ];
      [ | discriminate | ]; now apply IH.
Qed.

Lemma join_no_handle (l : list text) :
  Forall (fun c => re_search HANDLE c = false) l ->
  re_search HANDLE (join_text (str " ") l) = false.
Proof.
  induction l as [ | a l IH ]; intros Hall.
  - vm_compute. reflexivity.
  - inversion Hall as [ | ? ? Ha Hl ]; subst.
    destruct l as [ | b l ]; [ exact Ha | ].
    change (join_text (str " ") (a :: b :: l))
      with (a ++ " "%char :: join_text (str " ") (b :: l)).
    apply search_HANDLE_app_space; [ exact Ha | apply IH; exact Hl ].
Qed.

(** ** The summary: every sentence has passed through [_scrub_pii] *)

Lemma add_cleaned_scrubbed (acc : list text) (s : text) :
  Forall scrubbed acc -> Forall scrubbed (add_cleaned acc s).
Proof.
  intros Hacc. unfold add_cleaned.
  destruct (nonempty (_scrub_pii s)
            && negb (existsb (text_eqb (_scrub_pii s)) acc));
    [ | exact Hacc ].
  apply Forall_app. split; [ exact Hacc | ].
  constructor; [ now exists s | constructor ].
Qed.

Lemma fold_add_cleaned_scrubbed (sentences : list text) :
  forall acc,
    Forall scrubbed acc ->
    Forall scrubbed (fold_left add_cleaned sentences acc).
Proof.
  induction sentences as [ | s l IH ]; intros acc Hacc; [ exact Hacc | ].
  cbn [fold_left]. apply IH, add_cleaned_scrubbed, Hacc.
Qed.

Lemma summary_of_scrubbed (chunks : list text) (idx_list : list Z)
    (query_tokens : list text) :
  Forall scrubbed (summary_of chunks idx_list query_tokens).
Proof.
  unfold summary_of.
  generalize (flat_map
    (fun idx : Z =>
       if (0 <=? idx)%Z && (idx <? Z.of_nat (List.length chunks))%Z
       then match nth_error chunks (Z.to_nat idx) with
            | Some chunk => [chunk]
            | None => []
            end
       else []) idx_list) as retrieved.
  intros retrieved.
  assert (H : forall acc, Forall scrubbed acc ->
            Forall scrubbed
              (fold_left
                 (fun summary_sentences chunk =>
                    fold_left add_cleaned
                      (_extract_relevant_sentences chunk query_tokens 2)
                      summary_sentences) retrieved acc)).
  { induction retrieved as [ | ch l IH ]; intros acc Hacc; [ exact Hacc | ].
    cbn [fold_left]. apply IH, fold_add_cleaned_scrubbed, Hacc. }
  apply H. constructor.
Qed.

Lemma body_of_scrubbed_clean (l : list text) :
  Forall scrubbed l ->
  ~ has_digit_run (body_of l) /\ re_search HANDLE (body_of l) = false.
Proof.
  intros Hall.
  assert (Hr : Forall (fun c => runs_ok 0 c = true) l).
  { eapply Forall_impl; [ | exact Hall ].
    intros c [s ->]. apply scrub_runs_ok. }
  assert (Hh : Forall (fun c => re_search HANDLE c = false) l).
  { eapply Forall_impl; [ | exact Hall ].
    intros c [s ->]. apply scrub_no_handle. }
  destruct l as [ | a l ].
  - split; [ apply runs_ok_no_digit_run | ]; vm_compute; reflexivity.
  - change (body_of (a :: l)) with (join_text (str " ") (a :: l)).
    split; [ apply runs_ok_no_digit_run, join_runs_ok, Hr
           | apply join_no_handle, Hh ].
Qed.

(** ** Where the characters of the summary come from *)

Lemma scan_lits (r : re) (s : text) :
  forall prev skip c, In (Lit c) (scan r prev s skip) -> In c s.
Proof.
  induction s as [ | x s IH ]; intros prev skip c; cbn [scan];
    [ intros [] | ].
  destruct skip as [ | k ].
  - destruct (match_length r prev (x :: s)) as [ [ | n ] | ];
      intros [Hc | Hc]; try (injection Hc as ->; now left);
      try discriminate; right; exact (IH _ _ _ Hc).
  - intros Hc. right. exact (IH _ _ _ Hc).
Qed.

Lemma split_pieces_chars (P : ascii -> Prop) (ps : list piece) :
  forall cur,
    Forall P cur ->
    (forall c, In (Lit c) ps -> P c) ->
    Forall (Forall P) (split_pieces ps cur).
Proof.
  induction ps as [ | [ c | m ] ps IH ]; intros cur Hcur Hps;
    cbn [split_pieces].
  - constructor; [ apply Forall_rev, Hcur | constructor ].
  - apply IH.
    + constructor; [ apply Hps; now left | exact Hcur ].
    + intros c' Hin. apply Hps. now right.
  - constructor; [ apply Forall_rev, Hcur | ].
    apply IH; [ constructor | ].
    intros c' Hin. apply Hps. now right.
Qed.

Lemma re_split_chars (P : ascii -> Prop) (r : re) (s : text) :
  Forall P s -> Forall (Forall P) (re_split r s).
Proof.
  intros Hs. unfold re_split. apply split_pieces_chars; [ constructor | ].
  intros c Hin. rewrite Forall_forall in Hs.
  apply Hs, (scan_lits r s None 0 c Hin).
Qed.

Lemma lstrip_chars (P : ascii -> Prop) (t : text) :
  Forall P t -> Forall P (lstrip t).
Proof.
  induction t as [ | c t IH ]; intros H; cbn [lstrip]; [ constructor | ].
  destruct (py_isspace c); [ | exact H ].
  inversion H; subst. now apply IH.
Qed.

Lemma strip_chars (P : ascii -> Prop) (t : text) :
  Forall P t -> Forall P (strip t).
Proof.
  intros H. unfold strip, rstrip.
  apply Forall_rev, lstrip_chars, Forall_rev, lstrip_chars, H.
Qed.

Lemma select_matching_chars (P : ascii -> Prop) (parts : list text)
    (tokens : list text) (n : nat) :
  Forall (Forall P) parts ->
  forall selected,
    Forall (Forall P) selected ->
    Forall (Forall P) (select_matching parts tokens n selected).
Proof.
  induction parts as [ | part parts IH ]; intros Hparts selected Hsel;
    cbn [select_matching]; [ exact Hsel | ].
  inversion Hparts as [ | ? ? Hpart Hrest ]; subst.
  match goal with
  | |- context [if ?b then _ else _] => destruct b
  end; [ now apply IH | ].
  cbv zeta.
  match goal with
  | |- context [if ?b then _ else _] => destruct b
  end; [ | now apply IH ].
  apply IH; [ exact Hrest | ].
  apply Forall_app. split; [ exact Hsel | ].
  constructor; [ apply strip_chars, Hpart | constructor ].
Qed.

Lemma select_first_chars (P : ascii -> Prop) (parts : list text) (n : nat) :
  Forall (Forall P) parts ->
  forall selected,
    Forall (Forall P) selected ->
    Forall (Forall P) (select_first parts n selected).
Proof.
  induction parts as [ | part parts IH ]; intros Hparts selected Hsel;
    cbn [select_first]; [ exact Hsel | ].
  inversion Hparts as [ | ? ? Hpart Hrest ]; subst.
  assert (Hsel' : Forall (Forall P)
            (if nonempty (strip part) then selected ++ [strip part]
             else selected)).
  { destruct (nonempty (strip part)); [ | exact Hsel ].
    apply Forall_app. split; [ exact Hsel | ].
    constructor; [ apply strip_chars, Hpart | constructor ]. }
  cbv zeta.
  match goal with
  | |- context [if ?b then _ else _] => destruct b
  end; [ exact Hsel' | now apply IH ].
Qed.

Lemma extract_chars (P : ascii -> Prop) (chunk : text)
    (query_tokens : list text) (n : nat) :
  Forall P chunk ->
  Forall (Forall P) (_extract_relevant_sentences chunk query_tokens n).
Proof.
  intros H. unfold _extract_relevant_sentences.
  pose proof (re_split_chars P SENTENCE_END chunk H) as Hparts.
  pose proof (select_matching_chars P _
                (map lower (filter nonempty query_tokens)) n Hparts []
                (Forall_nil _)) as Hm.
  cbv zeta.
  match goal with
  | |- context [match ?x with [] => _ | _ :: _ => _ end] =>
      destruct x eqn:E
  end.
  - apply select_first_chars; [ exact Hparts | constructor ].
  - rewrite <- E. exact Hm.
Qed.

Lemma summary_of_no_percent (chunks : list text) (idx_list : list Z)
    (query_tokens : list text) :
  Forall no_percent chunks ->
  Forall no_percent (summary_of chunks idx_list query_tokens).
Proof.
  intros Hchunks. unfold summary_of.
  assert (Hret : Forall no_percent
            (flat_map
               (fun idx : Z =>
                  if (0 <=? idx)%Z && (idx <? Z.of_nat (List.length chunks))%Z
                  then match nth_error chunks (Z.to_nat idx) with
                       | Some chunk => [chunk]
                       | None => []
                       end
                  else []) idx_list)).
  { apply Forall_flat_map. apply Forall_forall. intros idx _.
    destruct ((0 <=? idx)%Z && (idx <? Z.of_nat (List.length chunks))%Z);
      [ | constructor ].
    destruct (nth_error chunks (Z.to_nat idx)) as [ chunk | ] eqn:Hn;
      [ | constructor ].
    constructor; [ | constructor ].
    rewrite Forall_forall in Hchunks. apply Hchunks.
    exact (nth_error_In _ _ Hn). }
  revert Hret. generalize (flat_map
    (fun idx : Z =>
       if (0 <=? idx)%Z && (idx <? Z.of_nat (List.length chunks))%Z
       then match nth_error chunks (Z.to_nat idx) with
            | Some chunk => [chunk]
            | None => []
            end
       else []) idx_list) as retrieved.
  intros retrieved Hret.
  assert (Hadd : forall sentences acc,
            Forall no_percent sentences -> Forall no_percent acc ->
            Forall no_percent (fold_left add_cleaned sentences acc)).
  { induction sentences as [ | x l IHl ]; intros acc Hl Hacc; [ exact Hacc | ].
    inversion Hl as [ | ? ? Hx Hl' ]; subst. cbn [fold_left].
    apply IHl; [ exact Hl' | ].
    unfold add_cleaned.
    destruct (nonempty (_scrub_pii x)
              && negb (existsb (text_eqb (_scrub_pii x)) acc));
      [ | exact Hacc ].
    apply Forall_app. split; [ exact Hacc | ].
    constructor; [ apply scrub_keeps_no_percent, Hx | constructor ]. }
  assert (H : forall acc, Forall no_percent acc ->
            Forall no_percent
              (fold_left
                 (fun summary_sentences chunk =>
                    fold_left add_cleaned
                      (_extract_relevant_sentences chunk query_tokens 2)
                      summary_sentences) retrieved acc)).
  { induction retrieved as [ | ch l IH ]; intros acc Hacc; [ exact Hacc | ].
    inversion Hret as [ | ? ? Hch Hl ]; subst. cbn [fold_left].
    apply IH; [ exact Hl | ].
    apply Hadd; [ | exact Hacc ].
    apply extract_chars, Hch. }
  apply H. constructor.
Qed.

Lemma join_no_percent (l : list text) :
  Forall no_percent l -> no_percent (join_text (str " ") l).
Proof.
  induction l as [ | a l IH ]; intros Hall; [ constructor | ].
  inversion Hall as [ | ? ? Ha Hl ]; subst.
  destruct l as [ | b l ]; [ exact Ha | ].
  change (join_text (str " ") (a :: b :: l))
    with (a ++ " "%char :: join_text (str " ") (b :: l)).
  apply Forall_app. split; [ exact Ha | ].
  constructor; [ discriminate | apply IH, Hl ].
Qed.

Lemma body_of_no_email (l : list text) :
  Forall scrubbed l -> Forall no_percent l ->
  re_search EMAIL (body_of l) = false.
Proof.
  intros Hs Hp. destruct l as [ | a l ]; [ vm_compute; reflexivity | ].
  change (body_of (a :: l)) with (join_text (str " ") (a :: l)).
  apply search_EMAIL_below_HANDLE.
  - apply join_no_percent, Hp.
  - exact (proj2 (body_of_scrubbed_clean (a :: l) Hs)).
Qed.

(** ** explain_decision *)

Section ExplainDecisionProofs.

Variables Model Index Vec IndexFile ChunksFile : Type.
Variable SentenceTransformer : string -> result Model.
Variable read_index : IndexFile -> result Index.
Variable pickle_load : ChunksFile -> result (list text).
Variable encode : Model -> list text -> result Vec.
Variable is_float32 : Vec -> bool.
Variable astype_float32 : Vec -> Vec.
Variable normalize_L2 : Vec -> result Vec.
Variable search : Index -> Vec -> nat -> result (list Z).
Variable BASE_DIR : string.

Local Abbreviation explain :=
  (explain_decision Model Index Vec IndexFile ChunksFile
     SentenceTransformer read_index pickle_load encode is_float32
     astype_float32 normalize_L2 search BASE_DIR).

(** What the part behind the loaders returns, when it returns. *)
Lemma retrieve_and_explain_returns (model : Model) (index : Index)
    (chunks : list text) (reason_code out : text) :
  retrieve_and_explain Model Index Vec encode is_float32 astype_float32
    normalize_L2 search model index chunks reason_code = inr out ->
  exists indices,
    out = explanation_of reason_code
            (body_of
               (summary_of chunks
                  (filter (fun i => negb (Z.eqb i (-1))) indices)
                  (re_findall WORD (_code_to_query reason_code)))).
Proof.
  unfold retrieve_and_explain. cbv zeta.
  destruct (encode model [_code_to_query reason_code]) as [ e | qvec ];
    cbn [bind]; [ discriminate | ].
  destruct (normalize_L2 (if is_float32 qvec then qvec
                          else astype_float32 qvec)) as [ e | qvec' ];
    cbn [bind]; [ discriminate | ].
  destruct (search index qvec' TOP_K) as [ e | indices ];
    cbn [bind]; [ discriminate | ].
  intros [= <-]. exists indices. reflexivity.
Qed.

(** After a call that returned, the three globals are set, and the
    explanation is built from the cached chunks. *)
Lemma explain_returns_caches (d : disk IndexFile ChunksFile)
    (g g' : globals Model Index) (reason_code out : text) :
  explain d g reason_code = (inr out, g') ->
  exists model index chunks indices,
    _model g' = Some model /\ _index g' = Some index
    /\ _chunks g' = Some chunks
    /\ reason_code <> []
    /\ out = explanation_of reason_code
               (body_of
                  (summary_of chunks
                     (filter (fun i => negb (Z.eqb i (-1))) indices)
                     (re_findall WORD (_code_to_query reason_code)))).
Proof.
  unfold explain_decision.
  destruct reason_code as [ | c rc ]; [ discriminate | ].
  unfold _load_model, _load_index_and_chunks.
  destruct g as [gm gi gc]. cbn [_model _index _chunks].
  assert (Hfinish : forall model index chunks g0,
            _model g0 = Some model -> _index g0 = Some index ->
            _chunks g0 = Some chunks ->
            (retrieve_and_explain Model Index Vec encode is_float32
               astype_float32 normalize_L2 search model index chunks
               (c :: rc), g0) = (inr out, g') ->
            exists model index chunks indices,
              _model g' = Some model /\ _index g' = Some index
              /\ _chunks g' = Some chunks /\ c :: rc <> []
              /\ out = explanation_of (c :: rc)
                         (body_of
                            (summary_of chunks
                               (filter (fun i => negb (Z.eqb i (-1))) indices)
                               (re_findall WORD (_code_to_query (c :: rc)))))).
  { intros model index chunks g0 Hm Hi Hc [= Hout <-].
    destruct (retrieve_and_explain_returns _ _ _ _ _ Hout) as [indices ->].
    exists model, index, chunks, indices.
    repeat split; auto. discriminate. }
  destruct gm as [ m | ];
    [ | destruct (SentenceTransformer MODEL_NAME) as [ e | m ];
        [ discriminate | ] ];
    cbn [_model _index _chunks];
    (destruct gi as [ i | ];
     [ | destruct (vector_index d) as [ fi | ];
         [ destruct (read_index fi) as [ e | i ]; [ discriminate | ]
         | discriminate ] ]);
    cbn [_model _index _chunks ret];
    (destruct gc as [ ch | ];
     [ | destruct (chunks_pkl d) as [ fc | ];
         [ destruct (pickle_load fc) as [ e | ch ]; [ discriminate | ]
         | discriminate ] ]);
    cbn [_model _index _chunks ret];
    apply (Hfinish m i ch); reflexivity.
Qed.

(** X28: every sentence of the summary has passed through [_scrub_pii];
    the body of a returned explanation holds no run of five or more digits
    and no match of the handle pattern; and it holds no match of the email
    pattern either when no sentence of the summary holds a [%]. *)
Theorem explanation_body_is_scrubbed :
  forall d g reason_code out g',
    explain d g reason_code = (inr out, g') ->
    exists summary_sentences,
      out = explanation_of reason_code (body_of summary_sentences)
      /\ Forall scrubbed summary_sentences
      /\ ~ has_digit_run (body_of summary_sentences)
      /\ re_search HANDLE (body_of summary_sentences) = false
      /\ (Forall no_percent summary_sentences ->
          re_search EMAIL (body_of summary_sentences) = false).
Proof.
  intros d g reason_code out g' Hcall.
  destruct (explain_returns_caches _ _ _ _ _ Hcall)
    as (model & index & chunks & indices & _ & _ & _ & _ & ->).
  eexists. split; [ reflexivity | ].
  split; [ apply summary_of_scrubbed | ].
  split; [ apply body_of_scrubbed_clean, summary_of_scrubbed | ].
  split; [ apply body_of_scrubbed_clean, summary_of_scrubbed | ].
  intros Hp. apply body_of_no_email; [ apply summary_of_scrubbed | exact Hp ].
Qed.

End ExplainDecisionProofs.

(** C8: for the chunk that holds [a%@b.com12345] the digits are
    redacted, and the explanation that is returned holds [a%@b.com], which
    is in the chunk and which the email pattern matches. *)
Lemma explanation_keeps_email_like_token :
  explain_one_chunk (str "FRAUD_SIGNAL") = inr leaking_explanation
  /\ text_in (str "a%@b.com") pii_chunk = true
  /\ text_in (str "a%@b.com") leaking_explanation = true
  /\ re_search EMAIL leaking_explanation = true.
Proof. repeat split; vm_compute; reflexivity. Qed.

Lemma explanation_body_is_scrubbed_witness :
  explain_stub mail_disk no_globals (str "FRAUD_SIGNAL")
  = (inr mail_explanation, mail_globals)
  /\ exists summary_sentences,
       mail_explanation
       = explanation_of (str "FRAUD_SIGNAL") (body_of summary_sentences)
       /\ Forall scrubbed summary_sentences
       /\ ~ has_digit_run (body_of summary_sentences)
       /\ re_search HANDLE (body_of summary_sentences) = false
       /\ (Forall no_percent summary_sentences ->
           re_search EMAIL (body_of summary_sentences) = false).
Proof.
  split; [ vm_compute; reflexivity | ].
  apply (explanation_body_is_scrubbed unit unit unit unit (list text)
           (fun _ => ret tt) (fun _ => ret tt) (fun c => ret c)
           (fun _ _ => ret tt) (fun _ => true) (fun v => v)
           (fun v => ret v) (fun _ _ _ => ret [0%Z]) "rag"
           mail_disk no_globals (str "FRAUD_SIGNAL")
           mail_explanation mail_globals).
  vm_compute. reflexivity.
Defined.

End ExplainerProofs.

(* ================================================================== *)
(** * The audit log *)
(* ================================================================== *)

Module AuditLoggerProofs.
Import AuditLogger.

Lemma list_of_append (a b : string) :
  list_ascii_of_string (a ++ b)%string
  = list_ascii_of_string a ++ list_ascii_of_string b.
Proof.
  induction a as [ | c a IH ]; simpl; [ | rewrite IH ]; reflexivity.
Qed.

Lemma list_of_string_inj (a b : string) :
  list_ascii_of_string a = list_ascii_of_string b -> a = b.
Proof.
  intros H. rewrite <- (string_of_list_ascii_of_string a),
    <- (string_of_list_ascii_of_string b). now rewrite H.
Qed.

Lemma append_assoc (a b c : string) :
  ((a ++ b) ++ c)%string = (a ++ (b ++ c))%string.
Proof.
  induction a as [ | x a IH ]; simpl; [ | rewrite IH ]; reflexivity.
Qed.

Lemma append_nil_r (a : string) : (a ++ "")%string = a.
Proof.
  induction a as [ | x a IH ]; simpl; [ | rewrite IH ]; reflexivity.
Qed.

Lemma append_inv_head (p a b : string) :
  (p ++ a)%string = (p ++ b)%string -> a = b.
Proof.
  induction p as [ | x p IH ]; simpl; [ auto | ].
  intros [= H]. auto.
Qed.

Lemma append_inv_tail (a b q : string) :
  (a ++ q)%string = (b ++ q)%string -> a = b.
Proof.
  intros H. apply list_of_string_inj.
  apply (f_equal list_ascii_of_string) in H.
  rewrite !list_of_append in H. exact (app_inv_tail _ _ _ H).
Qed.

Lemma count_char_append (c : ascii) (a b : string) :
  count_char c (a ++ b)%string = count_char c a + count_char c b.
Proof.
  induction a as [ | x a IH ]; simpl; [ reflexivity | ].
  rewrite IH. lia.
Qed.

(** ** The hashed string *)

Lemma join_cons (sep p : string) (l : list string) :
  l <> [] -> join sep (p :: l) = (p ++ sep ++ join sep l)%string.
Proof. destruct l; [ contradiction | reflexivity ]. Qed.

(** [sep.join] around one element: what stands before and behind it does
    not depend on the element. *)
Lemma join_around (sep : string) (pre post : list string) (x : string) :
  join sep (pre ++ x :: post)
  = ((match pre with [] => "" | _ => join sep pre ++ sep end)
     ++ x
     ++ (match post with [] => "" | _ => sep ++ join sep post end))%string.
Proof.
  induction pre as [ | p pre IH ].
  - destruct post as [ | q post ]; simpl.
    + now rewrite append_nil_r.
    + reflexivity.
  - cbn [app].
    rewrite join_cons by (destruct pre; discriminate).
    rewrite IH.
    destruct pre as [ | p' pre ].
    + simpl. now rewrite !append_assoc.
    + rewrite (join_cons sep p (p' :: pre)) by discriminate.
      now rewrite !append_assoc.
Qed.

Lemma join_change_one (sep : string) (pre post : list string) (x y : string) :
  x <> y -> join sep (pre ++ x :: post) <> join sep (pre ++ y :: post).
Proof.
  intros Hne H. rewrite !join_around in H.
  apply append_inv_head, append_inv_tail in H. contradiction.
Qed.

(** C5 as stated fails: the two frames hold the same value under every
    label, in different column order, and their hashes differ. *)
Lemma feature_hash_depends_on_column_order :
  (forall label,
      feature_of frame_amount_first label = feature_of frame_is_qr_first label)
  /\ feature_str str_int frame_amount_first = "22000,1"
  /\ feature_str str_int frame_is_qr_first = "1,22000"
  /\ feature_hash_of str_int frame_amount_first
     = "105f6c7fc7d4edbc732612b748f207347ee409b27ffc34bf3ad88df0aa355e4d"
  /\ feature_hash_of str_int frame_is_qr_first
     = "462dbc1f1a8103ff184bcb8dfaaa35de6ed082acb6b44e7dc0566338b9db9bd5"
  /\ feature_hash_of str_int frame_amount_first
     <> feature_hash_of str_int frame_is_qr_first.
Proof.
  split.
  { intros label. unfold feature_of, frame_amount_first, frame_is_qr_first.
    cbn [columns rows index_of].
    destruct (String.eqb_spec label "amount") as [-> | Ha];
      [ reflexivity | ].
    destruct (String.eqb_spec label "is_qr") as [-> | Hq]; reflexivity. }
  split; [ vm_compute; reflexivity | ].
  split; [ vm_compute; reflexivity | ].
  split; [ vm_compute; reflexivity | ].
  split; [ vm_compute; reflexivity | ].
  vm_compute. discriminate.
Qed.

(** C5, amended: the hash is the SHA-256 hex digest of the comma-joined
    string forms of the cells in the frame's own column order; frames
    with the same cells in the same order get the same hash, whatever
    their labels; and a change of one cell to a value with another string
    form changes the string that is hashed. *)
Theorem feature_hash_follows_cell_order :
  forall (V : Type) (py_str : V -> string),
    (forall df : DataFrame V,
        feature_hash_of py_str df
        = Sha256.hexdigest
            (encode (join "," (map py_str (List.concat (rows df))))))
    /\ (forall df1 df2 : DataFrame V,
          values_flatten df1 = values_flatten df2 ->
          feature_hash_of py_str df1 = feature_hash_of py_str df2)
    /\ (forall (cols : list string) (pre post : list V) (v v' : V),
          py_str v <> py_str v' ->
          feature_str py_str {| columns := cols; rows := [pre ++ v :: post] |}
          <> feature_str py_str
               {| columns := cols; rows := [pre ++ v' :: post] |}).
Proof.
  intros V py_str. split; [ reflexivity | ]. split.
  - intros df1 df2 H. unfold feature_hash_of, feature_str. now rewrite H.
  - intros cols pre post v v' Hne.
    unfold feature_str, values_flatten. cbn [rows List.concat].
    rewrite !app_nil_r, !map_app. cbn [map].
    apply join_change_one. exact Hne.
Qed.

Lemma feature_hash_follows_cell_order_witness :
  feature_hash_of str_int frame_amount_first
  = feature_hash_of str_int
      {| columns := ["is_qr"; "amount"]; rows := [[22000%Z; 1%Z]] |}
  /\ feature_str str_int {| columns := ["amount"; "is_qr"];
                            rows := [[] ++ 22000%Z :: [1%Z]] |}
     <> feature_str str_int {| columns := ["amount"; "is_qr"];
                               rows := [[] ++ 22001%Z :: [1%Z]] |}.
Proof.
  pose proof (feature_hash_follows_cell_order Z str_int) as (_ & Hsame & Hone).
  split.
  - apply Hsame. reflexivity.
  - apply Hone. vm_compute. discriminate.
Defined.

(** ** One line per record *)

Lemma escape_char_one_line (c : ascii) : count_char lf (escape_char c) = 0.
Proof.
  destruct c as [ [ | ] [ | ] [ | ] [ | ] [ | ] [ | ] [ | ] [ | ] ];
    vm_compute; reflexivity.
Qed.

Lemma escape_one_line (s : string) : count_char lf (escape s) = 0.
Proof.
  induction s as [ | c s IH ]; [ reflexivity | ].
  cbn [escape]. rewrite count_char_append, escape_char_one_line, IH.
  reflexivity.
Qed.

Lemma json_string_one_line (s : string) : count_char lf (json_string s) = 0.
Proof.
  unfold json_string. rewrite !count_char_append, escape_one_line.
  reflexivity.
Qed.

Lemma join_one_line (sep : string) (l : list string) :
  count_char lf sep = 0 ->
  Forall (fun x => count_char lf x = 0) l ->
  count_char lf (join sep l) = 0.
Proof.
  intros Hsep. induction l as [ | x l IH ]; intros Hall; [ reflexivity | ].
  inversion Hall as [ | ? ? Hx Hl ]; subst.
  destruct l as [ | y l ]; [ exact Hx | ].
  rewrite join_cons by discriminate.
  rewrite !count_char_append, Hx, Hsep, (IH Hl). reflexivity.
Qed.

Lemma json_object_one_line (items : list (string * string)) :
  Forall (fun kv => count_char lf (snd kv) = 0) items ->
  count_char lf (json_object items) = 0.
Proof.
  intros Hall. unfold json_object.
  rewrite !count_char_append, join_one_line; [ reflexivity | reflexivity | ].
  apply Forall_map. eapply Forall_impl; [ | exact Hall ].
  intros [k v] Hv. cbn [fst snd] in Hv |- *.
  rewrite !count_char_append, json_string_one_line, Hv. reflexivity.
Qed.

Lemma log_text_append (logs : logs_dir) (s : string) :
  log_text (append_text (mkdir_exist_ok logs) s)
  = (log_text logs ++ s)%string.
Proof. destruct logs as [ | [ content | ] ]; reflexivity. Qed.

Section OneLinePerRecord.

Context {V : Type}.
Variable py_str : V -> string.
Variable float_repr : float -> string.
Hypothesis float_repr_one_line : forall f, count_char lf (float_repr f) = 0.

Lemma json_float_one_line (f : float) :
  count_char lf (json_float float_repr f) = 0.
Proof.
  unfold json_float.
  destruct (is_nan f); [ reflexivity | ].
  destruct (PrimFloat.eqb f infinity); [ reflexivity | ].
  destruct (PrimFloat.eqb f neg_infinity); [ reflexivity | ].
  apply float_repr_one_line.
Qed.

Lemma json_dumps_one_line (r : audit_record) :
  count_char lf (json_dumps float_repr r) = 0.
Proof.
  unfold json_dumps. apply json_object_one_line.
  repeat constructor; cbn [snd];
    try apply json_string_one_line; try apply json_float_one_line.
  apply json_object_one_line. apply Forall_map.
  apply Forall_forall. intros kv _. cbn [snd]. apply json_string_one_line.
Qed.

Lemma line_of_one_line (c : call) :
  count_char lf (line_of py_str float_repr c) = 1.
Proof.
  unfold line_of. rewrite count_char_append, json_dumps_one_line.
  reflexivity.
Qed.

Lemma log_text_run_call (logs : logs_dir) (c : call) :
  log_text (run_call py_str float_repr logs c)
  = (log_text logs ++ line_of py_str float_repr c)%string.
Proof. unfold run_call, log_decision. apply log_text_append. Qed.

(** C6: a call of [log_decision] leaves what the log held in place and
    puts one record, on one line of its own, behind it; so after any
    sequence of calls the log is what it was followed by the records of
    the calls in the order of the calls, one line for each. *)
Theorem audit_log_append_only :
  forall (calls : list call) (logs : logs_dir),
    log_text (fold_left (run_call py_str float_repr) calls logs)
    = (log_text logs
       ++ String.concat "" (map (line_of py_str float_repr) calls))%string
    /\ count_char lf
         (log_text (fold_left (run_call py_str float_repr) calls logs))
       = count_char lf (log_text logs) + List.length calls
    /\ Forall (fun c =>
                 exists record,
                   line_of py_str float_repr c
                   = (json_dumps float_repr record ++ LF)%string
                   /\ count_char lf (json_dumps float_repr record) = 0)
              calls.
Proof.
  intros calls.
  assert (Hlog : forall logs,
            log_text (fold_left (run_call py_str float_repr) calls logs)
            = (log_text logs
               ++ String.concat "" (map (line_of py_str float_repr) calls))%string).
  { induction calls as [ | c calls IH ]; intros logs.
    - simpl. now rewrite append_nil_r.
    - cbn [fold_left map]. rewrite IH, log_text_run_call, append_assoc.
      f_equal. destruct calls as [ | c' calls ].
      + simpl. now rewrite append_nil_r.
      + reflexivity. }
  intros logs. split; [ apply Hlog | ]. split.
  - rewrite Hlog, count_char_append. f_equal.
    clear Hlog. induction calls as [ | c calls IH ]; [ reflexivity | ].
    cbn [map List.length].
    destruct calls as [ | c' calls ].
    + simpl. apply line_of_one_line.
    + change (String.concat "" (line_of py_str float_repr c
                :: map (line_of py_str float_repr) (c' :: calls)))
        with (line_of py_str float_repr c ++ ""
              ++ String.concat "" (map (line_of py_str float_repr) (c' :: calls)))%string.
      rewrite !count_char_append, line_of_one_line, IH. reflexivity.
  - apply Forall_forall. intros c _. eexists. split; [ reflexivity | ].
    apply json_dumps_one_line.
Qed.

End OneLinePerRecord.

Lemma sample_float_repr_one_line (f : float) :
  count_char lf (sample_float_repr f) = 0.
Proof.
  unfold sample_float_repr.
  destruct (PrimFloat.eqb f 0.9); [ reflexivity | ].
  destruct (PrimFloat.eqb f (-0.2)); reflexivity.
Qed.

Lemma audit_log_append_only_witness :
  log_text (fold_left (run_call str_int sample_float_repr)
              [sample_call; sample_call] Absent)
  = (line_of str_int sample_float_repr sample_call
     ++ line_of str_int sample_float_repr sample_call)%string
  /\ count_char lf
       (log_text (fold_left (run_call str_int sample_float_repr)
                    [sample_call; sample_call] Absent)) = 2.
Proof.
  pose proof (audit_log_append_only str_int sample_float_repr
                sample_float_repr_one_line [sample_call; sample_call] Absent)
    as (Hlog & Hcount & _).
  split; [ | exact Hcount ].
  rewrite Hlog. reflexivity.
Defined.

End AuditLoggerProofs.

(* ================================================================== *)
(** * Malformed input *)
(* ================================================================== *)

Module ValidationProofs.
Import DecisionEngine Explainer.

Lemma index_of_absent (c : string) (cols : list string) :
  ~ In c cols -> index_of c cols = None.
Proof.
  induction cols as [ | c' cols IH ]; intros Hnot; [ reflexivity | ].
  cbn [index_of].
  destruct (String.eqb_spec c c') as [-> | Hne].
  - exfalso. apply Hnot. now left.
  - rewrite IH; [ reflexivity | ]. intros Hin. apply Hnot. now right.
Qed.

Lemma getitem_absent {V : Type} (df : DataFrame V) (c : string) :
  ~ In c (columns df) -> getitem df c = raise (KeyError c).
Proof. intros H. unfold getitem. now rewrite (index_of_absent _ _ H). Qed.

(** C4 as stated fails: the frame that the /decision endpoint builds has
    one row and no column [beneficiary_is_new]; with both models returning
    their scores, [make_decision] raises the KeyError of the column
    lookup, which is no ValueError. *)
Lemma missing_field_raises_key_error :
  ~ In "beneficiary_is_new" (columns endpoint_frame)
  /\ List.length (rows endpoint_frame) = 1
  /\ make_decision_stub (PyDataFrame endpoint_frame)
     = raise (KeyError "beneficiary_is_new")
  /\ exn_class (KeyError "beneficiary_is_new") = "KeyError"
  /\ (forall msg, KeyError "beneficiary_is_new" <> ValueError msg).
Proof.
  split.
  { cbn. intros H. repeat destruct H as [ H | H ]; discriminate || exact H. }
  split; [ reflexivity | ]. split; [ vm_compute; reflexivity | ].
  split; [ reflexivity | ]. intros msg. discriminate.
Qed.

(** C4, amended: malformed input raises and no decision or explanation
    is returned.  [make_decision] raises ValueError on what is no
    DataFrame and on a frame whose row count is not one;
    [explain_decision] raises ValueError on the empty reason code and
    leaves the globals as they were.  A frame without the column [is_qr]
    or [beneficiary_is_new] never gets a decision, but the exception is
    no validation error of [make_decision]: for a frame of one row it is
    what the fraud model raised, else what the anomaly model raised, and
    when both returned it is the KeyError of the first column lookup that
    fails. *)
Theorem malformed_input_raises :
  forall (V : Type) (py_int : V -> result Z) (fm : fraud_model V)
         (decision_function : DataFrame V -> result float),
    (forall type_name,
        make_decision py_int fm decision_function (PyOther type_name)
        = raise (ValueError "feature_row must be a pandas DataFrame"))
    /\ (forall df,
          List.length (rows df) <> 1 ->
          make_decision py_int fm decision_function (PyDataFrame df)
          = raise (ValueError "feature_row must contain exactly one row"))
    /\ (forall df,
          ~ In "is_qr" (columns df)
          \/ ~ In "beneficiary_is_new" (columns df) ->
          exists e,
            make_decision py_int fm decision_function (PyDataFrame df)
            = raise e)
    /\ (forall df,
          List.length (rows df) = 1 ->
          (forall e,
              fraud_probability_of fm df = raise e ->
              make_decision py_int fm decision_function (PyDataFrame df)
              = raise e)
          /\ (forall fp e,
                fraud_probability_of fm df = ret fp ->
                decision_function df = raise e ->
                make_decision py_int fm decision_function (PyDataFrame df)
                = raise e)
          /\ (forall fp an,
                fraud_probability_of fm df = ret fp ->
                decision_function df = ret an ->
                (~ In "is_qr" (columns df) ->
                 make_decision py_int fm decision_function (PyDataFrame df)
                 = raise (KeyError "is_qr"))
                /\ (forall q,
                      (col <- getitem df "is_qr" ;; cell <- iloc0 col ;;
                       py_int cell) = ret q ->
                      ~ In "beneficiary_is_new" (columns df) ->
                      make_decision py_int fm decision_function
                        (PyDataFrame df)
                      = raise (KeyError "beneficiary_is_new"))))
    /\ (forall (Model Index Vec IndexFile ChunksFile : Type)
               SentenceTransformer read_index pickle_load encode is_float32
               astype_float32 normalize_L2 search BASE_DIR
               (d : disk IndexFile ChunksFile) (g : globals Model Index),
          explain_decision Model Index Vec IndexFile ChunksFile
            SentenceTransformer read_index pickle_load encode
            is_float32 astype_float32 normalize_L2 search BASE_DIR d g []
          = (raise (ValueError "reason_code must be a non-empty string"), g)).
Proof.
  intros V py_int fm decision_function.
  split; [ reflexivity | ]. split.
  { intros df Hrows. unfold make_decision.
    destruct (Nat.eqb_spec (List.length (rows df)) 1); [ contradiction | ].
    reflexivity. }
  split.
  { intros df Hmissing. unfold make_decision.
    destruct (negb (List.length (rows df) =? 1)); [ eexists; reflexivity | ].
    cbv zeta.
    destruct (fraud_probability_of fm df) as [ e | fp ];
      [ eexists; reflexivity | ].
    destruct (decision_function df) as [ e | an ];
      [ eexists; reflexivity | ].
    cbn [bind].
    destruct (col <- getitem df "is_qr" ;; cell <- iloc0 col ;; py_int cell)
      as [ e | q ] eqn:Hq; [ eexists; reflexivity | ].
    destruct Hmissing as [Hno | Hno].
    - rewrite (getitem_absent df _ Hno) in Hq. discriminate.
    - cbn [bind]. rewrite (getitem_absent df _ Hno).
      eexists; reflexivity. }
  split.
  { intros df Hrows. unfold make_decision. rewrite Hrows.
    cbn [Nat.eqb negb]. split; [ | split ].
    - intros e Hfp. rewrite Hfp. reflexivity.
    - intros fp e Hfp Han. rewrite Hfp, Han. reflexivity.
    - intros fp an Hfp Han. rewrite Hfp, Han. cbn [bind ret]. split.
      + intros Hno. rewrite (getitem_absent df _ Hno). reflexivity.
      + intros q Hq Hno. rewrite Hq. cbn [bind ret].
        rewrite (getitem_absent df _ Hno). reflexivity. }
  reflexivity.
Qed.

Lemma malformed_input_raises_witness :
  make_decision_stub (PyDataFrame endpoint_frame)
  = raise (KeyError "beneficiary_is_new")
  /\ make_decision_stub
       (PyDataFrame {| columns := columns endpoint_frame; rows := [] |})
     = raise (ValueError "feature_row must contain exactly one row").
Proof.
  pose proof (malformed_input_raises Z (fun z => ret z)
                (HasPredictProba (fun _ => ret 0.9%float))
                (fun _ => ret (-0.2)%float))
    as (_ & Hrows & _ & Hmissing & _).
  split.
  - apply (proj2 (proj2 (proj2 (Hmissing endpoint_frame eq_refl))
                    0.9%float (-0.2)%float eq_refl eq_refl) 1%Z).
    + reflexivity.
    + vm_compute. intros H. repeat destruct H as [ H | H ]; discriminate || exact H.
  - apply Hrows. discriminate.
Defined.

End ValidationProofs.

(* ================================================================== *)
(** * The rule layer: order of the scores, role of the flags *)
(* ================================================================== *)

Module RuleOrderProofs.
Import DecisionEngine Props.

(** The order of IEEE comparison is transitive (NaN is below and above
    nothing). *)
Lemma SFleb_trans (a b c : SpecFloat.spec_float) :
  SpecFloat.SFleb a b = true -> SpecFloat.SFleb b c = true ->
  SpecFloat.SFleb a c = true.
Proof.
  unfold SpecFloat.SFleb, SpecFloat.SFcompare.
  destruct a as [ sa | sa | | sa ma ea ], b as [ sb | sb | | sb mb eb ],
    c as [ sc | sc | | sc mc ec ];
    try destruct sa; try destruct sb; try destruct sc;
    try reflexivity; try discriminate.
  all: rewrite ?Pos.compare_cont_spec; cbn [Pos.switch_Eq].
  all: destruct (Z.compare_spec ea eb), (Z.compare_spec eb ec),
         (Z.compare_spec ea ec);
       try reflexivity; try discriminate; try lia; subst.
  all: destruct (Pos.compare_spec ma mb), (Pos.compare_spec mb mc),
         (Pos.compare_spec ma mc);
       cbn; try reflexivity; try discriminate; try lia.
Qed.

Lemma float_le_trans (x y z : float) :
  float_le x y = true -> float_le y z = true -> float_le x z = true.
Proof.
  unfold float_le. rewrite !FloatAxioms.leb_spec. apply SFleb_trans.
Qed.

Lemma float_ge_above (x y t : float) :
  float_le x y = true -> float_ge x t = true -> float_ge y t = true.
Proof.
  unfold float_ge. intros Hxy Ht. exact (float_le_trans t x y Ht Hxy).
Qed.

Lemma float_le_below (x y t : float) :
  float_le y x = true -> float_le x t = true -> float_le y t = true.
Proof. intros Hyx Ht. exact (float_le_trans y x t Hyx Ht). Qed.

(** The hard thresholds lie within the soft ones. *)
Lemma high_fraud_is_soft_fraud (fp : float) :
  float_ge fp 0.7 = true -> float_ge fp 0.5 = true.
Proof.
  unfold float_ge. intros H.
  apply (float_le_trans 0.5 0.7 fp); [ reflexivity | exact H ].
Qed.

Lemma high_anomaly_is_soft_anomaly (an : float) :
  float_le an (-0.15) = true -> float_le an (-0.10) = true.
Proof.
  intros H. apply (float_le_trans an (-0.15) (-0.10)); [ exact H | reflexivity ].
Qed.

(** X1: a higher fraud probability or a lower anomaly score never lowers
    the decision: with the flags fixed, the decision is monotone in the
    two scores (ALLOW below SOFT_BLOCK below HARD_BLOCK). *)
Theorem decision_monotone_in_scores :
  forall (fp fp' an an' : float) (q b : Z),
    float_le fp fp' = true ->
    float_le an' an = true ->
    severity (fst (_apply_decision_rules fp an q b))
    <= severity (fst (_apply_decision_rules fp' an' q b)).
Proof.
  intros fp fp' an an' q b Hfp Han.
  pose proof (float_ge_above fp fp' 0.7 Hfp) as H1.
  pose proof (float_ge_above fp fp' 0.5 Hfp) as H2.
  pose proof (float_le_below an an' (-0.15) Han) as H3.
  pose proof (float_le_below an an' (-0.10) Han) as H4.
  pose proof (high_fraud_is_soft_fraud fp') as H5.
  pose proof (high_anomaly_is_soft_anomaly an') as H6.
  unfold _apply_decision_rules, HIGH_FRAUD_THRESHOLD, SOFT_FRAUD_THRESHOLD,
    HIGH_ANOMALY_THRESHOLD, SOFT_ANOMALY_THRESHOLD.
  destruct (float_ge fp 0.7); [ rewrite (H1 eq_refl) in * | ];
  (destruct (float_ge fp 0.5); [ rewrite (H2 eq_refl) in * | ]);
  (destruct (float_le an (-0.15)); [ rewrite (H3 eq_refl) in * | ]);
  (destruct (float_le an (-0.10)); [ rewrite (H4 eq_refl) in * | ]);
  destruct (float_ge fp' 0.7); try rewrite (H5 eq_refl);
  destruct (float_ge fp' 0.5);
  destruct (float_le an' (-0.15)); try rewrite (H6 eq_refl);
  destruct (float_le an' (-0.10));
  destruct (Z.eqb q 1), (Z.eqb b 1);
  cbn; lia.
Qed.

Lemma decision_monotone_in_scores_witness :
  float_le 0.6 0.9 = true
  /\ float_le (-0.2) (-0.05) = true
  /\ severity (fst (_apply_decision_rules 0.6 (-0.05) 1 1))
     <= severity (fst (_apply_decision_rules 0.9 (-0.2) 1 1)).
Proof.
  split; [ reflexivity | ]. split; [ reflexivity | ].
  apply (decision_monotone_in_scores 0.6 0.9 (-0.05) (-0.2) 1 1);
    reflexivity.
Defined.

(** X2: the two flags only grade a block.  Whatever the scores, changing
    is_qr and beneficiary_is_new never turns ALLOW into a block or a block
    into ALLOW; and a HARD_BLOCK whose flags are changed so that one of
    them is not 1 becomes SOFT_BLOCK with the reason code
    FRAUD_SIGNAL_ANOMALY_SIGNAL. *)
Theorem flags_only_grade_a_block :
  forall (fp an : float) (q b q' b' : Z),
    (fst (_apply_decision_rules fp an q b) = "ALLOW"
     <-> fst (_apply_decision_rules fp an q' b') = "ALLOW")
    /\ (fst (_apply_decision_rules fp an q b) = "HARD_BLOCK" ->
        Z.eqb q' 1 && Z.eqb b' 1 = false ->
        _apply_decision_rules fp an q' b'
        = ("SOFT_BLOCK", "FRAUD_SIGNAL_ANOMALY_SIGNAL")).
Proof.
  intros fp an q b q' b'.
  pose proof (high_fraud_is_soft_fraud fp) as H5.
  pose proof (high_anomaly_is_soft_anomaly an) as H6.
  unfold _apply_decision_rules, HIGH_FRAUD_THRESHOLD, SOFT_FRAUD_THRESHOLD,
    HIGH_ANOMALY_THRESHOLD, SOFT_ANOMALY_THRESHOLD.
  destruct (float_ge fp 0.7); try rewrite (H5 eq_refl);
  destruct (float_ge fp 0.5);
  destruct (float_le an (-0.15)); try rewrite (H6 eq_refl);
  destruct (float_le an (-0.10));
  destruct (Z.eqb q 1), (Z.eqb b 1), (Z.eqb q' 1), (Z.eqb b' 1);
  cbn; (split; [ split; intros H; try reflexivity; try discriminate
               | intros H H'; try reflexivity; try discriminate ]).
Qed.

End RuleOrderProofs.

(* ================================================================== *)
(** * make_decision: when it returns, and what *)
(* ================================================================== *)

Module MakeDecisionProofs.
Import DecisionEngine Props.

Section Reads.

Context {V : Type}.
Variable py_int : V -> result Z.

(** Reading [int(df[c].iloc[0])] off a frame of one row. *)
Lemma read_cell_iff (df : DataFrame V) (c : string) (z : Z) :
  List.length (rows df) = 1 ->
  ((col <- getitem df c ;; cell <- iloc0 col ;; py_int cell) = ret z
   <-> int_cell py_int df c z).
Proof.
  intros Hlen. unfold int_cell, getitem.
  destruct (rows df) as [ | row [ | row' rest ] ] eqn:Hrows;
    try discriminate Hlen.
  destruct (index_of c (columns df)) as [ i | ]; cbn.
  - destruct (nth_error row i) as [ v | ] eqn:Hv; cbn.
    + split.
      * intros H. exists i, row, v. auto.
      * intros (i' & row'' & v' & [= <-] & [= <-] & Hv' & Hz).
        rewrite Hv in Hv'. injection Hv' as <-. exact Hz.
    + split; [ discriminate | ].
      intros (i' & row'' & v' & [= <-] & [= <-] & Hv' & _). congruence.
  - split; [ discriminate | ].
    intros (i' & row'' & v' & Hi & _). discriminate Hi.
Qed.

End Reads.

(** X3: [make_decision] returns a decision exactly when its argument is a
    frame of one row, both models return a score, and the row has under
    is_qr and under beneficiary_is_new a cell that [int] accepts.  The
    decision then carries the two model scores unchanged, and its category
    and reason code are those of the rule function on the scores and the
    two flags. *)
Theorem make_decision_returns_iff :
  forall (V : Type) (py_int : V -> result Z) (fm : fraud_model V)
         (decision_function : DataFrame V -> result float)
         (feature_row : pyobj V) (d : Decision),
    make_decision py_int fm decision_function feature_row = ret d
    <-> exists df fp an q b,
          feature_row = PyDataFrame df
          /\ List.length (rows df) = 1
          /\ fraud_probability_of fm df = ret fp
          /\ decision_function df = ret an
          /\ int_cell py_int df "is_qr" q
          /\ int_cell py_int df "beneficiary_is_new" b
          /\ d = {| decision := fst (_apply_decision_rules fp an q b);
                    risk_score := fp;
                    anomaly_score := an;
                    reason_code := snd (_apply_decision_rules fp an q b) |}.
Proof.
  intros V py_int fm decision_function feature_row d.
  unfold make_decision.
  destruct feature_row as [ df | name ].
  2:{ split; [ discriminate | ].
      intros (df & fp & an & q & b & Hx & _). discriminate Hx. }
  destruct (Nat.eqb_spec (List.length (rows df)) 1) as [Hlen | Hlen];
    cbn [negb].
  2:{ split; [ discriminate | ].
      intros (df' & fp & an & q & b & [= <-] & Hlen' & _). contradiction. }
  destruct (fraud_probability_of fm df) as [ e1 | fp ] eqn:Hfp; cbn [bind].
  { split; [ discriminate | ].
    intros (df' & fp & an & q & b & [= <-] & _ & Hfp' & _).
    rewrite Hfp in Hfp'. discriminate Hfp'. }
  destruct (decision_function df) as [ e2 | an ] eqn:Han; cbn [bind].
  { split; [ discriminate | ].
    intros (df' & fp' & an & q & b & [= <-] & _ & _ & Han' & _).
    rewrite Han in Han'. discriminate Han'. }
  destruct (col <- getitem df "is_qr" ;; cell <- iloc0 col ;; py_int cell)
    as [ e3 | q ] eqn:Hrq; cbn [bind].
  { split; [ discriminate | ].
    intros (df' & fp' & an' & q & b & [= <-] & _ & _ & _ & Hq' & _).
    apply (read_cell_iff py_int df _ q Hlen) in Hq'. rewrite Hrq in Hq'. discriminate Hq'. }
  destruct (col <- getitem df "beneficiary_is_new" ;;
            cell <- iloc0 col ;; py_int cell)
    as [ e4 | b ] eqn:Hrb; cbn [bind].
  { split; [ discriminate | ].
    intros (df' & fp' & an' & q' & b & [= <-] & _ & _ & _ & _ & Hb' & _).
    apply (read_cell_iff py_int df _ b Hlen) in Hb'. rewrite Hrb in Hb'. discriminate Hb'. }
  destruct (_apply_decision_rules fp an q b) as [dec rc] eqn:Hrules.
  split.
  - intros [= <-]. exists df, fp, an, q, b.
    rewrite Hrules. cbn [fst snd].
    repeat split; auto.
    + apply (read_cell_iff py_int df _ q Hlen). exact Hrq.
    + apply (read_cell_iff py_int df _ b Hlen). exact Hrb.
  - intros (df' & fp' & an' & q' & b' & [= <-] & _ & Hfp' & Han' & Hq' & Hb'
            & ->).
    apply (read_cell_iff py_int df _ q' Hlen) in Hq'.
    apply (read_cell_iff py_int df _ b' Hlen) in Hb'.
    rewrite Hfp in Hfp'. rewrite Han in Han'.
    rewrite Hrq in Hq'. rewrite Hrb in Hb'.
    injection Hfp' as <-. injection Han' as <-.
    injection Hq' as <-. injection Hb' as <-.
    rewrite Hrules. reflexivity.
Qed.

End MakeDecisionProofs.

(* ================================================================== *)
(** * api/main.py: the endpoints *)
(* ================================================================== *)

Module ApiProofs.
Import DecisionEngine PyDict Explainer Api Props.

(** Without a column beneficiary_is_new, [make_decision] raises. *)
Lemma make_decision_needs_beneficiary_is_new {V : Type}
    (py_int : V -> result Z) (fm : fraud_model V)
    (decision_function : DataFrame V -> result float) (df : DataFrame V) :
  index_of "beneficiary_is_new" (columns df) = None ->
  exists e, make_decision py_int fm decision_function (PyDataFrame df) = inl e.
Proof.
  intros Hcol. unfold make_decision.
  destruct (negb (Nat.eqb (List.length (rows df)) 1)); [ eexists; reflexivity | ].
  destruct (fraud_probability_of fm df); cbn [bind]; [ eexists; reflexivity | ].
  destruct (decision_function df); cbn [bind]; [ eexists; reflexivity | ].
  destruct (col <- getitem df "is_qr" ;; cell <- iloc0 col ;; py_int cell);
    cbn [bind]; [ eexists; reflexivity | ].
  unfold getitem. rewrite Hcol. eexists. reflexivity.
Qed.

(** X4: the /decision endpoint answers SAFE_ALLOW_RESPONSE (ALLOW, both
    scores 0.0, INPUT_VALIDATION_FAILED) to every payload, whatever the two
    models return or raise, and stores no transaction: the frame it builds
    has no column beneficiary_is_new, which [make_decision] reads. *)
Theorem decision_endpoint_always_safe_allow :
  forall (py_int : cell -> result Z) (fm : fraud_model cell)
         (decision_function : DataFrame cell -> result float)
         (uuid_hex now : string) (payload : TransactionPayload)
         (TRANSACTIONS : list Dict),
    get_fraud_decision py_int fm decision_function uuid_hex now payload
      TRANSACTIONS
    = (SAFE_ALLOW_RESPONSE, TRANSACTIONS).
Proof.
  intros py_int fm decision_function uuid_hex now payload TRANSACTIONS.
  unfold get_fraud_decision.
  destruct (make_decision_needs_beneficiary_is_new py_int fm
              decision_function (feature_row_of payload)) as [e He];
    [ reflexivity | ].
  rewrite He. reflexivity.
Qed.

(** X5: the analyst queue stays empty.  From a fresh store, after any run
    of /decision requests, GET /transactions answers the empty list for
    every filter. *)
Theorem transaction_queue_stays_empty :
  forall (py_int : cell -> result Z) (fm : fraud_model cell)
         (decision_function : DataFrame cell -> result float)
         (requests : list (string * string * TransactionPayload))
         (filter : string),
    get_transactions filter
      (after_requests py_int fm decision_function requests [])
    = ret [].
Proof.
  intros py_int fm decision_function requests filter.
  assert (Hkeep : forall st,
            after_requests py_int fm decision_function requests st = st).
  { induction requests as [ | [[uuid_hex now] payload] requests IH ];
      intros st; [ reflexivity | ].
    cbn [after_requests fold_left]. unfold after_requests in IH.
    destruct (make_decision_needs_beneficiary_is_new py_int fm
                decision_function (feature_row_of payload)) as [e He];
      [ reflexivity | ].
    unfold get_fraud_decision. rewrite He. cbn [snd]. apply IH. }
  rewrite Hkeep. unfold get_transactions, list_transactions.
  destruct (String.eqb filter "ALL"); reflexivity.
Qed.

Lemma explanation_is_not_the_fallback (reason_code body : text) :
  explanation_of reason_code body <> UNAVAILABLE.
Proof.
  unfold explanation_of, UNAVAILABLE. cbn. discriminate.
Qed.

Section ExplainEndpointProofs.

Variables Model Index Vec IndexFile ChunksFile : Type.
Variable SentenceTransformer : string -> result Model.
Variable read_index : IndexFile -> result Index.
Variable pickle_load : ChunksFile -> result (list text).
Variable encode : Model -> list text -> result Vec.
Variable is_float32 : Vec -> bool.
Variable astype_float32 : Vec -> Vec.
Variable normalize_L2 : Vec -> result Vec.
Variable search : Index -> Vec -> nat -> result (list Z).
Variable BASE_DIR : string.

Local Abbreviation explain_decision' :=
  (explain_decision Model Index Vec IndexFile ChunksFile
     SentenceTransformer read_index pickle_load encode is_float32
     astype_float32 normalize_L2 search BASE_DIR).
Local Abbreviation endpoint :=
  (explain Model Index Vec IndexFile ChunksFile
     SentenceTransformer read_index pickle_load encode is_float32
     astype_float32 normalize_L2 search BASE_DIR).

(** X6: the /explain endpoint echoes the reason code, leaves the globals
    as [explain_decision] left them, hands on the explanation when
    [explain_decision] returns one, and answers with the sentence
    "Explanation temporarily unavailable." exactly when [explain_decision]
    raises: no explanation that is returned reads like the fallback. *)
Theorem explain_endpoint_falls_back_iff_raise :
  forall (d : disk IndexFile ChunksFile) (g : globals Model Index)
         (reason_code : text),
    response_reason_code (fst (endpoint d g reason_code)) = reason_code
    /\ snd (endpoint d g reason_code) = snd (explain_decision' d g reason_code)
    /\ (forall out, fst (explain_decision' d g reason_code) = inr out ->
          explanation (fst (endpoint d g reason_code)) = out)
    /\ (explanation (fst (endpoint d g reason_code)) = UNAVAILABLE
        <-> exists e, fst (explain_decision' d g reason_code) = inl e).
Proof.
  intros d g reason_code. unfold explain.
  pose proof (ExplainerProofs.explain_returns_caches Model Index Vec
                IndexFile ChunksFile SentenceTransformer read_index
                pickle_load encode is_float32 astype_float32
                normalize_L2 search BASE_DIR d g) as Hret.
  destruct (explain_decision' d g reason_code) as [ [ e | out ] g' ] eqn:Hcall;
    cbn [fst snd response_reason_code explanation].
  - split; [ reflexivity | ]. split; [ reflexivity | ].
    split; [ discriminate | ].
    split; [ intros _; exists e; reflexivity | reflexivity ].
  - split; [ reflexivity | ]. split; [ reflexivity | ].
    split; [ intros out' [= <-]; reflexivity | ].
    split; [ | intros [e He]; discriminate He ].
    intros Hout.
    destruct (Hret g' reason_code out Hcall)
      as (model & index & chunks & indices & _ & _ & _ & _ & Heq).
    rewrite Heq in Hout.
    exfalso. exact (explanation_is_not_the_fallback _ _ Hout).
Qed.

End ExplainEndpointProofs.

End ApiProofs.

(* ================================================================== *)
(** * The in-memory stores *)
(* ================================================================== *)

Module StoreProofs.
Import PyDict Props.

Lemma dict_get_set_same (d : Dict) (k : string) (v : pyval) :
  dict_get (dict_set d k v) k = ret v.
Proof.
  induction d as [ | [k' v'] d IH ]; cbn [dict_set dict_get].
  - rewrite String.eqb_refl. reflexivity.
  - destruct (String.eqb k k') eqn:Hk; cbn [dict_get]; rewrite Hk;
      [ reflexivity | exact IH ].
Qed.

Lemma dict_get_set_other (d : Dict) (k k0 : string) (v : pyval) :
  k0 <> k -> dict_get (dict_set d k v) k0 = dict_get d k0.
Proof.
  intros Hne.
  induction d as [ | [k' v'] d IH ]; cbn [dict_set dict_get].
  - destruct (String.eqb_spec k0 k); [ contradiction | reflexivity ].
  - destruct (String.eqb_spec k k') as [ <- | Hk ]; cbn [dict_get].
    + destruct (String.eqb_spec k0 k); [ contradiction | reflexivity ].
    + destruct (String.eqb k0 k'); [ reflexivity | exact IH ].
Qed.

Lemma In_keys_dict_set (d : Dict) (k k0 : string) (v : pyval) :
  In k0 (keys (dict_set d k v)) <-> In k0 (keys d) \/ k0 = k.
Proof.
  unfold keys.
  induction d as [ | [k' v'] d IH ]; cbn [dict_set map fst In].
  - intuition auto.
  - destruct (String.eqb_spec k k') as [ <- | Hk ]; cbn [map fst In].
    + intuition auto.
    + rewrite IH. tauto.
Qed.

Lemma NoDup_keys_dict_set (d : Dict) (k : string) (v : pyval) :
  NoDup (keys d) -> NoDup (keys (dict_set d k v)).
Proof.
  unfold keys.
  induction d as [ | [k' v'] d IH ]; intros Hnd; cbn [dict_set map fst].
  - constructor; [ intros [] | constructor ].
  - inversion Hnd as [ | ? ? Hnotin Hrest ]; subst.
    destruct (String.eqb_spec k k') as [ <- | Hk ]; cbn [map fst].
    + constructor; assumption.
    + constructor; [ | apply IH, Hrest ].
      intros Hin. apply (In_keys_dict_set d k k' v) in Hin.
      destruct Hin as [Hin | Heq]; [ exact (Hnotin Hin) | congruence ].
Qed.

Lemma has_key_In (k : string) (t : Dict) :
  has_key k t = true <-> In k (keys t).
Proof.
  unfold has_key. rewrite existsb_exists. split.
  - intros (x & Hin & Heq). apply String.eqb_eq in Heq. now subst.
  - intros Hin. exists k. split; [ exact Hin | apply String.eqb_refl ].
Qed.

(** X7: the analyst-action log stamps the server's time.  [log_action]
    appends exactly one record and leaves the earlier ones as they were;
    the record holds the time of the call under "timestamp", also when the
    action brought a timestamp of its own, and every other key of the
    action with its value; its keys are those of the action and
    "timestamp", and they stay distinct.  So the /analyst/action endpoint
    logs the transaction identifier, the action and the notes of its
    payload under the server's time, and answers that it logged. *)
Theorem log_action_stamps_server_time :
  forall (now : string) (action : Dict) (ANALYST_ACTIONS : list Dict),
    (exists record,
        AnalystActions.log_action now action ANALYST_ACTIONS
        = ANALYST_ACTIONS ++ [record]
        /\ Api.log_analyst_action now action ANALYST_ACTIONS
           = ANALYST_ACTIONS ++ [record]
        /\ dict_get record "timestamp" = ret (VStr now)
        /\ (forall k, k <> "timestamp" ->
              dict_get record k = dict_get action k)
        /\ (forall k, In k (keys record)
                      <-> In k (keys action) \/ k = "timestamp")
        /\ (NoDup (keys action) -> NoDup (keys record)))
    /\ forall payload : Api.AnalystActionPayload,
         Api.analyst_action now payload ANALYST_ACTIONS
         = ([("status", VStr "logged")],
            ANALYST_ACTIONS
            ++ [[("txn_id", VStr (Api.txn_id payload));
                 ("action", VStr (Api.action payload));
                 ("notes", match Api.notes payload with
                           | Some n => VStr n
                           | None => VNone
                           end);
                 ("timestamp", VStr now)]]).
Proof.
  intros now action acts. split.
  - exists (dict_set action "timestamp" (VStr now)).
    split; [ reflexivity | ]. split; [ reflexivity | ].
    split; [ apply dict_get_set_same | ].
    split; [ intros k Hk; apply dict_get_set_other, Hk | ].
    split; [ intros k; apply In_keys_dict_set | apply NoDup_keys_dict_set ].
  - intros payload. reflexivity.
Qed.

Lemma select_decision_filter (f : string) (ts : list Dict) :
  forallb (has_key "decision") ts = true ->
  select_decision ts f = ret (filter (decided f) ts).
Proof.
  induction ts as [ | t ts IH ]; intros Hall; [ reflexivity | ].
  cbn [forallb] in Hall. apply andb_true_iff in Hall as [Ht Hts].
  cbn [select_decision filter]. unfold decided at 1.
  destruct (dict_get t "decision") as [ e | v ] eqn:Hget.
  - exfalso. apply has_key_In in Ht. clear - Ht Hget.
    induction t as [ | [k' v'] t IHt ]; [ destruct Ht | ].
    cbn [dict_get] in Hget.
    destruct (String.eqb_spec "decision" k') as [ <- | Hk ];
      [ discriminate Hget | ].
    destruct Ht as [Heq | Hin]; [ cbn in Heq; congruence | auto ].
  - cbn [bind]. rewrite (IH Hts). cbn [bind]. reflexivity.
Qed.

Lemma select_decision_missing (f : string) (ts : list Dict) :
  forallb (has_key "decision") ts = false ->
  select_decision ts f = raise (KeyError "decision").
Proof.
  induction ts as [ | t ts IH ]; intros Hall; [ discriminate Hall | ].
  cbn [forallb] in Hall. cbn [select_decision].
  destruct (dict_get t "decision") as [ e | v ] eqn:Hget; cbn [bind].
  - clear - Hget. induction t as [ | [k' v'] t IHt ].
    + cbn in Hget. injection Hget as <-. reflexivity.
    + cbn [dict_get] in Hget.
      destruct (String.eqb "decision" k'); [ discriminate Hget | auto ].
  - assert (Ht : has_key "decision" t = true).
    { apply has_key_In. clear - Hget.
      induction t as [ | [k' v'] t IHt ]; [ discriminate Hget | ].
      cbn [dict_get] in Hget. cbn [keys map fst In].
      destruct (String.eqb_spec "decision" k') as [ <- | Hk ];
        [ now left | right; apply IHt, Hget ]. }
    rewrite Ht in Hall. cbn [andb] in Hall.
    rewrite (IH Hall). reflexivity.
Qed.

(** X8: the store lists newest first.  After transactions are added one
    by one, the unfiltered listing (no filter, the empty filter or "ALL")
    holds them in the reverse order of their arrival, before the records
    that were there. *)
Theorem store_lists_newest_first :
  forall (txns : list Dict) (TRANSACTIONS : list Dict),
    let store :=
      fold_left (fun st txn => TransactionsStore.add_transaction txn st)
                txns TRANSACTIONS in
    TransactionsStore.list_transactions None store
    = ret (rev txns ++ TRANSACTIONS)
    /\ TransactionsStore.list_transactions (Some EmptyString) store
       = ret (rev txns ++ TRANSACTIONS)
    /\ TransactionsStore.list_transactions (Some "ALL") store
       = ret (rev txns ++ TRANSACTIONS).
Proof.
  intros txns TRANSACTIONS store.
  assert (Hstore : store = rev txns ++ TRANSACTIONS).
  { subst store. revert TRANSACTIONS.
    induction txns as [ | t txns IH ]; intros st; [ reflexivity | ].
    cbn [fold_left rev]. rewrite IH. unfold TransactionsStore.add_transaction.
    rewrite <- app_assoc. reflexivity. }
  rewrite Hstore. repeat split.
Qed.

(** X9: a filter other than "ALL" and the empty string selects by the
    value under "decision".  When every stored record has that key, the
    listing holds exactly the records whose decision is the filter string,
    in their stored order; when some record lacks the key, the listing
    raises KeyError for any such filter, whether a record matches or
    not. *)
Theorem store_filter_selects_by_decision :
  forall (f : string) (TRANSACTIONS : list Dict),
    f <> EmptyString -> f <> "ALL" ->
    (forallb (has_key "decision") TRANSACTIONS = true ->
     TransactionsStore.list_transactions (Some f) TRANSACTIONS
     = ret (filter (decided f) TRANSACTIONS))
    /\ (forallb (has_key "decision") TRANSACTIONS = false ->
        TransactionsStore.list_transactions (Some f) TRANSACTIONS
        = raise (KeyError "decision")).
Proof.
  intros f ts Hne Hall. unfold TransactionsStore.list_transactions.
  destruct (String.eqb_spec f EmptyString); [ contradiction | ].
  destruct (String.eqb_spec f "ALL"); [ contradiction | ].
  cbn [orb]. split.
  - apply select_decision_filter.
  - apply select_decision_missing.
Qed.

Lemma store_filter_selects_by_decision_witness :
  TransactionsStore.list_transactions (Some "SOFT_BLOCK")
    [[("txn_id", VStr "txn_1"); ("decision", VStr "ALLOW")];
     [("txn_id", VStr "txn_0"); ("decision", VStr "SOFT_BLOCK")]]
  = ret [[("txn_id", VStr "txn_0"); ("decision", VStr "SOFT_BLOCK")]].
Proof.
  refine (proj1 (store_filter_selects_by_decision "SOFT_BLOCK" _ _ _) _);
    [ discriminate | discriminate | reflexivity ].
Defined.

(** X10: the two copies of [list_transactions] differ on the empty
    filter only.  For every other filter string api/main.py and
    api/transactions_store.py list the same; for the empty string the
    store lists everything, where main.py selects the records whose
    decision is the empty string. *)
Theorem listings_differ_on_empty_filter_only :
  forall (TRANSACTIONS : list Dict),
    (forall f, f <> EmptyString ->
       Api.list_transactions f TRANSACTIONS
       = TransactionsStore.list_transactions (Some f) TRANSACTIONS)
    /\ TransactionsStore.list_transactions (Some EmptyString) TRANSACTIONS
       = ret TRANSACTIONS
    /\ (forallb (has_key "decision") TRANSACTIONS = true ->
        Api.list_transactions EmptyString TRANSACTIONS
        = ret (filter (decided EmptyString) TRANSACTIONS)).
Proof.
  intros ts. split; [ | split ].
  - intros f Hne.
    unfold Api.list_transactions, TransactionsStore.list_transactions.
    destruct (String.eqb_spec f EmptyString); [ contradiction | ].
    reflexivity.
  - reflexivity.
  - intros Hall. unfold Api.list_transactions. cbn [String.eqb].
    apply select_decision_filter, Hall.
Qed.

End StoreProofs.

(* ================================================================== *)
(** * explain_decision: what it loads, and when it raises *)
(* ================================================================== *)

Module ExplainLoadProofs.
Import Re Explainer Props.

Section Loading.

Variables Model Index Vec IndexFile ChunksFile : Type.
Variable SentenceTransformer : string -> result Model.
Variable read_index : IndexFile -> result Index.
Variable pickle_load : ChunksFile -> result (list text).
Variable encode : Model -> list text -> result Vec.
Variable is_float32 : Vec -> bool.
Variable astype_float32 : Vec -> Vec.
Variable normalize_L2 : Vec -> result Vec.
Variable search : Index -> Vec -> nat -> result (list Z).
Variable BASE_DIR : string.

Local Abbreviation explain :=
  (explain_decision Model Index Vec IndexFile ChunksFile
     SentenceTransformer read_index pickle_load encode is_float32
     astype_float32 normalize_L2 search BASE_DIR).

(** X11: what [explain_decision] raises while it loads, and what it
    keeps.  An empty reason code raises ValueError before anything is
    loaded.  Otherwise a cached model, index or chunk list is used and
    kept, and a library is called or a file read only for what is not
    cached.  When loading the model raises, the call raises the same and
    the globals stay as they were.  Once the model is there it is cached,
    whatever follows.  With no index cached it raises FileNotFoundError
    when the index file is missing and what [faiss.read_index] raises when
    that raises, in both cases without looking at the chunks; once the
    index is there it is cached, and the same holds for the chunk list
    with [pickle.load].  With all three at hand the call ends as the
    retrieval does, with all three cached. *)
Theorem explain_decision_loads_or_raises :
  forall (d : disk IndexFile ChunksFile) (g : globals Model Index),
    explain d g []
    = (raise (ValueError "reason_code must be a non-empty string"), g)
    /\ forall (c : ascii) (rc : text),
         let r := explain d g (c :: rc) in
         match match _model g with
               | Some m => ret m
               | None => SentenceTransformer MODEL_NAME
               end with
         | inl e => r = (inl e, g)
         | inr model =>
             _model (snd r) = Some model
             /\ match obtain (_index g) (vector_index d) read_index
                        (FileNotFoundError
                           ("Vector index not found at "
                            ++ VECTOR_INDEX_PATH BASE_DIR)) with
                | inl e =>
                    fst r = inl e
                    /\ _index (snd r) = None
                    /\ _chunks (snd r) = _chunks g
                | inr index =>
                    _index (snd r) = Some index
                    /\ match obtain (_chunks g) (chunks_pkl d) pickle_load
                               (FileNotFoundError
                                  ("Chunks file not found at "
                                   ++ CHUNKS_PATH BASE_DIR)) with
                       | inl e =>
                           fst r = inl e /\ _chunks (snd r) = None
                       | inr chunks =>
                           _chunks (snd r) = Some chunks
                           /\ fst r
                              = retrieve_and_explain Model Index Vec encode
                                  is_float32 astype_float32 normalize_L2
                                  search model index chunks (c :: rc)
                       end
                end
         end.
Proof.
  intros d g. split; [ reflexivity | ].
  intros c rc r. subst r.
  unfold explain_decision, _load_model, _load_index_and_chunks, obtain.
  destruct g as [gm gi gc], d as [di dc].
  cbn [_model _index _chunks vector_index chunks_pkl].
  destruct gm as [ m | ];
    [ | destruct (SentenceTransformer MODEL_NAME) as [ e | m ];
        [ reflexivity | ] ];
    cbn [_model _index _chunks];
    (destruct gi as [ i | ];
     [ | destruct di as [ fi | ];
         [ destruct (read_index fi) as [ e | i ] | ] ]);
    cbn [_model _index _chunks fst snd raise ret];
    try (repeat split; reflexivity);
    (destruct gc as [ ch | ];
     [ | destruct dc as [ fc | ];
         [ destruct (pickle_load fc) as [ e | ch ] | ] ]);
    cbn [_model _index _chunks fst snd raise ret];
    repeat split; reflexivity.
Qed.

End Loading.

End ExplainLoadProofs.

(* ================================================================== *)
(** * str.strip and white space *)
(* ================================================================== *)

Module StripProofs.
Import Props.

Lemma lstrip_split (t : text) :
  exists ws, t = ws ++ lstrip t /\ blank ws.
Proof.
  induction t as [ | c t IH ]; cbn [lstrip].
  - exists []. split; [ reflexivity | constructor ].
  - destruct (py_isspace c) eqn:Hc.
    + destruct IH as (ws & Heq & Hws). exists (c :: ws).
      split; [ cbn; congruence | constructor; assumption ].
    + exists []. split; [ reflexivity | constructor ].
Qed.

Lemma lstrip_head (t : text) (c : ascii) (t' : text) :
  lstrip t = c :: t' -> py_isspace c = false.
Proof.
  induction t as [ | x t IH ]; cbn [lstrip]; [ discriminate | ].
  destruct (py_isspace x) eqn:Hx; [ exact IH | ].
  intros [= <- <-]. exact Hx.
Qed.

Lemma blank_rev (t : text) : blank t -> blank (rev t).
Proof. apply Forall_rev. Qed.

Lemma rstrip_split (t : text) :
  exists ws, t = rstrip t ++ ws /\ blank ws.
Proof.
  unfold rstrip. destruct (lstrip_split (rev t)) as (ws & Heq & Hws).
  exists (rev ws). split; [ | apply blank_rev, Hws ].
  rewrite <- rev_app_distr, <- Heq, rev_involutive. reflexivity.
Qed.

(** A text is its stripped form between two blank margins. *)
Lemma strip_split (t : text) :
  exists l r, t = l ++ strip t ++ r /\ blank l /\ blank r.
Proof.
  unfold strip.
  destruct (lstrip_split t) as (l & Hl & Hbl).
  destruct (rstrip_split (lstrip t)) as (r & Hr & Hbr).
  exists l, r. split; [ congruence | split; assumption ].
Qed.

Lemma ink_app (a b : text) : ink (a ++ b) = ink a ++ ink b.
Proof. apply filter_app. Qed.

Lemma ink_blank (t : text) : blank t -> ink t = [].
Proof.
  induction 1 as [ | c t Hc _ IH ]; [ reflexivity | ].
  cbn [ink filter]. rewrite Hc. exact IH.
Qed.

Lemma ink_nil_blank (t : text) : ink t = [] -> blank t.
Proof.
  induction t as [ | c t IH ]; [ constructor | ].
  cbn [ink filter]. destruct (py_isspace c) eqn:Hc; cbn [negb];
    [ | discriminate ].
  intros H. constructor; [ exact Hc | apply IH, H ].
Qed.

Lemma ink_strip (t : text) : ink (strip t) = ink t.
Proof.
  destruct (strip_split t) as (l & r & Heq & Hl & Hr).
  rewrite Heq at 2. rewrite !ink_app, (ink_blank l Hl), (ink_blank r Hr).
  now rewrite app_nil_r.
Qed.

Lemma rstrip_keeps_head (c : ascii) (t : text) :
  py_isspace c = false -> exists r, rstrip (c :: t) = c :: r.
Proof.
  intros Hc. destruct (rstrip_split (c :: t)) as (ws & Heq & Hws).
  destruct (rstrip (c :: t)) as [ | x r ].
  - cbn in Heq. subst ws. inversion Hws; congruence.
  - cbn in Heq. injection Heq as <- _. exists r. reflexivity.
Qed.

Lemma rstrip_last (t : text) (c : ascii) (r : text) (dflt : ascii) :
  rstrip t = c :: r -> py_isspace (last (rstrip t) dflt) = false.
Proof.
  unfold rstrip. intros Heq.
  destruct (lstrip (rev t)) as [ | h tl ] eqn:Hl; [ discriminate Heq | ].
  cbn [rev]. rewrite last_last. exact (lstrip_head _ _ _ Hl).
Qed.

(** What [strip] returns neither starts nor ends with white space. *)
Lemma trimmed_strip (t : text) : trimmed (strip t).
Proof.
  unfold trimmed. destruct (strip t) as [ | c r ] eqn:Hs; [ exact I | ].
  unfold strip in Hs.
  destruct (lstrip t) as [ | h tl ] eqn:Hl; [ discriminate Hs | ].
  pose proof (lstrip_head _ _ _ Hl) as Hh.
  destruct (rstrip_keeps_head h tl Hh) as (r' & Hr').
  assert (c = h) by congruence. subst c.
  split; [ exact Hh | ].
  rewrite <- Hs. exact (rstrip_last _ _ _ _ Hr').
Qed.

Lemma strip_nil_iff_blank (t : text) : strip t = [] <-> blank t.
Proof.
  split.
  - intros Hs. apply ink_nil_blank. rewrite <- ink_strip, Hs. reflexivity.
  - intros Hb. pose proof (ink_strip t) as Hi.
    rewrite (ink_blank t Hb) in Hi.
    pose proof (trimmed_strip t) as Ht. unfold trimmed in Ht.
    destruct (strip t) as [ | c r ]; [ reflexivity | ].
    destruct Ht as [Hc _]. cbn [ink filter] in Hi. rewrite Hc in Hi.
    discriminate Hi.
Qed.

Lemma trimmed_nonempty_ink (t : text) :
  trimmed t -> t <> [] -> ink t <> [].
Proof.
  destruct t as [ | c r ]; [ congruence | ].
  intros [Hc _] _. cbn [ink filter]. rewrite Hc. discriminate.
Qed.

End StripProofs.

(* ================================================================== *)
(** * chunk_text: what the chunks keep of the text *)
(* ================================================================== *)

Module ChunkProofs.
Import BuildIndex BuildIndexProofs StripProofs Props.

Lemma chunk_end_range (t : text) (max_chars start : nat) :
  start <= List.length t ->
  start <= chunk_end t max_chars start <= List.length t.
Proof.
  intros Hs. unfold chunk_end.
  set (lim := Nat.min (start + max_chars) (List.length t)).
  assert (Hlim : start <= lim <= List.length t) by (subst lim; lia).
  destruct (Nat.ltb_spec lim (List.length t)) as [Hlt | Hge]; [ | lia ].
  destruct (rfind_spec " "%char t start lim) as [ [Hr _] | (j & Hr & Hj & _) ];
    [ lia | | ]; rewrite Hr.
  - destruct (Z.gtb_spec (-1) (Z.of_nat start)); lia.
  - destruct (Z.gtb_spec (Z.of_nat j) (Z.of_nat start));
      [ rewrite Nat2Z.id | ]; lia.
Qed.

Lemma slice_then_rest (t : text) (s e : nat) :
  s <= e -> slice t s e ++ skipn e t = skipn s t.
Proof.
  intros Hse. unfold slice.
  replace e with ((e - s) + s) at 2 by lia.
  rewrite <- skipn_skipn. apply firstn_skipn.
Qed.

(** The chunks from [start] on hold the ink of the text from [start] on. *)
Lemma chunk_loop_ink (t : text) (max_chars : nat) :
  forall fuel start chunks,
    chunk_loop fuel t max_chars start = Some chunks ->
    ink (List.concat chunks) = ink (skipn start t).
Proof.
  induction fuel as [ | fuel IH ]; intros start chunks; cbn [chunk_loop].
  - destruct (Nat.ltb_spec start (List.length t)) as [Hlt | Hge];
      [ discriminate | ].
    intros [= <-]. rewrite skipn_all2 by lia. reflexivity.
  - destruct (Nat.ltb_spec start (List.length t)) as [Hlt | Hge].
    + cbv zeta.
      destruct (chunk_loop fuel t max_chars (chunk_end t max_chars start))
        as [ rest | ] eqn:Hrest; [ | discriminate ].
      cbn [option_map]. intros [= <-].
      pose proof (chunk_end_range t max_chars start (Nat.lt_le_incl _ _ Hlt))
        as [Hlo _].
      rewrite <- (slice_then_rest t start _ Hlo), ink_app.
      rewrite <- (IH _ _ Hrest).
      rewrite <- (ink_strip (slice t start (chunk_end t max_chars start))).
      destruct (strip (slice t start (chunk_end t max_chars start)));
        [ reflexivity | ].
      cbn [List.concat]. apply ink_app.
    + intros [= <-]. rewrite skipn_all2 by lia. reflexivity.
Qed.

Lemma chunk_loop_trimmed (t : text) (max_chars : nat) :
  forall fuel start chunks,
    chunk_loop fuel t max_chars start = Some chunks ->
    Forall (fun c => c <> [] /\ trimmed c) chunks.
Proof.
  induction fuel as [ | fuel IH ]; intros start chunks; cbn [chunk_loop].
  - destruct (start <? List.length t); [ discriminate | ].
    intros [= <-]. constructor.
  - destruct (start <? List.length t); [ | intros [= <-]; constructor ].
    cbv zeta.
    destruct (chunk_loop fuel t max_chars (chunk_end t max_chars start))
      as [ rest | ] eqn:Hrest; [ | discriminate ].
    cbn [option_map]. intros [= <-].
    pose proof (trimmed_strip (slice t start (chunk_end t max_chars start)))
      as Htrim.
    destruct (strip (slice t start (chunk_end t max_chars start)));
      [ exact (IH _ _ Hrest) | ].
    constructor; [ split; [ discriminate | exact Htrim ] | exact (IH _ _ Hrest) ].
Qed.

Lemma concat_nonempty_ink (chunks : list text) :
  Forall (fun c => c <> [] /\ trimmed c) chunks ->
  ink (List.concat chunks) = [] -> chunks = [].
Proof.
  intros Hall Hink. destruct chunks as [ | c chunks ]; [ reflexivity | ].
  inversion Hall as [ | ? ? [Hne Htrim] _ ]; subst.
  cbn [List.concat] in Hink. rewrite ink_app in Hink.
  apply app_eq_nil in Hink as [Hc _].
  exfalso. exact (trimmed_nonempty_ink c Htrim Hne Hc).
Qed.

(** X12: chunking loses nothing but white space.  For a positive limit
    [chunk_text] returns, and the characters of the chunks that are no
    white space are those of the text, in the same order; there is no
    chunk at all exactly when the text is blank. *)
Theorem chunk_text_loses_only_white_space :
  forall (t : text) (max_chars : nat),
    0 < max_chars ->
    exists chunks,
      chunk_text t max_chars = Some chunks
      /\ ink (List.concat chunks) = ink t
      /\ (chunks = [] <-> blank t).
Proof.
  intros t max_chars Hmax.
  destruct (chunk_loop_terminates t max_chars Hmax (List.length t) 0)
    as (chunks & Hchunks & _); [ lia | ].
  exists chunks. split; [ exact Hchunks | ].
  pose proof (chunk_loop_ink t max_chars _ _ _ Hchunks) as Hink.
  cbn [skipn] in Hink. split; [ exact Hink | ].
  split.
  - intros ->. apply ink_nil_blank. rewrite <- Hink. reflexivity.
  - intros Hb. apply concat_nonempty_ink.
    + exact (chunk_loop_trimmed t max_chars _ _ _ Hchunks).
    + rewrite Hink. apply ink_blank, Hb.
Qed.

Lemma chunk_text_loses_only_white_space_witness :
  exists chunks,
    chunk_text (str "  pay  now ") 4 = Some chunks
    /\ ink (List.concat chunks) = ink (str "  pay  now ")
    /\ (chunks = [] <-> blank (str "  pay  now ")).
Proof.
  apply (chunk_text_loses_only_white_space (str "  pay  now ") 4). lia.
Defined.

(** X13: every chunk that [chunk_text] returns is non-empty and neither
    starts nor ends with white space, whatever the limit. *)
Theorem chunks_are_trimmed_and_not_empty :
  forall (t : text) (max_chars : nat) (chunks : list text),
    chunk_text t max_chars = Some chunks ->
    Forall (fun c => c <> [] /\ trimmed c) chunks.
Proof.
  intros t max_chars chunks. apply chunk_loop_trimmed.
Qed.

Lemma chunks_are_trimmed_and_not_empty_witness :
  chunk_text (str "  pay  now ") 4 = Some [str "pay"; str "now"]
  /\ Forall (fun c => c <> [] /\ trimmed c) [str "pay"; str "now"].
Proof.
  split; [ reflexivity | ].
  apply (chunks_are_trimmed_and_not_empty (str "  pay  now ") 4).
  reflexivity.
Defined.

(** With the limit 0 the loop makes no progress. *)
Lemma chunk_end_zero (t : text) (start : nat) :
  start < List.length t -> chunk_end t 0 start = start.
Proof.
  intros Hs. unfold chunk_end. rewrite Nat.add_0_r.
  rewrite Nat.min_l by lia.
  destruct (Nat.ltb_spec start (List.length t)); [ | lia ].
  destruct (rfind_spec " "%char t start start) as [ [Hr _] | (j & _ & Hj & _) ];
    [ lia | | lia ].
  rewrite Hr. destruct (Z.gtb_spec (-1) (Z.of_nat start)); [ lia | reflexivity ].
Qed.

(** X14: with [max_chars = 0] the loop of [chunk_text] never ends on a
    text that is not empty: it stays at the same start, and no number of
    turns gives a result. *)
Theorem chunk_text_zero_limit_never_ends :
  forall (t : text),
    t <> [] ->
    (forall fuel, chunk_loop fuel t 0 0 = None)
    /\ chunk_text t 0 = None.
Proof.
  intros t Hne.
  assert (Hlen : 0 < List.length t) by (destruct t; [ congruence | cbn; lia ]).
  assert (H : forall fuel, chunk_loop fuel t 0 0 = None).
  { induction fuel as [ | fuel IH ]; cbn [chunk_loop];
      destruct (Nat.ltb_spec 0 (List.length t)); try lia; [ reflexivity | ].
    cbv zeta. rewrite (chunk_end_zero t 0 Hlen), IH. reflexivity. }
  split; [ exact H | apply H ].
Qed.

Lemma chunk_text_zero_limit_never_ends_witness :
  (forall fuel, chunk_loop fuel (str "pay") 0 0 = None)
  /\ chunk_text (str "pay") 0 = None.
Proof.
  apply (chunk_text_zero_limit_never_ends (str "pay")). discriminate.
Defined.

(** X15: a text within the limit is one chunk, its stripped form, or no
    chunk when it is blank. *)
Theorem short_text_is_one_chunk :
  forall (t : text) (max_chars : nat),
    List.length t <= max_chars ->
    chunk_text t max_chars
    = Some (match strip t with [] => [] | _ :: _ => [strip t] end).
Proof.
  intros t max_chars Hlen. unfold chunk_text.
  destruct (List.length t) as [ | n ] eqn:Hn.
  { apply length_zero_iff_nil in Hn. subst t. reflexivity. }
  cbn [chunk_loop]. rewrite Hn.
  destruct (Nat.ltb_spec 0 (S n)); [ | lia ].
  cbv zeta.
  assert (Hend : chunk_end t max_chars 0 = S n).
  { unfold chunk_end. rewrite Hn. rewrite Nat.min_r by lia.
    rewrite Nat.ltb_irrefl. reflexivity. }
  rewrite Hend.
  assert (Hslice : slice t 0 (S n) = t).
  { unfold slice. cbn [skipn]. rewrite Nat.sub_0_r, <- Hn. apply firstn_all. }
  rewrite Hslice.
  replace (chunk_loop n t max_chars (S n)) with (Some (@nil text)).
  - cbn [option_map]. destruct (strip t); reflexivity.
  - destruct n; cbn [chunk_loop]; rewrite Hn, Nat.ltb_irrefl; reflexivity.
Qed.

Lemma short_text_is_one_chunk_witness :
  chunk_text (str " pay now ") 500 = Some [str "pay now"].
Proof.
  apply (short_text_is_one_chunk (str " pay now ") 500). cbn. lia.
Defined.

End ChunkProofs.

(* ================================================================== *)
(** * The build script, and the explainer on what it wrote *)
(* ================================================================== *)

Module BuildMainProofs.
Import BuildIndex BuildIndexProofs Explainer BuildIndexMain StripProofs
       ChunkProofs Props.

Lemma ink_concat_blank (docs : list text) :
  Forall blank docs <-> ink (List.concat docs) = [].
Proof.
  induction docs as [ | doc docs IH ]; cbn [List.concat].
  - split; [ reflexivity | constructor ].
  - rewrite ink_app. split.
    + intros H. inversion H as [ | ? ? Hd Hrest ]; subst.
      rewrite (ink_blank doc Hd). apply IH, Hrest.
    + intros H. apply app_eq_nil in H as [Hd Hrest].
      constructor; [ apply ink_nil_blank, Hd | apply IH, Hrest ].
Qed.

(** The loop over the documents: it ends, and what it adds are chunks of
    the documents. *)
Lemma extend_all_spec (documents : list text) :
  forall all_chunks,
  exists chunks,
    extend_all documents all_chunks = Some (all_chunks ++ chunks)
    /\ ink (List.concat chunks) = ink (List.concat documents)
    /\ Forall (fun c => c <> [] /\ trimmed c /\ List.length c <= 500) chunks.
Proof.
  induction documents as [ | doc documents IH ]; intros acc;
    cbn [extend_all].
  - exists []. rewrite app_nil_r. repeat split. constructor.
  - assert (Hmax : 0 < MAX_CHARS) by (unfold MAX_CHARS; lia).
    destruct (chunk_loop_terminates doc MAX_CHARS Hmax (List.length doc) 0)
      as (cs & Hcs & Hlen); [ lia | ].
    fold (chunk_text doc MAX_CHARS) in Hcs. rewrite Hcs.
    destruct (IH (acc ++ cs)) as (rest & Hrest & Hink & Hall).
    exists (cs ++ rest). rewrite app_assoc. split; [ exact Hrest | ].
    split.
    + rewrite concat_app, ink_app. cbn [List.concat]. rewrite ink_app.
      rewrite Hink. f_equal.
      pose proof (chunk_loop_ink doc MAX_CHARS _ _ _ Hcs) as H.
      exact H.
    + apply Forall_app. split; [ | exact Hall ].
      pose proof (chunk_loop_trimmed doc MAX_CHARS _ _ _ Hcs) as Htrim.
      rewrite Forall_forall in *. intros c Hin.
      destruct (Htrim c Hin) as [Hne Ht].
      specialize (Hlen c Hin). unfold MAX_CHARS in Hlen. auto.
Qed.

Section MainProofs.

Variables Index IndexFile ChunksFile : Type.
Variable build_faiss_index : list text -> result Index.
Variable write_index
  : Index -> option IndexFile -> result unit * option IndexFile.
Variable pickle_dump
  : list text -> option ChunksFile -> result unit * option ChunksFile.
Variable BASE_DIR : string.

Local Abbreviation build :=
  (main Index IndexFile ChunksFile build_faiss_index write_index
     pickle_dump BASE_DIR).

(** X16: the build script always ends.  When reading a markdown file
    raises, it raises the same and writes nothing.  When every document is
    blank (also when the knowledge directory is missing or holds no
    markdown file) it raises RuntimeError with the message that no
    markdown files were found, calls no library and writes nothing.
    Otherwise the chunks are not empty, carry no white space at either
    end, have at most 500 characters, and hold the characters of the
    documents that are no white space, in order; the index is built from
    exactly these chunks, and when building it raises nothing is written;
    when writing the index raises the chunk file is left as it was; else
    the script ends as the write of the chunk list does. *)
Theorem build_main_writes_or_raises :
  forall (knowledge : option (list (result text)))
         (d : disk IndexFile ChunksFile),
    match load_markdown_files knowledge with
    | inl e => build knowledge d = Some (inl e, d)
    | inr documents =>
        exists all_chunks,
          ink (List.concat all_chunks) = ink (List.concat documents)
          /\ Forall (fun c => c <> [] /\ trimmed c /\ List.length c <= 500)
                    all_chunks
          /\ (Forall blank documents ->
              all_chunks = []
              /\ build knowledge d
                 = Some (raise (RuntimeError
                                  ("No markdown files found in "
                                   ++ KNOWLEDGE_DIR BASE_DIR
                                   ++ ". Add .md files before building the index.")),
                         d))
          /\ (~ Forall blank documents ->
              all_chunks <> []
              /\ match build_faiss_index all_chunks with
                 | inl e => build knowledge d = Some (inl e, d)
                 | inr index =>
                     let written := write_index index (vector_index d) in
                     let dumped := pickle_dump all_chunks (chunks_pkl d) in
                     build knowledge d
                     = Some
                         match fst written with
                         | inl e =>
                             (inl e,
                              {| vector_index := snd written;
                                 chunks_pkl := chunks_pkl d |})
                         | inr _ =>
                             (fst dumped,
                              {| vector_index := snd written;
                                 chunks_pkl := snd dumped |})
                         end
                 end)
    end.
Proof.
  intros knowledge d. unfold main.
  destruct (load_markdown_files knowledge) as [ e | documents ];
    [ reflexivity | ].
  destruct (extend_all_spec documents []) as (chunks & Hext & Hink & Hall).
  cbn [app] in Hext.
  exists chunks. split; [ exact Hink | ]. split; [ exact Hall | ].
  rewrite Hext. split.
  - intros Hblank. apply ink_concat_blank in Hblank.
    rewrite <- Hink in Hblank.
    assert (chunks = []).
    { apply concat_nonempty_ink; [ | exact Hblank ].
      eapply Forall_impl; [ | exact Hall ]. cbn. tauto. }
    subst chunks. split; reflexivity.
  - intros Hnot.
    destruct chunks as [ | c chunks ].
    + exfalso. apply Hnot, ink_concat_blank. rewrite <- Hink. reflexivity.
    + split; [ discriminate | ].
      unfold build_and_write.
      destruct (build_faiss_index (c :: chunks)) as [ e | index ];
        [ reflexivity | ].
      cbv zeta.
      destruct (write_index index (vector_index d)) as [ [ e | u ] file ];
        cbn [fst snd vector_index chunks_pkl]; [ reflexivity | ].
      destruct (pickle_dump (c :: chunks) (chunks_pkl d)) as [ dumped file' ].
      reflexivity.
Qed.

Variables Model Vec : Type.
Variable SentenceTransformer : string -> result Model.
Variable read_index : IndexFile -> result Index.
Variable pickle_load : ChunksFile -> result (list text).
Variable encode : Model -> list text -> result Vec.
Variable is_float32 : Vec -> bool.
Variable astype_float32 : Vec -> Vec.
Variable normalize_L2 : Vec -> result Vec.
Variable search : Index -> Vec -> nat -> result (list Z).

Local Abbreviation explain :=
  (explain_decision Model Index Vec IndexFile ChunksFile
     SentenceTransformer read_index pickle_load encode is_float32
     astype_float32 normalize_L2 search BASE_DIR).

(** X17: the explainer works on what the build script wrote, as far as
    the repository's code goes.  Suppose that a write that returns leaves
    a file from which the read gives back what was written, and that the
    calls into the embedding model and the index return.  Then after a
    build that returned, a process that has cached neither index nor
    chunks answers every reason code that is not empty with an
    explanation, and caches the index and the chunk list of the build,
    whatever the two files held before the build. *)
Theorem explain_after_build_returns :
  forall (knowledge : option (list (result text)))
         (d d' : disk IndexFile ChunksFile)
         (g : globals Model Index) (c : ascii) (rc : text),
    build knowledge d = Some (ret tt, d') ->
    _index g = None -> _chunks g = None ->
    (forall index old file,
        write_index index old = (ret tt, file) ->
        exists f, file = Some f /\ read_index f = ret index) ->
    (forall chunks old file,
        pickle_dump chunks old = (ret tt, file) ->
        exists f, file = Some f /\ pickle_load f = ret chunks) ->
    (_model g = None -> exists m, SentenceTransformer MODEL_NAME = ret m) ->
    (forall m q, exists v, encode m q = ret v) ->
    (forall v, exists v', normalize_L2 v = ret v') ->
    (forall i v k, exists l, search i v k = ret l) ->
    exists out index all_chunks,
      build_faiss_index all_chunks = ret index
      /\ fst (explain d' g (c :: rc)) = ret out
      /\ all_chunks <> []
      /\ _chunks (snd (explain d' g (c :: rc))) = Some all_chunks
      /\ _index (snd (explain d' g (c :: rc))) = Some index.
Proof.
  intros knowledge d d' g c rc Hbuild Hgi Hgc Hri Hpl Hmodel Henc Hnorm
    Hsearch.
  unfold main in Hbuild.
  destruct (load_markdown_files knowledge) as [ e | documents ];
    [ discriminate Hbuild | ].
  destruct (extend_all documents []) as [ [ | ch chunks ] | ];
    try discriminate Hbuild.
  unfold build_and_write in Hbuild.
  destruct (build_faiss_index (ch :: chunks)) as [ e | index ] eqn:Hidx;
    [ discriminate Hbuild | ].
  cbv zeta in Hbuild.
  destruct (write_index index (vector_index d)) as [ [ e | [] ] fi ] eqn:Hw;
    [ discriminate Hbuild | ].
  cbn [vector_index chunks_pkl] in Hbuild.
  destruct (pickle_dump (ch :: chunks) (chunks_pkl d)) as [ [ e | [] ] fc ]
    eqn:Hd; [ discriminate Hbuild | ].
  injection Hbuild as <-.
  destruct (Hri _ _ _ Hw) as (f1 & -> & Hread).
  destruct (Hpl _ _ _ Hd) as (f2 & -> & Hload).
  assert (Hm : exists m g1,
            _load_model Model Index SentenceTransformer g = (ret m, g1)
            /\ _index g1 = None /\ _chunks g1 = None).
  { unfold _load_model. destruct (_model g) as [ m | ] eqn:Hgm.
    - exists m, g. auto.
    - destruct (Hmodel eq_refl) as [m ->]. eexists m, _.
      split; [ reflexivity | ]. cbn [_index _chunks]. auto. }
  destruct Hm as (m & g1 & Hlm & Hi1 & Hc1).
  unfold explain_decision. rewrite Hlm.
  unfold _load_index_and_chunks. rewrite Hi1.
  cbn [vector_index chunks_pkl]. rewrite Hread.
  cbn [_model _index _chunks ret]. rewrite Hc1, Hload.
  cbn [_model _index _chunks ret fst snd].
  unfold retrieve_and_explain. cbv zeta.
  destruct (Henc m [_code_to_query (c :: rc)]) as [v ->]. cbn [bind ret].
  destruct (Hnorm (if is_float32 v then v else astype_float32 v)) as [v' ->].
  cbn [bind ret].
  destruct (Hsearch index v' TOP_K) as [l ->]. cbn [bind ret].
  eexists. exists index, (ch :: chunks).
  split; [ exact Hidx | ]. split; [ reflexivity | ].
  split; [ discriminate | ]. split; reflexivity.
Qed.

End MainProofs.

Lemma explain_after_build_returns_witness :
  exists out index all_chunks,
    ret tt = ret index
    /\ fst (explain_stub
              {| vector_index := Some tt;
                 chunks_pkl := Some [str "Fraud rings reuse devices."] |}
              no_globals (str "FRAUD_SIGNAL")) = ret out
    /\ all_chunks <> []
    /\ _chunks (snd (explain_stub
              {| vector_index := Some tt;
                 chunks_pkl := Some [str "Fraud rings reuse devices."] |}
              no_globals (str "FRAUD_SIGNAL"))) = Some all_chunks
    /\ _index (snd (explain_stub
              {| vector_index := Some tt;
                 chunks_pkl := Some [str "Fraud rings reuse devices."] |}
              no_globals (str "FRAUD_SIGNAL"))) = Some index.
Proof.
  apply (explain_after_build_returns unit unit (list text)
           (fun _ => ret tt)
           (fun _ _ => (ret tt, Some tt)) (fun chunks _ => (ret tt, Some chunks))
           "rag" unit unit
           (fun _ => ret tt) (fun _ => ret tt) (fun chunks => ret chunks)
           (fun _ _ => ret tt) (fun _ => true) (fun v => v)
           (fun v => ret v) (fun _ _ _ => ret [0%Z])
           (Some [ret (str " Fraud rings reuse devices. ")]) empty_disk
           {| vector_index := Some tt;
              chunks_pkl := Some [str "Fraud rings reuse devices."] |}
           no_globals "F"%char (str "RAUD_SIGNAL")).
  - reflexivity.
  - reflexivity.
  - reflexivity.
  - intros [] old file [= <-]. exists tt. split; reflexivity.
  - intros chunks old file [= <-]. exists chunks. split; reflexivity.
  - intros _. exists tt. reflexivity.
  - intros m q. exists tt. reflexivity.
  - intros v. exists v. reflexivity.
  - intros i v k. eexists. reflexivity.
Defined.

End BuildMainProofs.

(* ================================================================== *)
(** * _scrub_pii on text that holds nothing to redact *)
(* ================================================================== *)

Module ScrubCleanProofs.
Import Re Explainer TextProps ReProofs Props.

Lemma is_char_at (c : ascii) : is_char "@" c = true -> c = "@"%char.
Proof. unfold is_char. intros H. apply Ascii.eqb_eq in H. now subst. Qed.

Lemma handle_tail_needs_at (s : text) : no_at s -> handle_tail s = None.
Proof.
  induction 1 as [ | c s Hc _ IH ]; [ reflexivity | ].
  cbn [handle_tail]. rewrite IH.
  destruct (handle_char c); [ reflexivity | ].
  destruct (is_char "@" c) eqn:Hat; [ | reflexivity ].
  apply is_char_at in Hat. contradiction.
Qed.

Lemma handle_match_needs_at (prev : option ascii) (s : text) :
  no_at s -> handle_match prev s = None.
Proof.
  intros H. unfold handle_match.
  destruct (at_boundary prev s); [ | reflexivity ].
  destruct s as [ | c s ]; [ reflexivity | ].
  inversion H; subst.
  rewrite (handle_tail_needs_at s) by assumption.
  destruct (handle_char c); reflexivity.
Qed.

Lemma search_HANDLE_needs_at (s : text) :
  forall prev, no_at s -> re_search_from HANDLE prev s = false.
Proof.
  induction s as [ | c s IH ]; intros prev H.
  - cbn [re_search_from]. rewrite match_length_HANDLE.
    rewrite (handle_match_needs_at prev [] H). reflexivity.
  - rewrite re_search_from_cons, match_length_HANDLE.
    rewrite (handle_match_needs_at prev (c :: s) H).
    inversion H; subst. now apply IH.
Qed.

Lemma match_EMAIL_needs_at (prev : option ascii) (s : text) :
  no_at s -> match_length EMAIL prev s = None.
Proof.
  intros H. unfold match_length, EMAIL.
  cbn [match_re].
  destruct (at_boundary prev s); [ | reflexivity ].
  match goal with
  | |- match ?m with _ => _ end = None => destruct m as [ rest | ] eqn:Hm
  end; [ | reflexivity ].
  exfalso.
  apply repeat_greedy_sound in Hm as (n & pv & _ & _ & Hk).
  destruct (skipn n s) as [ | c x ] eqn:Hskip; [ discriminate Hk | ].
  destruct (is_char "@" c) eqn:Hat; [ | discriminate Hk ].
  apply is_char_at in Hat. subst c.
  assert (Hin : In "@"%char s).
  { rewrite <- (firstn_skipn n s), Hskip. apply in_or_app. right. now left. }
  unfold no_at in H. rewrite Forall_forall in H. exact (H _ Hin eq_refl).
Qed.

Lemma search_EMAIL_needs_at (s : text) :
  forall prev, no_at s -> re_search_from EMAIL prev s = false.
Proof.
  induction s as [ | c s IH ]; intros prev H.
  - cbn [re_search_from]. rewrite (match_EMAIL_needs_at prev [] H).
    reflexivity.
  - rewrite re_search_from_cons, (match_EMAIL_needs_at prev (c :: s) H).
    inversion H; subst. now apply IH.
Qed.

Lemma leading_digit_run (t : text) :
  5 <= leading is_digit t -> has_digit_run t.
Proof.
  intros H. exists [], (firstn (leading is_digit t) t),
    (skipn (leading is_digit t) t).
  split; [ cbn [app]; symmetry; apply firstn_skipn | ].
  split.
  - rewrite length_firstn. pose proof (leading_le is_digit t). lia.
  - clear H. induction t as [ | c t IH ]; cbn [leading]; [ constructor | ].
    destruct (is_digit c) eqn:Hc; cbn [firstn]; constructor; assumption.
Qed.

Lemma digit_run_cons (c : ascii) (t : text) :
  has_digit_run t -> has_digit_run (c :: t).
Proof.
  intros (pre & run & post & -> & Hlen & Hall).
  exists (c :: pre), run, post. repeat split; assumption.
Qed.

Lemma runs_not_ok (t : text) :
  forall cur,
    runs_ok cur t = false ->
    5 <= cur + leading is_digit t \/ has_digit_run t.
Proof.
  induction t as [ | c t IH ]; intros cur; cbn [runs_ok leading];
    [ discriminate | ].
  destruct (is_digit c) eqn:Hc.
  - destruct (Nat.ltb_spec (S cur) 5) as [Hlt | Hge]; cbn [andb].
    + intros H. destruct (IH _ H) as [Hrun | Hrun];
        [ left; lia | right; apply digit_run_cons, Hrun ].
    + intros _. left. lia.
  - intros H. right. apply digit_run_cons.
    destruct (IH _ H) as [Hrun | Hrun];
      [ apply leading_digit_run; lia | exact Hrun ].
Qed.

Lemma no_digit_run_runs_ok (t : text) :
  ~ has_digit_run t -> runs_ok 0 t = true.
Proof.
  intros Hno. destruct (runs_ok 0 t) eqn:H; [ reflexivity | ].
  exfalso. apply Hno.
  destruct (runs_not_ok t 0 H) as [Hrun | Hrun];
    [ apply leading_digit_run; lia | exact Hrun ].
Qed.

(** X18: [_scrub_pii] leaves clean text alone: a text that holds no [@]
    and no five digits in a row comes back unchanged. *)
Theorem scrub_leaves_clean_text_unchanged :
  forall t : text,
    Forall (fun c => c <> "@"%char) t ->
    ~ has_digit_run t ->
    _scrub_pii t = t.
Proof.
  intros t Hat Hdig. unfold _scrub_pii.
  change (redact HANDLE (redact DIGITS (redact EMAIL t)) = t).
  rewrite (redact_no_match EMAIL t) by (apply search_EMAIL_needs_at, Hat).
  rewrite (redact_no_match DIGITS t)
    by (apply (runs_ok_search_DIGITS t None 0), no_digit_run_runs_ok, Hdig).
  apply redact_no_match, search_HANDLE_needs_at, Hat.
Qed.

Lemma scrub_leaves_clean_text_unchanged_witness :
  _scrub_pii (str "4 failed logins") = str "4 failed logins".
Proof.
  apply (scrub_leaves_clean_text_unchanged (str "4 failed logins")).
  - repeat constructor; discriminate.
  - apply runs_ok_no_digit_run. reflexivity.
Defined.

End ScrubCleanProofs.

(* ================================================================== *)
(** * _extract_relevant_sentences: how many sentences, and their shape *)
(* ================================================================== *)

Module ExtractProofs.
Import Re Explainer TextProps ReProofs ExplainerProofs StripProofs Props.

Lemma select_matching_length (parts tokens : list text) (n : nat) :
  forall selected,
    List.length (select_matching parts tokens n selected)
    <= Nat.max n (List.length selected).
Proof.
  induction parts as [ | part parts IH ]; intros selected;
    cbn [select_matching]; [ lia | ].
  destruct (Nat.leb_spec n (List.length selected)) as [Hle | Hgt].
  - rewrite orb_true_r. apply IH.
  - rewrite orb_false_r.
    destruct (negb (nonempty part)); [ apply IH | ].
    cbv zeta.
    match goal with
    | |- context [if ?b then _ else _] => destruct b
    end; [ | apply IH ].
    etransitivity; [ apply IH | ].
    rewrite length_app. cbn [List.length]. lia.
Qed.

Lemma select_first_length (parts : list text) (n : nat) :
  forall selected,
    List.length selected < Nat.max n 1 ->
    List.length (select_first parts n selected) <= Nat.max n 1.
Proof.
  induction parts as [ | part parts IH ]; intros selected Hsel;
    cbn [select_first]; [ lia | ].
  cbv zeta.
  set (selected' := if nonempty (strip part) then selected ++ [strip part]
                    else selected).
  assert (Hlen : List.length selected' <= Nat.max n 1).
  { subst selected'. destruct (nonempty (strip part)); [ | lia ].
    rewrite length_app. cbn [List.length]. lia. }
  destruct (Nat.leb_spec n (List.length selected')) as [Hle | Hgt];
    [ exact Hlen | ].
  apply IH. lia.
Qed.

(** Each selected sentence is the stripped form of a part. *)
Lemma select_matching_from (Q : text -> Prop) (parts tokens : list text)
    (n : nat) :
  (forall part, In part parts -> Q (strip part)) ->
  forall selected,
    Forall Q selected ->
    Forall Q (select_matching parts tokens n selected).
Proof.
  induction parts as [ | part parts IH ]; intros Hparts selected Hsel;
    cbn [select_matching]; [ exact Hsel | ].
  assert (Hrest : forall p, In p parts -> Q (strip p))
    by (intros p Hp; apply Hparts; now right).
  match goal with
  | |- context [if ?b then _ else _] => destruct b
  end; [ now apply IH | ].
  cbv zeta.
  match goal with
  | |- context [if ?b then _ else _] => destruct b
  end; [ | now apply IH ].
  apply IH; [ exact Hrest | ].
  apply Forall_app. split; [ exact Hsel | ].
  constructor; [ apply Hparts; now left | constructor ].
Qed.

Lemma select_first_from (Q : text -> Prop) (parts : list text) (n : nat) :
  (forall part, In part parts -> Q (strip part)) ->
  forall selected,
    Forall Q selected ->
    Forall Q (select_first parts n selected).
Proof.
  induction parts as [ | part parts IH ]; intros Hparts selected Hsel;
    cbn [select_first]; [ exact Hsel | ].
  assert (Hrest : forall p, In p parts -> Q (strip p))
    by (intros p Hp; apply Hparts; now right).
  assert (Hsel' : Forall Q
            (if nonempty (strip part) then selected ++ [strip part]
             else selected)).
  { destruct (nonempty (strip part)); [ | exact Hsel ].
    apply Forall_app. split; [ exact Hsel | ].
    constructor; [ apply Hparts; now left | constructor ]. }
  cbv zeta.
  match goal with
  | |- context [if ?b then _ else _] => destruct b
  end; [ exact Hsel' | now apply IH ].
Qed.

Lemma extract_from (Q : text -> Prop) (chunk : text)
    (query_tokens : list text) (n : nat) :
  (forall part, In part (re_split SENTENCE_END chunk) -> Q (strip part)) ->
  Forall Q (_extract_relevant_sentences chunk query_tokens n).
Proof.
  intros Hparts. unfold _extract_relevant_sentences.
  pose proof (select_matching_from Q _
                (map lower (filter nonempty query_tokens)) n Hparts []
                (Forall_nil _)) as Hm.
  cbv zeta.
  match goal with
  | |- context [match ?x with [] => _ | _ :: _ => _ end] =>
      destruct x eqn:E
  end.
  - apply select_first_from; [ exact Hparts | constructor ].
  - first [ exact Hm | rewrite <- E; exact Hm ].
Qed.

Lemma extract_length (chunk : text) (query_tokens : list text) (n : nat) :
  List.length (_extract_relevant_sentences chunk query_tokens n)
  <= Nat.max n 1.
Proof.
  unfold _extract_relevant_sentences. cbv zeta.
  pose proof (select_matching_length (re_split SENTENCE_END chunk)
                (map lower (filter nonempty query_tokens)) n []) as Hm.
  match goal with
  | |- context [match ?x with [] => _ | _ :: _ => _ end] =>
      destruct x eqn:E
  end.
  - apply select_first_length. cbn [List.length]. lia.
  - first [ cbn [List.length] in Hm |- *; lia
          | rewrite <- E; cbn [List.length] in Hm; lia ].
Qed.

(** X19: [_extract_relevant_sentences] returns at most [max_sentences]
    sentences, and at most one when [max_sentences] is 0 (the fallback
    loop appends before it tests the bound); every sentence it returns is
    the stripped form of a part of the split chunk, so it neither starts
    nor ends with white space. *)
Theorem extract_returns_few_trimmed_sentences :
  forall (chunk : text) (query_tokens : list text) (max_sentences : nat),
    List.length (_extract_relevant_sentences chunk query_tokens max_sentences)
    <= Nat.max max_sentences 1
    /\ Forall (fun s => trimmed s
                        /\ exists part,
                             In part (re_split SENTENCE_END chunk)
                             /\ s = strip part)
              (_extract_relevant_sentences chunk query_tokens max_sentences).
Proof.
  intros chunk query_tokens n. split.
  - apply extract_length.
  - apply extract_from. intros part Hin. split.
    + apply trimmed_strip.
    + exists part. split; [ exact Hin | reflexivity ].
Qed.

End ExtractProofs.

(* ================================================================== *)
(** * The summary of an explanation *)
(* ================================================================== *)

Module SummaryProofs.
Import Re Explainer TextProps ReProofs ExplainerProofs StripProofs
       ExtractProofs Props.

(** The chunks that the retrieved indices select. *)
Local Abbreviation retrieved_texts chunks idx_list :=
  (flat_map (fun idx : Z =>
               if Z.leb 0 idx && Z.ltb idx (Z.of_nat (List.length chunks))
               then match nth_error chunks (Z.to_nat idx) with
                    | Some chunk => [chunk]
                    | None => []
                    end
               else [])
            idx_list).

Lemma retrieved_in_chunks (chunks : list text) (idx_list : list Z) :
  Forall (fun chunk => In chunk chunks) (retrieved_texts chunks idx_list).
Proof.
  apply Forall_flat_map, Forall_forall. intros idx _.
  destruct ((0 <=? idx)%Z && (idx <? Z.of_nat (List.length chunks))%Z);
    [ | constructor ].
  destruct (nth_error chunks (Z.to_nat idx)) as [ chunk | ] eqn:Hn;
    [ | constructor ].
  constructor; [ exact (nth_error_In _ _ Hn) | constructor ].
Qed.

Lemma retrieved_length (chunks : list text) (idx_list : list Z) :
  List.length (retrieved_texts chunks idx_list) <= List.length idx_list.
Proof.
  induction idx_list as [ | idx l IH ]; cbn [flat_map List.length]; [ lia | ].
  rewrite length_app.
  destruct ((0 <=? idx)%Z && (idx <? Z.of_nat (List.length chunks))%Z);
    [ | cbn [List.length]; lia ].
  destruct (nth_error chunks (Z.to_nat idx)); cbn [List.length]; lia.
Qed.

(** A property of the accumulated sentences that every step of the two
    loops keeps holds of the summary. *)
Lemma summary_of_invariant (I : list text -> Prop) (chunks : list text)
    (idx_list : list Z) (query_tokens : list text) :
  I [] ->
  (forall acc chunk s,
      In chunk chunks ->
      In s (_extract_relevant_sentences chunk query_tokens 2) ->
      I acc -> I (add_cleaned acc s)) ->
  I (summary_of chunks idx_list query_tokens).
Proof.
  intros Hnil Hstep. unfold summary_of.
  assert (Hinner : forall chunk sentences acc,
            In chunk chunks ->
            (forall s, In s sentences ->
               In s (_extract_relevant_sentences chunk query_tokens 2)) ->
            I acc -> I (fold_left add_cleaned sentences acc)).
  { intros chunk. induction sentences as [ | s sentences IHs ];
      intros acc Hchunk Hin Hacc; [ exact Hacc | ].
    cbn [fold_left]. apply IHs; [ exact Hchunk | | ].
    - intros s' Hs'. apply Hin. now right.
    - apply (Hstep acc chunk s Hchunk); [ apply Hin; now left | exact Hacc ]. }
  assert (Houter : forall l acc,
            Forall (fun chunk => In chunk chunks) l ->
            I acc ->
            I (fold_left
                 (fun summary_sentences chunk =>
                    fold_left add_cleaned
                      (_extract_relevant_sentences chunk query_tokens 2)
                      summary_sentences) l acc)).
  { induction l as [ | chunk l IH ]; intros acc Hl Hacc; [ exact Hacc | ].
    inversion Hl as [ | ? ? Hchunk Hl' ]; subst. cbn [fold_left].
    apply IH; [ exact Hl' | ].
    apply (Hinner chunk); auto. }
  apply Houter; [ apply retrieved_in_chunks | exact Hnil ].
Qed.

Lemma text_eqb_eq (a b : text) : text_eqb a b = true <-> a = b.
Proof.
  unfold text_eqb. destruct (list_eq_dec ascii_dec a b); split;
    auto; discriminate.
Qed.

Lemma add_cleaned_NoDup (acc : list text) (s : text) :
  NoDup acc -> NoDup (add_cleaned acc s).
Proof.
  intros Hnd. unfold add_cleaned. cbv zeta.
  destruct (nonempty (_scrub_pii s)); cbn [andb]; [ | exact Hnd ].
  destruct (existsb (text_eqb (_scrub_pii s)) acc) eqn:Hex; cbn [negb];
    [ exact Hnd | ].
  apply NoDup_app; [ exact Hnd | constructor; [ intros [] | constructor ] | ].
  intros x Hx [ <- | [] ].
  assert (Htrue : existsb (text_eqb (_scrub_pii s)) acc = true).
  { apply existsb_exists. exists (_scrub_pii s).
    split; [ exact Hx | now apply text_eqb_eq ]. }
  congruence.
Qed.

Lemma add_cleaned_nonempty (acc : list text) (s : text) :
  Forall (fun x => x <> []) acc -> Forall (fun x => x <> []) (add_cleaned acc s).
Proof.
  intros Hacc. unfold add_cleaned. cbv zeta.
  destruct (_scrub_pii s) as [ | c x ] eqn:Hs; cbn [nonempty andb];
    [ exact Hacc | ].
  destruct (negb (existsb (text_eqb (c :: x)) acc)); [ | exact Hacc ].
  apply Forall_app. split; [ exact Hacc | ].
  constructor; [ discriminate | constructor ].
Qed.

Lemma add_cleaned_length (sentences : list text) :
  forall acc,
    List.length (fold_left add_cleaned sentences acc)
    <= List.length acc + List.length sentences.
Proof.
  induction sentences as [ | s l IH ]; intros acc; cbn [fold_left List.length];
    [ lia | ].
  etransitivity; [ apply IH | ].
  unfold add_cleaned. cbv zeta.
  match goal with
  | |- context [if ?b then _ else _] => destruct b
  end; [ rewrite length_app; cbn [List.length] | ]; lia.
Qed.

Lemma summary_of_length (chunks : list text) (idx_list : list Z)
    (query_tokens : list text) :
  List.length (summary_of chunks idx_list query_tokens)
  <= 2 * List.length idx_list.
Proof.
  unfold summary_of.
  pose proof (retrieved_length chunks idx_list) as Hret.
  assert (H : forall l acc,
            List.length
              (fold_left
                 (fun summary_sentences chunk =>
                    fold_left add_cleaned
                      (_extract_relevant_sentences chunk query_tokens 2)
                      summary_sentences) l acc)
            <= List.length acc + 2 * List.length l).
  { induction l as [ | chunk l IH ]; intros acc; cbn [fold_left List.length];
      [ lia | ].
    etransitivity; [ apply IH | ].
    pose proof (add_cleaned_length
                  (_extract_relevant_sentences chunk query_tokens 2) acc).
    pose proof (extract_length chunk query_tokens 2). lia. }
  etransitivity; [ apply H | ]. cbn [List.length]. lia.
Qed.

(** X20: the summary of an explanation holds no sentence twice and no
    empty sentence, and at most two sentences for each retrieved index;
    indices that lie outside the chunk list are ignored, and when all do,
    the body is the sentence that no relevant guidance was found. *)
Theorem summary_is_duplicate_free_and_bounded :
  forall (chunks : list text) (idx_list : list Z) (query_tokens : list text),
    NoDup (summary_of chunks idx_list query_tokens)
    /\ Forall (fun s => s <> []) (summary_of chunks idx_list query_tokens)
    /\ List.length (summary_of chunks idx_list query_tokens)
       <= 2 * List.length idx_list
    /\ ((forall idx, In idx idx_list ->
           (idx < 0)%Z \/ (Z.of_nat (List.length chunks) <= idx)%Z) ->
        body_of (summary_of chunks idx_list query_tokens) = NO_GUIDANCE).
Proof.
  intros chunks idx_list query_tokens.
  split.
  { apply summary_of_invariant; [ constructor | ].
    intros acc chunk s _ _. apply add_cleaned_NoDup. }
  split.
  { apply summary_of_invariant; [ constructor | ].
    intros acc chunk s _ _. apply add_cleaned_nonempty. }
  split; [ apply summary_of_length | ].
  intros Hout. unfold summary_of.
  replace (retrieved_texts chunks idx_list) with (@nil text);
    [ reflexivity | ].
  symmetry. induction idx_list as [ | idx l IH ]; [ reflexivity | ].
  cbn [flat_map].
  rewrite IH by (intros i Hi; apply Hout; now right).
  destruct (Hout idx (or_introl eq_refl)) as [Hneg | Hbig].
  - destruct (Z.leb_spec 0 idx); [ lia | reflexivity ].
  - destruct (Z.ltb_spec idx (Z.of_nat (List.length chunks))); [ lia | ].
    rewrite andb_false_r. reflexivity.
Qed.

End SummaryProofs.

(* ================================================================== *)
(** * The lines of an explanation *)
(* ================================================================== *)

Module LinesProofs.
Import Re Explainer TextProps ReProofs ExplainerProofs StripProofs
       ExtractProofs SummaryProofs Props.

Lemma match_length_run (p : ascii -> bool) (prev : option ascii) (s : text) :
  match repeat_greedy p 1 None prev s (fun _ rest => Some rest) with
  | Some rest => Some (List.length s - List.length rest)
  | None => None
  end
  = if 1 <=? leading p s then Some (leading p s) else None.
Proof.
  rewrite repeat_greedy_accept_all.
  destruct (1 <=? leading p s); [ | reflexivity ].
  rewrite length_skipn_le by apply leading_le. reflexivity.
Qed.

(** A line feed starts a match of the sentence-end pattern. *)
Lemma line_feed_is_sentence_end (prev : option ascii) (c : ascii) (s : text) :
  is_lf c = true ->
  exists n, match_length SENTENCE_END prev (c :: s) = Some (S n).
Proof.
  intros Hc. unfold match_length, SENTENCE_END. cbn [match_re].
  assert (Hsp : py_isspace c = true).
  { unfold is_lf, is_char in Hc. apply Ascii.eqb_eq in Hc. now subst c. }
  assert (H1 : exists n, leading py_isspace (c :: s) = S n)
    by (cbn [leading]; rewrite Hsp; eauto).
  assert (H2 : exists n, leading (is_char "010") (c :: s) = S n)
    by (cbn [leading]; unfold is_lf in Hc; rewrite Hc; eauto).
  destruct H1 as [n1 H1], H2 as [n2 H2].
  pose proof (match_length_run py_isspace prev (c :: s)) as Ha.
  pose proof (match_length_run (is_char "010") prev (c :: s)) as Hb.
  rewrite H1 in Ha. rewrite H2 in Hb. cbn [Nat.leb] in Ha, Hb.
  destruct prev as [ c0 | ].
  - destruct (one_of ".!?" c0).
    + destruct (repeat_greedy py_isspace 1 None (Some c0) (c :: s)
                  (fun _ rest => Some rest)) as [ rest | ];
        [ | discriminate Ha ].
      exists n1. exact Ha.
    + destruct (repeat_greedy (is_char "010") 1 None (Some c0) (c :: s)
                  (fun _ rest => Some rest)) as [ rest | ];
        [ | discriminate Hb ].
      exists n2. exact Hb.
  - destruct (repeat_greedy (is_char "010") 1 None None (c :: s)
                (fun _ rest => Some rest)) as [ rest | ];
      [ | discriminate Hb ].
    exists n2. exact Hb.
Qed.

Lemma scan_SENTENCE_END_lits (s : text) :
  forall prev skip c,
    In (Lit c) (scan SENTENCE_END prev s skip) -> is_lf c = false.
Proof.
  induction s as [ | x s IH ]; intros prev skip c; cbn [scan]; [ intros [] | ].
  destruct skip as [ | n ]; [ | apply IH ].
  destruct (is_lf x) eqn:Hx.
  - destruct (line_feed_is_sentence_end prev x s Hx) as [n Hn].
    rewrite Hn. intros [Hin | Hin]; [ discriminate Hin | exact (IH _ _ _ Hin) ].
  - destruct (match_length SENTENCE_END prev (x :: s)) as [ [ | n ] | ];
      intros [Hin | Hin];
      try (injection Hin as <-; exact Hx); try discriminate Hin;
      exact (IH _ _ _ Hin).
Qed.

Lemma parts_hold_no_line_feed (chunk : text) :
  Forall no_line_feed (re_split SENTENCE_END chunk).
Proof.
  unfold re_split. apply split_pieces_chars; [ constructor | ].
  intros c Hin. exact (scan_SENTENCE_END_lits _ _ _ _ Hin).
Qed.

Lemma scrub_adds_no_line_feed (t : text) : no_line_feed t -> no_line_feed (_scrub_pii t).
Proof.
  intros H. unfold _scrub_pii.
  change (no_line_feed (emit (scan HANDLE None
            (emit (scan DIGITS None (emit (scan EMAIL None t 0)) 0)) 0))).
  assert (Hr : Forall (fun c => is_lf c = false) REDACTED)
    by (repeat constructor).
  unfold no_line_feed. repeat apply emit_keeps_chars; assumption.
Qed.

Lemma summary_holds_no_line_feed (chunks : list text) (idx_list : list Z)
    (query_tokens : list text) :
  Forall no_line_feed (summary_of chunks idx_list query_tokens).
Proof.
  apply summary_of_invariant; [ constructor | ].
  intros acc chunk s _ Hs Hacc. unfold add_cleaned. cbv zeta.
  match goal with
  | |- context [if ?b then _ else _] => destruct b
  end; [ | exact Hacc ].
  apply Forall_app. split; [ exact Hacc | ].
  constructor; [ | constructor ].
  apply scrub_adds_no_line_feed.
  pose proof (extract_from no_line_feed chunk query_tokens 2) as Hex.
  rewrite Forall_forall in Hex. apply Hex; [ | exact Hs ].
  intros part Hpart. apply strip_chars.
  pose proof (parts_hold_no_line_feed chunk) as Hparts.
  rewrite Forall_forall in Hparts. exact (Hparts _ Hpart).
Qed.

Lemma body_holds_no_line_feed (summary_sentences : list text) :
  Forall no_line_feed summary_sentences -> no_line_feed (body_of summary_sentences).
Proof.
  intros Hall. destruct summary_sentences as [ | a l ];
    [ repeat constructor | ].
  change (body_of (a :: l)) with (join_text (str " ") (a :: l)).
  revert a Hall. induction l as [ | b l IH ]; intros a Hall.
  - inversion Hall; subst. assumption.
  - inversion Hall as [ | ? ? Ha Hl ]; subst.
    change (join_text (str " ") (a :: b :: l))
      with (a ++ " "%char :: join_text (str " ") (b :: l)).
    apply Forall_app. split; [ exact Ha | ].
    constructor; [ reflexivity | apply IH, Hl ].
Qed.

(** The number of line feeds of a text. *)
Local Abbreviation line_feeds t := (count_occ ascii_dec t "010"%char).

Lemma no_line_feed_count (t : text) : no_line_feed t -> line_feeds t = 0.
Proof.
  intros H. apply count_occ_not_In. intros Hin.
  unfold no_line_feed in H. rewrite Forall_forall in H.
  specialize (H _ Hin). discriminate H.
Qed.

Section ThreeLines.

Variables Model Index Vec IndexFile ChunksFile : Type.
Variable SentenceTransformer : string -> result Model.
Variable read_index : IndexFile -> result Index.
Variable pickle_load : ChunksFile -> result (list text).
Variable encode : Model -> list text -> result Vec.
Variable is_float32 : Vec -> bool.
Variable astype_float32 : Vec -> Vec.
Variable normalize_L2 : Vec -> result Vec.
Variable search : Index -> Vec -> nat -> result (list Z).
Variable BASE_DIR : string.

Local Abbreviation explain :=
  (explain_decision Model Index Vec IndexFile ChunksFile
     SentenceTransformer read_index pickle_load encode is_float32
     astype_float32 normalize_L2 search BASE_DIR).

(** X21: the summary of a returned explanation holds no line feed
    (code 10), whatever line feeds the retrieved chunks hold: the sentence
    splitter takes every line feed, and neither stripping, scrubbing nor
    joining brings one back.  So the explanation has exactly two line
    feeds more than the reason code.  Other characters that break a line,
    such as a carriage return inside a sentence, are not covered: they
    pass through. *)
Theorem explanation_summary_has_no_line_feed :
  forall (d : disk IndexFile ChunksFile) (g g' : globals Model Index)
         (reason_code out : text),
    explain d g reason_code = (inr out, g') ->
    exists body,
      out = explanation_of reason_code body
      /\ no_line_feed body
      /\ line_feeds out = line_feeds reason_code + 2.
Proof.
  intros d g g' reason_code out Hcall.
  destruct (explain_returns_caches _ _ _ _ _ _ _ _ _ _ _ _ _ _ _ _ _ _ _
              Hcall)
    as (model & index & chunks & indices & _ & _ & _ & _ & ->).
  eexists. split; [ reflexivity | ].
  match goal with
  | |- no_line_feed (body_of ?l) /\ _ =>
      assert (Hbody : no_line_feed (body_of l))
        by apply body_holds_no_line_feed, summary_holds_no_line_feed
  end.
  split; [ exact Hbody | ].
  unfold explanation_of.
  rewrite !count_occ_app, (no_line_feed_count _ Hbody).
  cbn. lia.
Qed.

End ThreeLines.

Lemma explanation_summary_has_no_line_feed_witness :
  exists body,
    leaking_explanation = explanation_of (str "FRAUD_SIGNAL") body
    /\ no_line_feed body
    /\ count_occ ascii_dec leaking_explanation "010"%char
       = count_occ ascii_dec (str "FRAUD_SIGNAL") "010"%char + 2.
Proof.
  apply (explanation_summary_has_no_line_feed unit unit unit unit (list text)
           (fun _ => ret tt) (fun _ => ret tt) (fun c => ret c)
           (fun _ _ => ret tt) (fun _ => true) (fun v => v)
           (fun v => ret v) (fun _ _ _ => ret [0%Z]) "rag"
           one_chunk_disk no_globals one_chunk_globals (str "FRAUD_SIGNAL")
           leaking_explanation).
  vm_compute. reflexivity.
Defined.

End LinesProofs.

(* ================================================================== *)
(** * _code_to_query: the shape of the query *)
(* ================================================================== *)

Module QueryProofs.
Import Re Explainer TextProps ReProofs ExplainerProofs StripProofs
       LinesProofs Props.

(** ** Characters through [re.sub] *)

Lemma scan_pieces_chars (P : ascii -> Prop) (r : re) (s : text) :
  forall prev skip,
    Forall P s ->
    Forall (fun x => match x with Lit c => P c | Hit m => Forall P m end)
           (scan r prev s skip).
Proof.
  induction s as [ | c s IH ]; intros prev skip Hs; cbn [scan];
    [ constructor | ].
  inversion Hs as [ | ? ? Hc Hs' ]; subst.
  destruct skip as [ | n ]; [ | now apply IH ].
  destruct (match_length r prev (c :: s)) as [ [ | n ] | ];
    try (constructor; [ exact Hc | now apply IH ]).
  constructor; [ | now apply IH ].
  apply Forall_forall. intros x Hx.
  rewrite Forall_forall in Hs. apply Hs.
  rewrite <- (firstn_skipn (S n) (c :: s)). apply in_or_app. now left.
Qed.

Lemma re_sub_chars (P : ascii -> Prop) (r : re) (repl : text -> text)
    (s : text) :
  (forall m, Forall P m -> Forall P (repl m)) ->
  Forall P s -> Forall P (re_sub r repl s).
Proof.
  intros Hrepl Hs. unfold re_sub.
  apply Forall_flat_map.
  pose proof (scan_pieces_chars P r s None 0 Hs) as H.
  eapply Forall_impl; [ | exact H ].
  intros [ c | m ] Hx; [ constructor; [ exact Hx | constructor ] | ].
  apply Hrepl, Hx.
Qed.

(** ** White-space runs through [re.sub(r"\s+", " ", s)] *)

Lemma match_length_SPACES (prev : option ascii) (s : text) :
  match_length SPACES prev s
  = if 1 <=? leading py_isspace s then Some (leading py_isspace s) else None.
Proof. apply match_length_run. Qed.

Local Abbreviation one_space ps :=
  (flat_map (fun x => match x with Lit c => [c] | Hit _ => str " " end) ps).

Lemma sub_SPACES_single_spaced (s : text) :
  forall prev skip,
    skip = 0 \/ skip = leading py_isspace s ->
    single_spaced (one_space (scan SPACES prev s skip)) = true
    /\ (skip = leading py_isspace s ->
        space_here (one_space (scan SPACES prev s skip)) = false).
Proof.
  induction s as [ | c s IH ]; intros prev skip Hskip; cbn [scan].
  - split; reflexivity.
  - destruct skip as [ | n ].
    + rewrite match_length_SPACES. cbn [leading].
      destruct (py_isspace c) eqn:Hc.
      * cbn [Nat.leb flat_map].
        destruct (IH (Some c) (leading py_isspace s) (or_intror eq_refl))
          as [Hss Hhere].
        split; [ | discriminate ].
        cbn [str list_ascii_of_string app single_spaced] in Hss, Hhere |- *.
        rewrite (Hhere eq_refl), Hss. reflexivity.
      * cbn [Nat.leb flat_map app].
        destruct (IH (Some c) 0 (or_introl eq_refl)) as [Hss _].
        split.
        { cbn [single_spaced]. rewrite Hc, Hss. reflexivity. }
        { intros _. cbn [space_here]. exact Hc. }
    + destruct Hskip as [Hskip | Hskip]; [ discriminate Hskip | ].
      cbn [leading] in Hskip.
      destruct (py_isspace c); [ | discriminate Hskip ].
      injection Hskip as ->.
      destruct (IH (Some c) (leading py_isspace s) (or_intror eq_refl))
        as [Hss Hhere].
      split; [ exact Hss | intros _; exact (Hhere eq_refl) ].
Qed.

Lemma single_spaced_app (a b : text) :
  single_spaced (a ++ b) = true ->
  single_spaced a = true /\ single_spaced b = true.
Proof.
  induction a as [ | c a IH ]; cbn [app single_spaced]; [ auto | ].
  intros H. apply andb_true_iff in H as [Hc Hrest].
  destruct (IH Hrest) as [Ha Hb]. split; [ | exact Hb ].
  rewrite Ha, andb_true_r.
  destruct (py_isspace c); [ | reflexivity ].
  apply andb_true_iff in Hc as [Heq Hnext]. rewrite Heq. cbn [andb].
  destruct a as [ | c' a ]; [ reflexivity | exact Hnext ].
Qed.

Lemma single_spaced_strip (t : text) :
  single_spaced t = true -> single_spaced (strip t) = true.
Proof.
  intros H. destruct (strip_split t) as (l & r & Heq & _ & _).
  rewrite Heq in H.
  apply single_spaced_app in H as [_ H].
  apply single_spaced_app in H as [H _]. exact H.
Qed.

(** ** [str.lower] *)

Lemma lower_char_facts (c : ascii) :
  py_isupper (lower_char c) = false
  /\ py_isspace (lower_char c) = py_isspace c
  /\ (py_isspace c = true -> lower_char c = c)
  /\ (lower_char c = "_"%char -> c = "_"%char)
  /\ (lower_char c = "-"%char -> c = "-"%char).
Proof.
  destruct c as [[] [] [] [] [] [] [] []]; vm_compute;
    repeat split; try reflexivity; try discriminate; auto.
Qed.

Lemma single_spaced_lower (t : text) :
  single_spaced t = true -> single_spaced (lower t) = true.
Proof.
  unfold lower.
  induction t as [ | c t IH ]; cbn [map single_spaced]; [ auto | ].
  intros H. apply andb_true_iff in H as [Hc Hrest].
  rewrite (IH Hrest), andb_true_r.
  destruct (lower_char_facts c) as (_ & Hsp & Hid & _).
  rewrite Hsp. destruct (py_isspace c); [ | reflexivity ].
  rewrite (Hid eq_refl).
  apply andb_true_iff in Hc as [Heq Hnext]. rewrite Heq. cbn [andb].
  destruct t as [ | c' t ]; [ reflexivity | ].
  cbn [map space_here] in *.
  destruct (lower_char_facts c') as (_ & Hsp' & _). rewrite Hsp'. exact Hnext.
Qed.

Lemma last_map_lower (t : text) (dflt : ascii) :
  last (map lower_char t) (lower_char dflt) = lower_char (last t dflt).
Proof.
  induction t as [ | c t IH ]; [ reflexivity | ].
  destruct t as [ | c' t ]; [ reflexivity | ].
  cbn [map last] in *. exact IH.
Qed.

Lemma trimmed_lower (t : text) : trimmed t -> trimmed (lower t).
Proof.
  unfold trimmed, lower. destruct t as [ | c t ]; [ auto | ].
  intros [Hc Hlast].
  change (map lower_char (c :: t)) with (lower_char c :: map lower_char t).
  destruct (lower_char_facts c) as (_ & Hsp & _).
  split; [ congruence | ].
  change (lower_char c :: map lower_char t) with (map lower_char (c :: t)).
  rewrite last_map_lower.
  destruct (lower_char_facts (last (c :: t) c)) as (_ & Hsp' & _).
  congruence.
Qed.

Lemma replace_char_chars (a b : ascii) (P : ascii -> Prop) (s : text) :
  P b -> (forall c, c <> a -> P c) -> Forall P (replace_char a b s).
Proof.
  intros Hb Hother. unfold replace_char. apply Forall_forall.
  intros x Hx. apply in_map_iff in Hx as (c & <- & _).
  destruct (Ascii.eqb_spec c a); [ exact Hb | now apply Hother ].
Qed.

Lemma replace_char_keeps (a b : ascii) (P : ascii -> Prop) (s : text) :
  P b -> Forall P s -> Forall P (replace_char a b s).
Proof.
  intros Hb Hs. unfold replace_char. apply Forall_forall.
  intros x Hx. apply in_map_iff in Hx as (c & <- & Hc).
  rewrite Forall_forall in Hs.
  destruct (Ascii.eqb c a); [ exact Hb | now apply Hs ].
Qed.

(** X22: the query built from a reason code is "guidance about "
    followed by the normalised code, which holds no upper-case letter
    (none that [str.isupper] accepts), no underscore and no hyphen, has
    single space characters as its only white space (of all that
    [str.isspace] accepts), and neither starts nor ends with white
    space. *)
Theorem code_to_query_is_normalised :
  forall reason_code : text,
  exists s,
    _code_to_query reason_code = str "guidance about " ++ s
    /\ Forall (fun c => py_isupper c = false
                        /\ c <> "_"%char /\ c <> "-"%char) s
    /\ single_spaced s = true
    /\ trimmed s.
Proof.
  intros rc. unfold _code_to_query. cbv zeta.
  eexists. split; [ reflexivity | ].
  set (s1 := replace_char "-" " " (replace_char "_" " " rc)).
  set (s2 := re_sub CAMEL _ s1).
  set (s3 := re_sub SPACES _ s2).
  assert (H1 : Forall (fun c => c <> "_"%char /\ c <> "-"%char) s1).
  { subst s1.
    assert (Hu : Forall (fun c => c <> "_"%char)
                   (replace_char "-" " " (replace_char "_" " " rc))).
    { apply replace_char_keeps; [ discriminate | ].
      apply replace_char_chars; [ discriminate | auto ]. }
    assert (Hh : Forall (fun c => c <> "-"%char)
                   (replace_char "-" " " (replace_char "_" " " rc))).
    { apply replace_char_chars; [ discriminate | auto ]. }
    rewrite Forall_forall in *. intros x Hx. split; auto. }
  assert (H2 : Forall (fun c => c <> "_"%char /\ c <> "-"%char) s2).
  { subst s2. apply re_sub_chars; [ | exact H1 ].
    intros m Hm. destruct m as [ | a [ | b [ | x m ] ] ]; try exact Hm.
    inversion Hm as [ | ? ? Ha Hm' ]; subst.
    constructor; [ exact Ha | ].
    constructor; [ split; discriminate | exact Hm' ]. }
  assert (H3 : Forall (fun c => c <> "_"%char /\ c <> "-"%char) s3).
  { subst s3. apply re_sub_chars; [ | exact H2 ].
    intros m _. repeat constructor; discriminate. }
  assert (S3 : single_spaced s3 = true).
  { subst s3. unfold re_sub.
    exact (proj1 (sub_SPACES_single_spaced s2 None 0 (or_introl eq_refl))). }
  split; [ | split ].
  - pose proof (strip_chars _ s3 H3) as H4.
    unfold lower. apply Forall_forall. intros x Hx.
    apply in_map_iff in Hx as (c & <- & Hc).
    rewrite Forall_forall in H4. destruct (H4 c Hc) as [Hu Hh].
    destruct (lower_char_facts c) as (Hup & _ & _ & Hu' & Hh').
    split; [ exact Hup | ]. split; intros Heq; auto.
  - apply single_spaced_lower, single_spaced_strip, S3.
  - apply trimmed_lower, trimmed_strip.
Qed.

(** ** The tokens of the query *)

Lemma match_length_WORD (prev : option ascii) (s : text) :
  match_length WORD prev s
  = if 1 <=? leading is_word s then Some (leading is_word s) else None.
Proof. apply match_length_run. Qed.

Lemma scan_WORD_any_prev (s : text) :
  forall prev prev' skip, scan WORD prev s skip = scan WORD prev' s skip.
Proof.
  induction s as [ | c s IH ]; intros prev prev' skip; cbn [scan];
    [ reflexivity | ].
  destruct skip; [ | reflexivity ].
  rewrite !match_length_WORD. reflexivity.
Qed.

Lemma scan_WORD_skip (l x : text) :
  forall prev, scan WORD prev (l ++ x) (List.length l) = scan WORD None x 0.
Proof.
  induction l as [ | c l IH ]; intros prev; cbn [app List.length].
  - apply scan_WORD_any_prev.
  - cbn [scan]. apply IH.
Qed.

Lemma leading_word_then_stop (w : text) (c : ascii) (rest : text) :
  forallb is_word w = true -> is_word c = false ->
  leading is_word (w ++ c :: rest) = List.length w.
Proof.
  intros Hw Hc. induction w as [ | a w IH ]; cbn [app leading List.length].
  - rewrite Hc. reflexivity.
  - cbn [forallb] in Hw. apply andb_true_iff in Hw as [Ha Hw].
    rewrite Ha, (IH Hw). reflexivity.
Qed.

(** A word followed by a character that is no word character is the
    first token. *)
Lemma findall_WORD_first (a : ascii) (w : text) (c : ascii) (rest : text) :
  forallb is_word (a :: w) = true -> is_word c = false ->
  re_findall WORD ((a :: w) ++ c :: rest)
  = (a :: w) :: re_findall WORD rest.
Proof.
  intros Hw Hc. unfold re_findall.
  change ((a :: w) ++ c :: rest) with (a :: (w ++ c :: rest)).
  cbn [scan]. rewrite match_length_WORD.
  change (a :: (w ++ c :: rest)) with ((a :: w) ++ c :: rest).
  rewrite (leading_word_then_stop (a :: w) c rest Hw Hc).
  cbn [List.length Nat.leb flat_map app].
  f_equal.
  - cbn [firstn app]. f_equal.
    rewrite firstn_app, Nat.sub_diag, firstn_all. cbn [firstn].
    apply app_nil_r.
  - rewrite scan_WORD_skip. cbn [scan]. rewrite match_length_WORD.
    cbn [leading]. rewrite Hc. cbn [Nat.leb flat_map app].
    rewrite (scan_WORD_any_prev rest (Some c) None 0). reflexivity.
Qed.

(** X23: every query starts with the tokens "guidance" and "about",
    whatever the reason code; the tokens of the normalised code follow.
    So a sentence that holds one of these two words, in any case, counts
    as a sentence that holds a query token for every reason code. *)
Theorem query_tokens_start_with_guidance_about :
  forall reason_code : text,
  exists s,
    _code_to_query reason_code = str "guidance about " ++ s
    /\ re_findall WORD (_code_to_query reason_code)
       = str "guidance" :: str "about" :: re_findall WORD s
    /\ forall part,
         text_in (str "guidance") (lower part)
         || text_in (str "about") (lower part) = true ->
         holds_token (re_findall WORD (_code_to_query reason_code)) part
         = true.
Proof.
  intros rc. unfold _code_to_query. cbv zeta.
  eexists. split; [ reflexivity | ].
  match goal with
  | |- re_findall WORD (_ ++ ?s) = _ /\ _ =>
      assert (Htok : re_findall WORD (str "guidance about " ++ s)
                     = str "guidance" :: str "about" :: re_findall WORD s)
  end.
  { change (str "guidance about " ++ ?s)
      with (str "guidance" ++ " "%char :: (str "about" ++ " "%char :: s)).
    rewrite (findall_WORD_first "g" (str "uidance") " ") by reflexivity.
    rewrite (findall_WORD_first "a" (str "bout") " ") by reflexivity.
    reflexivity. }
  split; [ exact Htok | ].
  intros part Hpart. rewrite Htok. unfold holds_token.
  apply existsb_exists.
  apply orb_true_iff in Hpart as [Hg | Ha].
  - exists (str "guidance"). split; [ | exact Hg ].
    apply in_map_iff. exists (str "guidance"). split; [ reflexivity | ].
    apply filter_In. split; [ now left | reflexivity ].
  - exists (str "about"). split; [ | exact Ha ].
    apply in_map_iff. exists (str "about"). split; [ reflexivity | ].
    apply filter_In. split; [ right; now left | reflexivity ].
Qed.

End QueryProofs.

(* ================================================================== *)
(** * The rule layer on NaN scores; the fallback answer *)
(* ================================================================== *)

Module RuleEdgeProofs.
Import DecisionEngine Props.

Lemma SFcompare_refl_not_nan (x : SpecFloat.spec_float) :
  SpecFloat.SFeqb x x = false -> x = SpecFloat.S754_nan.
Proof.
  unfold SpecFloat.SFeqb, SpecFloat.SFcompare.
  destruct x as [ s | s | | s m e ]; try reflexivity.
  - destruct s; discriminate.
  - destruct s; discriminate.
  - rewrite Z.compare_refl, Pos.compare_cont_refl.
    destruct s; discriminate.
Qed.

Lemma nan_is_spec_nan (x : float) :
  is_nan x = true -> FloatOps.Prim2SF x = SpecFloat.S754_nan.
Proof.
  unfold is_nan. intros H. apply negb_true_iff in H.
  rewrite FloatAxioms.eqb_spec in H. exact (SFcompare_refl_not_nan _ H).
Qed.

(** Comparisons with NaN are false. *)
Lemma nan_not_ge (x t : float) : is_nan x = true -> float_ge x t = false.
Proof.
  intros H. unfold float_ge. rewrite FloatAxioms.leb_spec, (nan_is_spec_nan x H).
  unfold SpecFloat.SFleb, SpecFloat.SFcompare.
  destruct (FloatOps.Prim2SF t) as [ s | s | | s m e ]; reflexivity.
Qed.

Lemma nan_not_le (x t : float) : is_nan x = true -> float_le x t = false.
Proof.
  intros H. unfold float_le. rewrite FloatAxioms.leb_spec, (nan_is_spec_nan x H).
  reflexivity.
Qed.

(** X24: a NaN score fires no signal.  With a NaN fraud probability the
    decision is never HARD_BLOCK and rests on the anomaly score alone;
    with a NaN anomaly score it rests on the fraud probability alone; with
    both NaN it is ALLOW with NO_SIGNIFICANT_RISK, whatever the flags. *)
Theorem nan_scores_fire_no_signal :
  forall (fp an : float) (q b : Z),
    (is_nan fp = true ->
     _apply_decision_rules fp an q b
     = if float_le an (-0.10) then ("SOFT_BLOCK", "ANOMALY_SIGNAL")
       else ("ALLOW", "NO_SIGNIFICANT_RISK"))
    /\ (is_nan an = true ->
        _apply_decision_rules fp an q b
        = if float_ge fp 0.5 then ("SOFT_BLOCK", "FRAUD_SIGNAL")
          else ("ALLOW", "NO_SIGNIFICANT_RISK"))
    /\ (is_nan fp = true -> is_nan an = true ->
        _apply_decision_rules fp an q b = ("ALLOW", "NO_SIGNIFICANT_RISK")).
Proof.
  intros fp an q b.
  unfold _apply_decision_rules, HIGH_FRAUD_THRESHOLD, SOFT_FRAUD_THRESHOLD,
    HIGH_ANOMALY_THRESHOLD, SOFT_ANOMALY_THRESHOLD.
  split; [ | split ].
  - intros Hfp. rewrite !(nan_not_ge fp _ Hfp). cbn [andb orb app].
    destruct (float_le an (-0.10)); reflexivity.
  - intros Han. rewrite !(nan_not_le an _ Han).
    rewrite !andb_false_r. cbn [andb orb app].
    destruct (float_ge fp 0.5); reflexivity.
  - intros Hfp Han. rewrite !(nan_not_ge fp _ Hfp), !(nan_not_le an _ Han).
    reflexivity.
Qed.

(** The reason codes that the rule function gives. *)
Lemma rules_reason_codes (fp an : float) (q b : Z) :
  In (snd (_apply_decision_rules fp an q b))
     ["QR_NEW_BENEFICIARY_HIGH_FRAUD_HIGH_ANOMALY"; "FRAUD_SIGNAL";
      "ANOMALY_SIGNAL"; "FRAUD_SIGNAL_ANOMALY_SIGNAL"; "NO_SIGNIFICANT_RISK"].
Proof.
  unfold _apply_decision_rules.
  destruct (float_ge fp HIGH_FRAUD_THRESHOLD
            && float_le an HIGH_ANOMALY_THRESHOLD
            && Z.eqb q 1 && Z.eqb b 1);
    [ cbn; tauto | ].
  destruct (float_ge fp SOFT_FRAUD_THRESHOLD),
    (float_le an SOFT_ANOMALY_THRESHOLD); cbn; tauto.
Qed.

(** X25: the fallback answer of the /decision endpoint cannot be taken
    for a decision: whatever [make_decision] returns has one of the five
    reason codes of the rule function, and never the reason code
    INPUT_VALIDATION_FAILED of SAFE_ALLOW_RESPONSE. *)
Theorem decision_is_never_the_fallback :
  forall (V : Type) (py_int : V -> result Z) (fm : fraud_model V)
         (decision_function : DataFrame V -> result float)
         (feature_row : pyobj V) (d : Decision),
    make_decision py_int fm decision_function feature_row = ret d ->
    In (reason_code d)
       ["QR_NEW_BENEFICIARY_HIGH_FRAUD_HIGH_ANOMALY"; "FRAUD_SIGNAL";
        "ANOMALY_SIGNAL"; "FRAUD_SIGNAL_ANOMALY_SIGNAL";
        "NO_SIGNIFICANT_RISK"]
    /\ reason_code d <> reason_code Api.SAFE_ALLOW_RESPONSE
    /\ d <> Api.SAFE_ALLOW_RESPONSE.
Proof.
  intros V py_int fm decision_function feature_row d Hd.
  assert (Hin : In (reason_code d)
            ["QR_NEW_BENEFICIARY_HIGH_FRAUD_HIGH_ANOMALY"; "FRAUD_SIGNAL";
             "ANOMALY_SIGNAL"; "FRAUD_SIGNAL_ANOMALY_SIGNAL";
             "NO_SIGNIFICANT_RISK"]).
  { unfold make_decision in Hd.
    destruct feature_row as [ df | name ]; [ | discriminate Hd ].
    destruct (negb (Nat.eqb (List.length (rows df)) 1)); [ discriminate Hd | ].
    destruct (fraud_probability_of fm df) as [ e | fp ]; [ discriminate Hd | ].
    destruct (decision_function df) as [ e | an ]; [ discriminate Hd | ].
    cbn [bind] in Hd.
    destruct (col <- getitem df "is_qr" ;; cell <- iloc0 col ;; py_int cell)
      as [ e | q ]; [ discriminate Hd | ].
    cbn [bind] in Hd.
    destruct (col <- getitem df "beneficiary_is_new" ;;
              cell <- iloc0 col ;; py_int cell)
      as [ e | b ]; [ discriminate Hd | ].
    cbn [bind] in Hd.
    pose proof (rules_reason_codes fp an q b) as Hcodes.
    destruct (_apply_decision_rules fp an q b) as [dec rc].
    injection Hd as <-. exact Hcodes. }
  split; [ exact Hin | ].
  assert (Hne : reason_code d <> reason_code Api.SAFE_ALLOW_RESPONSE).
  { intros Heq. rewrite Heq in Hin. cbn in Hin.
    repeat (destruct Hin as [Hin | Hin]; [ discriminate Hin | ]).
    exact Hin. }
  split; [ exact Hne | ].
  intros ->. apply Hne. reflexivity.
Qed.

Lemma decision_is_never_the_fallback_witness :
  make_decision_stub
    (PyDataFrame {| columns := ["is_qr"; "beneficiary_is_new"];
                    rows := [[1%Z; 1%Z]] |})
  = ret {| decision := "HARD_BLOCK";
           risk_score := 0.9;
           anomaly_score := -0.2;
           reason_code := "QR_NEW_BENEFICIARY_HIGH_FRAUD_HIGH_ANOMALY" |}
  /\ reason_code
       {| decision := "HARD_BLOCK";
          risk_score := 0.9;
          anomaly_score := -0.2;
          reason_code := "QR_NEW_BENEFICIARY_HIGH_FRAUD_HIGH_ANOMALY" |}
     <> reason_code Api.SAFE_ALLOW_RESPONSE.
Proof.
  split; [ reflexivity | ].
  refine (proj1 (proj2
    (decision_is_never_the_fallback Z (fun z => ret z)
       (HasPredictProba (fun _ => ret 0.9%float))
       (fun _ => ret (-0.2)%float)
       (PyDataFrame {| columns := ["is_qr"; "beneficiary_is_new"];
                       rows := [[1%Z; 1%Z]] |})
       _ _))).
  reflexivity.
Defined.

End RuleEdgeProofs.

(* ================================================================== *)
(** * _extract_relevant_sentences: which sentences *)
(* ================================================================== *)

Module ExtractFormProofs.
Import Re Explainer TextProps Props.

Lemma select_matching_form (parts tokens : list text) (n : nat) :
  forall selected,
    select_matching parts (map lower (filter nonempty tokens)) n selected
    = selected
      ++ map strip
           (firstn (n - List.length selected)
              (filter (fun p => nonempty p && holds_token tokens p) parts)).
Proof.
  induction parts as [ | part parts IH ]; intros selected;
    cbn [select_matching filter].
  - rewrite firstn_nil. cbn [map]. now rewrite app_nil_r.
  - destruct (Nat.leb_spec n (List.length selected)) as [Hle | Hgt].
    + rewrite orb_true_r, IH.
      replace (n - List.length selected) with 0 by lia. reflexivity.
    + rewrite orb_false_r.
      destruct (nonempty part); cbn [negb andb]; [ | apply IH ].
      cbv zeta. fold (holds_token tokens part).
      destruct (holds_token tokens part); [ | apply IH ].
      rewrite IH, length_app. cbn [List.length].
      replace (n - List.length selected)
        with (S (n - (List.length selected + 1))) by lia.
      cbn [firstn map]. rewrite <- app_assoc. reflexivity.
Qed.

Lemma select_first_form (parts : list text) (n : nat) :
  forall selected,
    List.length selected < n ->
    select_first parts n selected
    = selected
      ++ map strip
           (firstn (n - List.length selected)
              (filter (fun p => nonempty (strip p)) parts)).
Proof.
  induction parts as [ | part parts IH ]; intros selected Hlen;
    cbn [select_first filter].
  - rewrite firstn_nil. cbn [map]. now rewrite app_nil_r.
  - cbv zeta. destruct (nonempty (strip part)).
    + rewrite length_app. cbn [List.length].
      replace (n - List.length selected)
        with (S (n - (List.length selected + 1))) by lia.
      cbn [firstn map].
      destruct (Nat.leb_spec n (List.length selected + 1)) as [Hle | Hgt].
      * replace (n - (List.length selected + 1)) with 0 by lia.
        reflexivity.
      * rewrite IH by (rewrite length_app; cbn [List.length]; lia).
        rewrite length_app, <- app_assoc. reflexivity.
    + destruct (Nat.leb_spec n (List.length selected)); [ lia | ].
      apply IH, Hlen.
Qed.

(** X26: for a positive [max_sentences], [_extract_relevant_sentences]
    returns the first [max_sentences] non-empty parts of the chunk that
    hold a query token, stripped and in their order; when no part holds a
    token, it returns the first [max_sentences] parts that are not blank,
    stripped. *)
Theorem extract_takes_first_matching_sentences :
  forall (chunk : text) (query_tokens : list text) (max_sentences : nat),
    0 < max_sentences ->
    _extract_relevant_sentences chunk query_tokens max_sentences
    = match filter (fun p => nonempty p && holds_token query_tokens p)
                   (re_split SENTENCE_END chunk) with
      | [] =>
          map strip
            (firstn max_sentences
               (filter (fun p => nonempty (strip p))
                       (re_split SENTENCE_END chunk)))
      | matching => map strip (firstn max_sentences matching)
      end.
Proof.
  intros chunk query_tokens n Hn. unfold _extract_relevant_sentences.
  cbv zeta. rewrite select_matching_form. cbn [app List.length].
  rewrite Nat.sub_0_r.
  destruct (filter (fun p => nonempty p && holds_token query_tokens p)
                   (re_split SENTENCE_END chunk)) as [ | m matching ].
  - rewrite firstn_nil. cbn [map].
    rewrite select_first_form by (cbn [List.length]; lia).
    cbn [app List.length]. now rewrite Nat.sub_0_r.
  - destruct n as [ | n ]; [ lia | ]. reflexivity.
Qed.

Lemma extract_takes_first_matching_sentences_witness :
  _extract_relevant_sentences
    (str "Check the device. Ask ABOUT the payee!  Stop.") [str "about"] 2
  = [str "Ask ABOUT the payee!"].
Proof.
  rewrite (extract_takes_first_matching_sentences
             (str "Check the device. Ask ABOUT the payee!  Stop.")
             [str "about"] 2 (Nat.lt_0_succ 1)).
  reflexivity.
Defined.

End ExtractFormProofs.

(* ================================================================== *)
(** * _scrub_pii on a long digit run *)
(* ================================================================== *)

Module ScrubRunProofs.
Import Re Explainer TextProps ReProofs ScrubCleanProofs Props.

Lemma leading_stops_inside (p : ascii -> bool) (a b : text) :
  leading p a < List.length a -> leading p (a ++ b) = leading p a.
Proof.
  induction a as [ | c a IH ]; cbn [leading List.length app]; [ lia | ].
  destruct (p c); [ | reflexivity ].
  intros H. rewrite IH by lia. reflexivity.
Qed.

Lemma leading_whole_run (p : ascii -> bool) (run post : text) :
  Forall (fun c => p c = true) run -> leading p post = 0 ->
  leading p (run ++ post) = List.length run.
Proof.
  intros Hrun Hpost.
  induction Hrun as [ | c run Hc _ IH ]; cbn [app leading List.length];
    [ exact Hpost | ].
  rewrite Hc, IH. reflexivity.
Qed.

Lemma no_final_digit_stops (t : text) :
  t <> [] -> ends_with_digit t = false ->
  leading is_digit t < List.length t.
Proof.
  induction t as [ | c t IH ]; [ congruence | ].
  intros _ Hend. cbn [leading List.length].
  destruct (is_digit c) eqn:Hc; [ | lia ].
  destruct t as [ | c' t ]; [ cbn in Hend; congruence | ].
  assert (leading is_digit (c' :: t) < List.length (c' :: t))
    by (apply IH; [ discriminate | exact Hend ]).
  lia.
Qed.

Lemma scan_past_match (r : re) (l x : text) :
  forall prev, exists prev',
    scan r prev (l ++ x) (List.length l) = scan r prev' x 0.
Proof.
  induction l as [ | c l IH ]; intros prev; cbn [app List.length].
  - exists prev. reflexivity.
  - cbn [scan]. apply IH.
Qed.

Lemma redact_whole_run (run post : text) (prev : option ascii) :
  Forall (fun c => is_digit c = true) run -> 5 <= List.length run ->
  starts_with_digit post = false -> runs_ok 0 post = true ->
  emit (scan DIGITS prev (run ++ post) 0) = REDACTED ++ post.
Proof.
  intros Hrun Hlen Hstart Hpost.
  assert (Hlead : leading is_digit post = 0).
  { destruct post as [ | c post ]; [ reflexivity | ].
    cbn [starts_with_digit] in Hstart. cbn [leading]. now rewrite Hstart. }
  destruct run as [ | d run ]; [ cbn in Hlen; lia | ].
  change ((d :: run) ++ post) with (d :: (run ++ post)).
  cbn [scan]. rewrite match_length_DIGITS.
  change (d :: (run ++ post)) with ((d :: run) ++ post).
  rewrite (leading_whole_run is_digit (d :: run) post Hrun Hlead).
  destruct (Nat.leb_spec 5 (List.length (d :: run))) as [_ | ]; [ | lia ].
  cbn [List.length emit flat_map]. f_equal.
  destruct (scan_past_match DIGITS run post (Some d)) as [prev' ->].
  rewrite (scan_no_match DIGITS post prev')
    by (apply (runs_ok_search_DIGITS post prev' 0), Hpost).
  apply emit_map_Lit.
Qed.

Lemma redact_run_after (pre run post : text) :
  forall prev,
    runs_ok 0 pre = true -> ends_with_digit pre = false ->
    Forall (fun c => is_digit c = true) run -> 5 <= List.length run ->
    starts_with_digit post = false -> runs_ok 0 post = true ->
    emit (scan DIGITS prev (pre ++ run ++ post) 0)
    = pre ++ REDACTED ++ post.
Proof.
  induction pre as [ | c pre IH ]; intros prev Hpre Hend Hrun Hlen Hstart Hpost.
  - cbn [app]. now apply redact_whole_run.
  - change ((c :: pre) ++ run ++ post) with (c :: (pre ++ run ++ post)).
    cbn [scan]. rewrite match_length_DIGITS.
    change (c :: (pre ++ run ++ post)) with ((c :: pre) ++ run ++ post).
    rewrite (leading_stops_inside is_digit (c :: pre) (run ++ post))
      by (apply no_final_digit_stops; [ discriminate | exact Hend ]).
    destruct (runs_ok_leading (c :: pre) 0 Hpre) as [H0 | Hlt];
      (destruct (Nat.leb_spec 5 (leading is_digit (c :: pre))); [ lia | ]).
    all: cbn [emit flat_map app]; f_equal;
      apply IH; auto;
      [ exact (runs_ok_tail c pre 0 Hpre)
      | destruct pre; [ reflexivity | exact Hend ] ].
Qed.

Lemma digit_is_not_at (c : ascii) : is_digit c = true -> c <> "@"%char.
Proof. intros H ->. discriminate H. Qed.

(** X27: [_scrub_pii] replaces a long digit run as a whole.  In a text
    without [@], a run of five or more digits that stands between a text
    that does not end with a digit and a text that does not start with
    one, neither holding five digits in a row, becomes [REDACTED]; what
    stands before and behind it comes back unchanged. *)
Theorem scrub_redacts_whole_digit_run :
  forall pre run post : text,
    no_at pre -> no_at post ->
    ~ has_digit_run pre -> ~ has_digit_run post ->
    ends_with_digit pre = false -> starts_with_digit post = false ->
    Forall (fun c => is_digit c = true) run -> 5 <= List.length run ->
    _scrub_pii (pre ++ run ++ post) = pre ++ REDACTED ++ post.
Proof.
  intros pre run post Hatpre Hatpost Hdpre Hdpost Hend Hstart Hrun Hlen.
  assert (Hat : no_at (pre ++ run ++ post)).
  { unfold no_at in *. rewrite !Forall_app. repeat split; auto.
    eapply Forall_impl; [ | exact Hrun ]. apply digit_is_not_at. }
  assert (Hat' : no_at (pre ++ REDACTED ++ post)).
  { unfold no_at in *. rewrite !Forall_app. repeat split; auto.
    repeat constructor; discriminate. }
  unfold _scrub_pii.
  change (redact HANDLE (redact DIGITS (redact EMAIL (pre ++ run ++ post)))
          = pre ++ REDACTED ++ post).
  rewrite (redact_no_match EMAIL _ (search_EMAIL_needs_at _ None Hat)).
  replace (redact DIGITS (pre ++ run ++ post)) with (pre ++ REDACTED ++ post).
  - apply redact_no_match, search_HANDLE_needs_at, Hat'.
  - symmetry. apply redact_run_after; auto using no_digit_run_runs_ok.
Qed.

Lemma scrub_redacts_whole_digit_run_witness :
  _scrub_pii (str "acct 9876543210 flagged") = str "acct [REDACTED] flagged".
Proof.
  apply (scrub_redacts_whole_digit_run
           (str "acct ") (str "9876543210") (str " flagged")).
  - repeat constructor; discriminate.
  - repeat constructor; discriminate.
  - apply runs_ok_no_digit_run. reflexivity.
  - apply runs_ok_no_digit_run. reflexivity.
  - reflexivity.
  - reflexivity.
  - repeat constructor.
  - cbn. lia.
Defined.

End ScrubRunProofs.
